(** * System-Monitor: sampling, alert lifecycle and log analysis

    A shallow embedding of the Go backend of the System-Monitor service:

    - package [metrics]: the metric model and the [Collector] sampling loop;
    - package [alerts]:  the alert model and the threshold [Service];
    - package [logs]:    the [LogAnalyzer].

    Go's [float64] is Rocq's primitive binary64 float, so the comparisons and
    the severity arithmetic run exactly as the Go code does.  The database
    (GORM), the wall clock, the sample source (gopsutil), [fmt.Sprintf] and the
    file system are collaborators outside the repository: the database tables
    are lists of rows in a [World], and what the collaborators answer is read
    from an [Env] oracle indexed by the number of interactions made so far. *)

From Stdlib Require Import ZArith Ascii String Floats Lia.
From stdpp Require Import base option list sorting strings gmap.

(** ** Package metrics: models *)

(** [type MetricType string] *)
Definition MetricType : Type := string.

Definition CPUUsage : MetricType := "cpu_usage".
Definition MemoryUsage : MetricType := "memory_usage".

(** [time.Time], as an instant on an integer time line. *)
Definition Time : Type := Z.

Record Metric : Type := {
  Metric_ID : Z;
  Metric_Type : MetricType;
  Metric_Value : float;
  Metric_Unit : string;
  Metric_Timestamp : Time;
  Metric_CreatedAt : Time
}.

Record SystemMetrics : Type := {
  SystemMetrics_CPUUsage : float;
  SystemMetrics_MemoryUsage : float;
  SystemMetrics_Timestamp : Time
}.

Record MetricThreshold : Type := {
  MetricThreshold_ID : Z;
  MetricThreshold_Type : MetricType;
  MetricThreshold_Threshold : float;
  MetricThreshold_Enabled : bool;
  MetricThreshold_CreatedAt : Time;
  MetricThreshold_UpdatedAt : Time
}.

(** ** Package alerts: models *)

Inductive AlertStatus : Type := AlertActive | AlertResolved.

Inductive AlertSeverity : Type :=
  SeverityLow | SeverityMedium | SeverityHigh | SeverityCritical.

Record Alert : Type := {
  Alert_ID : Z;
  Alert_Type : MetricType;
  Alert_Message : string;
  Alert_Value : float;
  Alert_Threshold : float;
  Alert_Severity : AlertSeverity;
  Alert_Status : AlertStatus;
  Alert_TriggeredAt : Time;
  Alert_ResolvedAt : option Time;
  Alert_CreatedAt : Time;
  Alert_UpdatedAt : Time
}.

Record CreateAlertRequest : Type := {
  CreateAlertRequest_Type : MetricType;
  CreateAlertRequest_Value : float;
  CreateAlertRequest_Threshold : float
}.

#[global] Instance AlertStatus_eq_dec : EqDecision AlertStatus.
Proof. solve_decision. Defined.

#[global] Instance AlertSeverity_eq_dec : EqDecision AlertSeverity.
Proof. solve_decision. Defined.

(** ** Errors

    Go's [error] values as the code builds them: the sentinel
    [gorm.ErrRecordNotFound], an error reported by a collaborator (driver,
    sample source, operating system), [fmt.Errorf] with and without a wrapped
    cause. *)
Inductive error : Type :=
| ErrRecordNotFound
| ErrExternal (msg : string)
| Errorf (msg : string)
| ErrorfW (msg : string) (cause : error).

(** What a call that may panic does. *)
Inductive outcome (A : Type) : Type :=
| Returned (a : A)
| Panicked (msg : string).
Arguments Returned {A} a.
Arguments Panicked {A} msg.

(** ** The world outside the functions *)

(** One constructor per [log.Printf]/[log.Println] call site of the model. *)
Inductive LogLine : Type :=
| LogAlertCreateFailed (e : error)
| LogAlertCreated (t : MetricType) (value threshold : float)
| LogResolveFailed (t : MetricType) (e : error)
| LogResolved (rows : Z) (t : MetricType)
| LogStarting
| LogStoppedByContext
| LogStopped
| LogCollectError (e : error)
| LogSaveCPUFailed (e : error)
| LogSaveMemoryFailed (e : error)
| LogCollected (cpu mem : float).

(** The tables of the database, the standard logger's output and the number
    of interactions with the collaborators so far. *)
Record World : Type := {
  db_metrics : list Metric;
  db_metrics_seq : Z;
  db_metric_thresholds : list MetricThreshold;
  db_alerts : list Alert;
  db_alerts_seq : Z;
  log_output : list LogLine;
  ticks : nat
}.

(** The collaborators' answers.  The [k]-th interaction reads index [k]:
    - [env_now k]: the wall clock;
    - [env_db_fault k]: [Some msg] when the database statement fails;
    - [env_cpu_Percent k]: the result of [cpu.Percent(time.Second, false)];
    - [env_mem_UsedPercent k]: [mem.VirtualMemory()] and its [UsedPercent];
    - [env_sprintf_2f]: the verb [%.2f] of [fmt.Sprintf]. *)
Record Env : Type := {
  env_now : nat -> Time;
  env_db_fault : nat -> option string;
  env_cpu_Percent : nat -> list float * option error;
  env_mem_UsedPercent : nat -> float * option error;
  env_sprintf_2f : float -> string
}.

Definition set_ticks (n : nat) (w : World) : World :=
  {| db_metrics := db_metrics w; db_metrics_seq := db_metrics_seq w;
     db_metric_thresholds := db_metric_thresholds w;
     db_alerts := db_alerts w; db_alerts_seq := db_alerts_seq w;
     log_output := log_output w; ticks := n |}.

Definition set_alerts (l : list Alert) (seq : Z) (w : World) : World :=
  {| db_metrics := db_metrics w; db_metrics_seq := db_metrics_seq w;
     db_metric_thresholds := db_metric_thresholds w;
     db_alerts := l; db_alerts_seq := seq;
     log_output := log_output w; ticks := ticks w |}.

Definition set_metrics (l : list Metric) (seq : Z) (w : World) : World :=
  {| db_metrics := l; db_metrics_seq := seq;
     db_metric_thresholds := db_metric_thresholds w;
     db_alerts := db_alerts w; db_alerts_seq := db_alerts_seq w;
     log_output := log_output w; ticks := ticks w |}.

Definition add_log (l : LogLine) (w : World) : World :=
  {| db_metrics := db_metrics w; db_metrics_seq := db_metrics_seq w;
     db_metric_thresholds := db_metric_thresholds w;
     db_alerts := db_alerts w; db_alerts_seq := db_alerts_seq w;
     log_output := log_output w ++ [l]; ticks := ticks w |}.

(** ** A reader-and-state monad for the effects *)

Definition M (A : Type) : Type := Env -> World -> A * World.

#[global] Instance M_ret : MRet M := fun A a _ w => (a, w).

#[global] Instance M_bind : MBind M := fun A B f m env w =>
  let (a, w') := m env w in f a env w'.

(** [time.Now()]: one interaction, answered by the clock of the environment. *)
Definition time_Now : M Time :=
  fun env w => (env_now env (ticks w), set_ticks (S (ticks w)) w).

(** [fmt.Sprintf("%.2f", x)] *)
Definition sprintf_2f (x : float) : M string :=
  fun env w => (env_sprintf_2f env x, w).

(** [log.Printf] *)
Definition log_Printf (l : LogLine) : M unit := fun _ w => (tt, add_log l w).

(** [for _, x := range xs { body }] *)
Fixpoint for_range {A : Type} (xs : list A) (body : A -> M unit) : M unit :=
  match xs with
  | [] => mret tt
  | x :: xs' => body x;; for_range xs' body
  end.

(** ** The database statements the code issues (GORM)

    Every statement is one interaction.  A statement that fails changes no
    row.  GORM stamps [created_at]/[updated_at] with its own clock reading,
    taken at the statement's interaction. *)

(** [db.Where("enabled = ?", true).Find(&thresholds)] *)
Definition db_Find_enabled_thresholds : M (list MetricThreshold * option error) :=
  fun env w =>
  let w' := set_ticks (S (ticks w)) w in
  match env_db_fault env (ticks w) with
  | Some msg => (([], Some (ErrExternal msg)), w')
  | None =>
      ((List.filter MetricThreshold_Enabled (db_metric_thresholds w), None), w')
  end.

(** The condition ["metric_type = ? AND status = ?"] at [AlertActive]. *)
Definition where_type_active (t : MetricType) (a : Alert) : bool :=
  bool_decide (Alert_Type a = t) && bool_decide (Alert_Status a = AlertActive).

(** The condition ["id = ? AND status = ?"] at [AlertActive]. *)
Definition where_id_active (id : Z) (a : Alert) : bool :=
  bool_decide (Alert_ID a = id) && bool_decide (Alert_Status a = AlertActive).

(** [db.Where(cond).First(&existingAlert)]: the first matching row in
    primary-key order, [gorm.ErrRecordNotFound] when there is none. *)
Definition db_First_alert (cond : Alert -> bool) : M (option Alert * option error) :=
  fun env w =>
  let w' := set_ticks (S (ticks w)) w in
  match env_db_fault env (ticks w) with
  | Some msg => ((None, Some (ErrExternal msg)), w')
  | None =>
      match List.find cond (db_alerts w) with
      | Some a => ((Some a, None), w')
      | None => ((None, Some ErrRecordNotFound), w')
      end
  end.

(** [db.Create(&alert)]: the row gets the next primary key and GORM's
    timestamps, and is appended to the table. *)
Definition stamp_alert (id : Z) (now : Time) (a : Alert) : Alert :=
  {| Alert_ID := id; Alert_Type := Alert_Type a; Alert_Message := Alert_Message a;
     Alert_Value := Alert_Value a; Alert_Threshold := Alert_Threshold a;
     Alert_Severity := Alert_Severity a; Alert_Status := Alert_Status a;
     Alert_TriggeredAt := Alert_TriggeredAt a; Alert_ResolvedAt := Alert_ResolvedAt a;
     Alert_CreatedAt := now; Alert_UpdatedAt := now |}.

Definition db_Create_alert (a : Alert) : M (option Alert * option error) :=
  fun env w =>
  let w' := set_ticks (S (ticks w)) w in
  match env_db_fault env (ticks w) with
  | Some msg => ((None, Some (ErrExternal msg)), w')
  | None =>
      let row := stamp_alert (db_alerts_seq w) (env_now env (ticks w)) a in
      ((Some row, None),
       set_alerts (db_alerts w ++ [row]) (db_alerts_seq w + 1)%Z w')
  end.

(** [Updates(map{"status": AlertResolved, "resolved_at": &now})] on one row. *)
Definition resolve_row (now updated : Time) (a : Alert) : Alert :=
  {| Alert_ID := Alert_ID a; Alert_Type := Alert_Type a; Alert_Message := Alert_Message a;
     Alert_Value := Alert_Value a; Alert_Threshold := Alert_Threshold a;
     Alert_Severity := Alert_Severity a; Alert_Status := AlertResolved;
     Alert_TriggeredAt := Alert_TriggeredAt a; Alert_ResolvedAt := Some now;
     Alert_CreatedAt := Alert_CreatedAt a; Alert_UpdatedAt := updated |}.

Definition resolve_where (cond : Alert -> bool) (now updated : Time) (a : Alert) : Alert :=
  if cond a then resolve_row now updated a else a.

(** [db.Model(&Alert{}).Where(cond).Updates(...)]: every matching row is
    updated; the result carries [RowsAffected] and [Error]. *)
Definition db_Updates_resolved (cond : Alert -> bool) (now : Time) : M (Z * option error) :=
  fun env w =>
  let w' := set_ticks (S (ticks w)) w in
  match env_db_fault env (ticks w) with
  | Some msg => ((0%Z, Some (ErrExternal msg)), w')
  | None =>
      ((Z.of_nat (length (List.filter cond (db_alerts w))), None),
       set_alerts (List.map (resolve_where cond now (env_now env (ticks w))) (db_alerts w))
                  (db_alerts_seq w) w')
  end.

(** ** Package alerts: [Service] *)

(** [generateAlertMessage], over the [%.2f] verb of the environment. *)
Definition generateAlertMessage (metricType : MetricType) (value threshold : float)
  : M string :=
  v ← sprintf_2f value;
  t ← sprintf_2f threshold;
  if decide (metricType = CPUUsage) then
    mret ("High CPU usage detected: " +:+ v +:+ "% (threshold: " +:+ t +:+ "%)")
  else if decide (metricType = MemoryUsage) then
    mret ("High memory usage detected: " +:+ v +:+ "% (threshold: " +:+ t +:+ "%)")
  else
    mret ("Threshold breached for " +:+ metricType +:+ ": " +:+ v
            +:+ "% (threshold: " +:+ t +:+ "%)").

Definition exceedPercentage (value threshold : float) : float :=
  (((value - threshold) / threshold) * 100)%float.

(** [calculateSeverity] *)
Definition calculateSeverity (value threshold : float) : AlertSeverity :=
  let exceedPercentage := exceedPercentage value threshold in
  if (50 <=? exceedPercentage)%float then SeverityCritical
  else if (25 <=? exceedPercentage)%float then SeverityHigh
  else if (10 <=? exceedPercentage)%float then SeverityMedium
  else SeverityLow.

(** [resolveActiveAlerts] *)
Definition resolveActiveAlerts (metricType : MetricType) : M unit :=
  now ← time_Now;
  result ← db_Updates_resolved (where_type_active metricType) now;
  match result with
  | (_, Some e) => log_Printf (LogResolveFailed metricType e)
  | (rows, None) =>
      if (0 <? rows)%Z then log_Printf (LogResolved rows metricType) else mret tt
  end.

(** The [switch threshold.Type] of [CheckThresholds]; [None] is [continue]. *)
Definition currentValue_of (currentMetrics : SystemMetrics) (t : MetricType)
  : option float :=
  if decide (t = CPUUsage) then Some (SystemMetrics_CPUUsage currentMetrics)
  else if decide (t = MemoryUsage) then Some (SystemMetrics_MemoryUsage currentMetrics)
  else None.

(** The body of the loop of [CheckThresholds]. *)
Definition check_threshold (currentMetrics : SystemMetrics) (threshold : MetricThreshold)
  : M unit :=
  match currentValue_of currentMetrics (MetricThreshold_Type threshold) with
  | None => mret tt
  | Some currentValue =>
      if (MetricThreshold_Threshold threshold <? currentValue)%float then
        found ← db_First_alert (where_type_active (MetricThreshold_Type threshold));
        match snd found with
        | Some ErrRecordNotFound =>
            message ← generateAlertMessage (MetricThreshold_Type threshold)
                        currentValue (MetricThreshold_Threshold threshold);
            let alert :=
              {| Alert_ID := 0%Z; Alert_Type := MetricThreshold_Type threshold;
                 Alert_Message := message;
                 Alert_Value := currentValue;
                 Alert_Threshold := MetricThreshold_Threshold threshold;
                 Alert_Severity :=
                   calculateSeverity currentValue (MetricThreshold_Threshold threshold);
                 Alert_Status := AlertActive;
                 Alert_TriggeredAt := SystemMetrics_Timestamp currentMetrics;
                 Alert_ResolvedAt := None;
                 Alert_CreatedAt := 0%Z; Alert_UpdatedAt := 0%Z |} in
            created ← db_Create_alert alert;
            match snd created with
            | Some e => log_Printf (LogAlertCreateFailed e)
            | None => log_Printf (LogAlertCreated (MetricThreshold_Type threshold)
                                    currentValue (MetricThreshold_Threshold threshold))
            end
        | _ => mret tt
        end
      else resolveActiveAlerts (MetricThreshold_Type threshold)
  end.

(** [CheckThresholds] *)
Definition CheckThresholds (currentMetrics : SystemMetrics) : M (option error) :=
  found ← db_Find_enabled_thresholds;
  match snd found with
  | Some e => mret (Some (ErrorfW "failed to get thresholds" e))
  | None => for_range (fst found) (check_threshold currentMetrics);; mret None
  end.

(** [CreateAlert] *)
Definition CreateAlert (req : CreateAlertRequest) : M (option Alert * option error) :=
  message ← generateAlertMessage (CreateAlertRequest_Type req)
              (CreateAlertRequest_Value req) (CreateAlertRequest_Threshold req);
  now ← time_Now;
  let alert :=
    {| Alert_ID := 0%Z; Alert_Type := CreateAlertRequest_Type req;
       Alert_Message := message;
       Alert_Value := CreateAlertRequest_Value req;
       Alert_Threshold := CreateAlertRequest_Threshold req;
       Alert_Severity := calculateSeverity (CreateAlertRequest_Value req)
                           (CreateAlertRequest_Threshold req);
       Alert_Status := AlertActive;
       Alert_TriggeredAt := now;
       Alert_ResolvedAt := None;
       Alert_CreatedAt := 0%Z; Alert_UpdatedAt := 0%Z |} in
  created ← db_Create_alert alert;
  match created with
  | (_, Some e) => mret (None, Some (ErrorfW "failed to create alert" e))
  | (row, None) => mret (row, None)
  end.

(** [ResolveAlert] *)
Definition ResolveAlert (alertID : Z) : M (option error) :=
  now ← time_Now;
  result ← db_Updates_resolved (where_id_active alertID) now;
  match result with
  | (_, Some e) => mret (Some (ErrorfW "failed to resolve alert" e))
  | (rows, None) =>
      if (rows =? 0)%Z then mret (Some (Errorf "alert not found or already resolved"))
      else mret None
  end.

(** The alert monitor of [main]: one evaluation per reading, the returned
    error only logged by the caller. *)
Fixpoint run_evaluations (env : Env) (readings : list SystemMetrics) (w : World) : World :=
  match readings with
  | [] => w
  | m :: rest => run_evaluations env rest (snd (CheckThresholds m env w))
  end.

(** ** Package metrics: [Collector] *)

(** [db.Create(&metric)] on the metrics table. *)
Definition stamp_metric (id : Z) (now : Time) (m : Metric) : Metric :=
  {| Metric_ID := id; Metric_Type := Metric_Type m; Metric_Value := Metric_Value m;
     Metric_Unit := Metric_Unit m; Metric_Timestamp := Metric_Timestamp m;
     Metric_CreatedAt := now |}.

Definition db_Create_metric (m : Metric) : M (option error) :=
  fun env w =>
  let w' := set_ticks (S (ticks w)) w in
  match env_db_fault env (ticks w) with
  | Some msg => (Some (ErrExternal msg), w')
  | None =>
      (None, set_metrics (db_metrics w ++ [stamp_metric (db_metrics_seq w)
                                             (env_now env (ticks w)) m])
                         (db_metrics_seq w + 1)%Z w')
  end.

(** [cpu.Percent(time.Second, false)] *)
Definition cpu_Percent : M (list float * option error) :=
  fun env w => (env_cpu_Percent env (ticks w), set_ticks (S (ticks w)) w).

(** [mem.VirtualMemory()], read at [UsedPercent]. *)
Definition mem_VirtualMemory : M (float * option error) :=
  fun env w => (env_mem_UsedPercent env (ticks w), set_ticks (S (ticks w)) w).

Definition new_Metric (t : MetricType) (v : float) (now : Time) : Metric :=
  {| Metric_ID := 0%Z; Metric_Type := t; Metric_Value := v; Metric_Unit := "%";
     Metric_Timestamp := now; Metric_CreatedAt := 0%Z |}.

(** [collectMetrics].  The final [log.Printf] indexes [cpuPercent[0]] outside
    the [len(cpuPercent) > 0] guard. *)
Definition collectMetrics : M (outcome (option error)) :=
  now ← time_Now;
  cpu ← cpu_Percent;
  match snd cpu with
  | Some err => mret (Returned (Some (ErrorfW "failed to get CPU usage" err)))
  | None =>
      match fst cpu with
      | c :: _ =>
          saved ← db_Create_metric (new_Metric CPUUsage c now);
          match saved with
          | Some e => log_Printf (LogSaveCPUFailed e)
          | None => mret tt
          end
      | [] => mret tt
      end;;
      memInfo ← mem_VirtualMemory;
      match snd memInfo with
      | Some err => mret (Returned (Some (ErrorfW "failed to get memory usage" err)))
      | None =>
          saved ← db_Create_metric (new_Metric MemoryUsage (fst memInfo) now);
          match saved with
          | Some e => log_Printf (LogSaveMemoryFailed e)
          | None => mret tt
          end;;
          match fst cpu with
          | c :: _ =>
              log_Printf (LogCollected c (fst memInfo));;
              mret (Returned None)
          | [] => mret (Panicked "index out of range [0] with length 0")
          end
      end
  end.

(** What the [select] of [Start] receives, in the order it receives it. *)
Inductive Event : Type := CtxDone | StopCh | TickerC.

(** The [for { select { ... } }] of [Start].  An empty list leaves the loop
    waiting; a panic ends it. *)
Fixpoint Start_loop (events : list Event) : M (outcome unit) :=
  match events with
  | [] => mret (Returned tt)
  | CtxDone :: _ => log_Printf LogStoppedByContext;; mret (Returned tt)
  | StopCh :: _ => log_Printf LogStopped;; mret (Returned tt)
  | TickerC :: rest =>
      r ← collectMetrics;
      match r with
      | Panicked msg => mret (Panicked msg)
      | Returned (Some err) => log_Printf (LogCollectError err);; Start_loop rest
      | Returned None => Start_loop rest
      end
  end.

(** [Start] *)
Definition Start (events : list Event) : M (outcome unit) :=
  log_Printf LogStarting;; Start_loop events.

(** ** Package logs *)

(** Go's [int] (64 bits): addition wraps around. *)
Definition int_add (a b : Z) : Z :=
  ((a + b + 2 ^ 63) mod 2 ^ 64 - 2 ^ 63)%Z.

(** *** The library functions of package [strings] the analyzer calls

    A Go string is its UTF-8 bytes; [string] holds one byte per character. *)

Definition byte_of (c : ascii) : N := N_of_ascii c.

(** [asciiSpace] of package [strings]: tab, line feed, vertical tab, form
    feed, carriage return, space. *)
Definition asciiSpace (c : ascii) : bool :=
  let n := byte_of c in
  ((9 <=? n) && (n <=? 13) || (n =? 32))%N.

(** The encodings of [unicode.IsSpace] runes above U+007F:
    U+0085 and U+00A0 on two bytes; U+1680, U+2000..U+200A, U+2028, U+2029,
    U+202F, U+205F and U+3000 on three. *)
Definition space2 (c1 c2 : ascii) : bool :=
  ((byte_of c1 =? 194) && ((byte_of c2 =? 133) || (byte_of c2 =? 160)))%N.

Definition space3 (c1 c2 c3 : ascii) : bool :=
  let '(a, b, c) := (byte_of c1, byte_of c2, byte_of c3) in
  ((a =? 225) && (b =? 154) && (c =? 128)
   || (a =? 226) && (b =? 128)
        && ((128 <=? c) && (c <=? 138) || (c =? 168) || (c =? 169) || (c =? 175))
   || (a =? 226) && (b =? 129) && (c =? 159)
   || (a =? 227) && (b =? 128) && (c =? 128))%N.

(** [strings.TrimLeftFunc(s, unicode.IsSpace)] *)
Fixpoint TrimLeft_space (s : string) : string :=
  match s with
  | EmptyString => EmptyString
  | String c1 s1 =>
      if asciiSpace c1 then TrimLeft_space s1 else
      match s1 with
      | EmptyString => s
      | String c2 s2 =>
          if space2 c1 c2 then TrimLeft_space s2 else
          match s2 with
          | EmptyString => s
          | String c3 s3 => if space3 c1 c2 c3 then TrimLeft_space s3 else s
          end
      end
  end.

(** [strings.TrimRightFunc(s, unicode.IsSpace)], on the reversed bytes: the
    last rune is a space exactly when the bytes end with its encoding. *)
Fixpoint TrimRight_space_rev (r : list ascii) : list ascii :=
  match r with
  | [] => []
  | c1 :: r1 =>
      if asciiSpace c1 then TrimRight_space_rev r1 else
      match r1 with
      | [] => r
      | c2 :: r2 =>
          if space2 c2 c1 then TrimRight_space_rev r2 else
          match r2 with
          | [] => r
          | c3 :: r3 => if space3 c3 c2 c1 then TrimRight_space_rev r3 else r
          end
      end
  end.

Definition TrimRight_space (s : string) : string :=
  string_of_list_ascii
    (List.rev (TrimRight_space_rev (List.rev (list_ascii_of_string s)))).

(** [strings.TrimSpace] *)
Definition TrimSpace (s : string) : string := TrimRight_space (TrimLeft_space s).

(** [strings.ToUpper], on the bytes below 128 (the analyzer applies it to a
    matched level word, which holds letters a-z and A-Z only). *)
Definition upper_byte (c : ascii) : ascii :=
  let n := byte_of c in
  if ((97 <=? n) && (n <=? 122))%N then ascii_of_N (n - 32) else c.

Fixpoint ToUpper (s : string) : string :=
  match s with
  | EmptyString => EmptyString
  | String c s' => String (upper_byte c) (ToUpper s')
  end.

(** [strings.SplitN(s, sep, 2)] for a one-byte separator: the text before and
    after the first [sep], or [s] alone when there is none. *)
Fixpoint cut (sep : ascii) (s : string) : option (string * string) :=
  match s with
  | EmptyString => None
  | String c s' =>
      if decide (c = sep) then Some (EmptyString, s')
      else match cut sep s' with
           | Some (before, after) => Some (String c before, after)
           | None => None
           end
  end.

Definition SplitN2 (s : string) (sep : ascii) : list string :=
  match cut sep s with
  | Some (before, after) => [before; after]
  | None => [s]
  end.

(** *** The pattern of [NewLogAnalyzer]

    [(?i)\[(INFO|WARN|ERROR|DEBUG)\]|^(INFO|WARN|ERROR|DEBUG):]
    under Go's leftmost-first matching.  None of the letters of the four
    words folds to a rune outside a-z and A-Z, so [(?i)] compares bytes up to
    the case of letters. *)

(** [word] at the head of [s], up to case: the matched text and the rest. *)
Fixpoint match_word (word s : string) : option (string * string) :=
  match word with
  | EmptyString => Some (EmptyString, s)
  | String p word' =>
      match s with
      | EmptyString => None
      | String c s' =>
          if decide (upper_byte c = p) then
            match match_word word' s' with
            | Some (m, rest) => Some (String c m, rest)
            | None => None
            end
          else None
      end
  end.

(** [(INFO|WARN|ERROR|DEBUG)] at the head of [s]. *)
Definition match_level (s : string) : option (string * string) :=
  match match_word "INFO" s with
  | Some r => Some r
  | None =>
      match match_word "WARN" s with
      | Some r => Some r
      | None =>
          match match_word "ERROR" s with
          | Some r => Some r
          | None => match_word "DEBUG" s
          end
      end
  end.

(** [\[(INFO|WARN|ERROR|DEBUG)\]] at the head of [s]: group 1. *)
Definition match_bracketed (s : string) : option string :=
  match s with
  | String c s1 =>
      if decide (c = "["%char) then
        match match_level s1 with
        | Some (lv, String c' _) => if decide (c' = "]"%char) then Some lv else None
        | _ => None
        end
      else None
  | EmptyString => None
  end.

(** [^(INFO|WARN|ERROR|DEBUG):] at the head of the line: group 2. *)
Definition match_prefixed (s : string) : option string :=
  match match_level s with
  | Some (lv, String c' _) => if decide (c' = ":"%char) then Some lv else None
  | _ => None
  end.

(** The first alternative at the leftmost position of [s] where it matches. *)
Fixpoint search_bracketed (s : string) : option string :=
  match match_bracketed s with
  | Some lv => Some lv
  | None =>
      match s with
      | EmptyString => None
      | String _ s' => search_bracketed s'
      end
  end.

(** [logPattern.FindStringSubmatch(line)]: [nil] without a match, else the
    whole match and the two groups, the group that took no part empty. *)
Definition FindStringSubmatch (line : string) : list string :=
  match match_bracketed line with
  | Some lv => ["[" +:+ lv +:+ "]"; lv; ""]
  | None =>
      match match_prefixed line with
      | Some lv => [lv +:+ ":"; ""; lv]
      | None =>
          match search_bracketed line with
          | Some lv => ["[" +:+ lv +:+ "]"; lv; ""]
          | None => []
          end
      end
  end.

(** *** The analyzer *)

(** [type LogLevel string] *)
Definition LogLevel : Type := string.

Definition INFO : LogLevel := "INFO".
Definition WARN : LogLevel := "WARN".
Definition ERROR : LogLevel := "ERROR".
Definition DEBUG : LogLevel := "DEBUG".

Record LogEntry : Type := {
  LogEntry_Level : LogLevel;
  LogEntry_Message : string;
  LogEntry_Time : string
}.

Record ErrorFrequency : Type := {
  ErrorFrequency_Message : string;
  ErrorFrequency_Count : Z
}.

Record LogStats : Type := {
  LogStats_LevelCounts : gmap LogLevel Z;
  LogStats_TopErrors : list ErrorFrequency;
  LogStats_TotalEntries : Z
}.

(** [parts[1]] trimmed when [len(parts) > 1], the zero string otherwise. *)
Definition message_after (line : string) (sep : ascii) : string :=
  match SplitN2 line sep with
  | _ :: after :: _ => TrimSpace after
  | _ => ""
  end.

(** [ParseLine] *)
Definition ParseLine (line : string) : option LogEntry :=
  let matches := FindStringSubmatch line in
  if decide (length matches = 0%nat) then None else
  let '(level, message) :=
    if decide (nth 1 matches "" ≠ "") then
      (ToUpper (nth 1 matches ""), message_after line "]")
    else if decide (nth 2 matches "" ≠ "") then
      (ToUpper (nth 2 matches ""), message_after line ":")
    else ("", "") in
  let message := if decide (message = "") then line else message in
  Some {| LogEntry_Level := level; LogEntry_Message := message; LogEntry_Time := "" |}.

(** [m[k]++] on a [map[string]int]: a missing key reads as zero. *)
Definition map_incr (k : string) (m : gmap string Z) : gmap string Z :=
  <[k := int_add (default 0%Z (m !! k)) 1]> m.

(** The order [sort.Slice(errors, func(i, j) bool { return errors[i].Count >
    errors[j].Count })] establishes: no entry is followed by one of a greater
    count. *)
Definition by_count_desc (x y : ErrorFrequency) : Prop :=
  (ErrorFrequency_Count y <= ErrorFrequency_Count x)%Z.

#[global] Instance by_count_desc_dec x y : Decision (by_count_desc x y).
Proof. unfold by_count_desc. apply _. Defined.

(** What the Go runtime and library leave open:
    - [range_map]: the order in which [range] visits the entries of a map,
      given here as a reordering of the map's list of entries;
    - [sort_Slice]: the result of [sort.Slice] under the order above; the sort
      is not stable, so entries of equal count may come out in any order. *)
Record GoRuntime : Type := {
  range_map : list (string * Z) -> list (string * Z);
  sort_Slice : list ErrorFrequency -> list ErrorFrequency
}.

(** A runtime that sorts with a merge sort and visits a map in the order of
    its list of entries. *)
Definition runtime_merge_sort : GoRuntime :=
  {| range_map := fun l => l; sort_Slice := merge_sort by_count_desc |}.

(** [ErrorFrequency{Message: msg, Count: count}] *)
Definition entry_of (kv : string * Z) : ErrorFrequency :=
  {| ErrorFrequency_Message := fst kv; ErrorFrequency_Count := snd kv |}.

(** [getTopErrors].  [range_map rt] is the order in which [range] visits the
    entries of the map: Go leaves it unspecified, any permutation may occur. *)
Definition getTopErrors (rt : GoRuntime)
    (errorMessages : gmap string Z) (topN : nat) : list ErrorFrequency :=
  let errors := List.map entry_of (range_map rt (map_to_list errorMessages)) in
  let errors := sort_Slice rt errors in
  if decide (topN < length errors)%nat then take topN errors else errors.

(** [os.Open] and the [bufio.Scanner] over the file: the lines [scanner.Text()]
    yields until [Scan] returns false, and [scanner.Err()] after that. *)
Record ScannedFile : Type := {
  scanned_lines : list string;
  scanner_Err : option error
}.

Definition os_Open_result : Type := ScannedFile + error.

(** The state of the scanning loop of [ParseLogFile]. *)
Record ScanState : Type := {
  scan_LevelCounts : gmap LogLevel Z;
  scan_TotalEntries : Z;
  scan_errorMessages : gmap string Z
}.

Definition scan_init : ScanState :=
  {| scan_LevelCounts := ∅; scan_TotalEntries := 0; scan_errorMessages := ∅ |}.

(** The body of [for scanner.Scan() { ... }]. *)
Definition scan_line (st : ScanState) (text : string) : ScanState :=
  let line := TrimSpace text in
  if decide (line = "") then st else
  match ParseLine line with
  | None => st
  | Some entry =>
      {| scan_LevelCounts := map_incr (LogEntry_Level entry) (scan_LevelCounts st);
         scan_TotalEntries := int_add (scan_TotalEntries st) 1;
         scan_errorMessages :=
           if decide (LogEntry_Level entry = ERROR)
           then map_incr (LogEntry_Message entry) (scan_errorMessages st)
           else scan_errorMessages st |}
  end.

(** [ParseLogFile] *)
Definition ParseLogFile (rt : GoRuntime)
    (fs : string -> os_Open_result) (filePath : string) : option LogStats * option error :=
  match fs filePath with
  | inr err => (None, Some (ErrorfW "failed to open log file" err))
  | inl file =>
      let st := foldl scan_line scan_init (scanned_lines file) in
      match scanner_Err file with
      | Some err => (None, Some (ErrorfW "error reading log file" err))
      | None =>
          (Some {| LogStats_LevelCounts := scan_LevelCounts st;
                   LogStats_TopErrors := getTopErrors rt (scan_errorMessages st) 5;
                   LogStats_TotalEntries := scan_TotalEntries st |},
           None)
      end
  end.

(** *** The file behind the scanner

    What [os.Open] returns for a path is a file or an error.  The reads of an
    open file deliver its bytes and then the end of the file, or the error of
    the read that fails after them. *)
Record OpenedFile : Type := {
  file_bytes : list ascii;
  file_read_err : option error
}.

(** [bufio.MaxScanTokenSize]: the size to which the buffer of a scanner made
    by [bufio.NewScanner] may grow; [ParseLogFile] never calls
    [scanner.Buffer]. *)
Definition MaxScanTokenSize : Z := 64 * 1024.

(** [bufio.ErrTooLong] *)
Definition ErrTooLong : error := ErrExternal "bufio.Scanner: token too long".

Definition line_feed : ascii := "010"%char.
Definition carriage_return : ascii := "013"%char.

(** [scanner.Text()] for the token [bufio.ScanLines] cuts from the bytes
    held, given last byte first: [dropCR] takes one trailing carriage return
    away. *)
Definition token_Text (line_rev : list ascii) : string :=
  string_of_list_ascii
    (reverse match line_rev with
             | c :: rest => if decide (c = carriage_return) then rest else line_rev
             | [] => []
             end).

(** [for scanner.Scan()] with the split function [bufio.ScanLines]:
    the lines yielded, and whether the scan stopped on [ErrTooLong].
    [line_rev] holds the [held] bytes read since the last line feed.  A line
    feed ends a token.  When the bytes held fill a buffer of
    [MaxScanTokenSize] without a line feed among them, [Scan] gives up.  At
    the end of the bytes (end of file, or a failed read) the bytes held, if
    any, are the last token. *)
Fixpoint bufio_Scan (data line_rev : list ascii) (held : Z) : list string * bool :=
  match data with
  | [] => (if decide (held = 0%Z) then [] else [token_Text line_rev], false)
  | c :: rest =>
      if decide (c = line_feed) then
        let '(lines, tooLong) := bufio_Scan rest [] 0%Z in
        (token_Text line_rev :: lines, tooLong)
      else if decide (MaxScanTokenSize <= held + 1)%Z then ([], true)
      else bufio_Scan rest (c :: line_rev) (held + 1)%Z
  end.

(** [bufio.NewScanner(file)], scanned to its end: [scanner.Err()] is
    [ErrTooLong], the error of the failed read, or nil at the end of the
    file. *)
Definition bufio_Scanner (f : OpenedFile) : ScannedFile :=
  let '(lines, tooLong) := bufio_Scan (file_bytes f) [] 0%Z in
  {| scanned_lines := lines;
     scanner_Err := if tooLong then Some ErrTooLong else file_read_err f |}.

(** [os.Open] on a disk, and the scanner over the file it returns. *)
Definition open_files (disk : string -> OpenedFile + error) (path : string)
  : os_Open_result :=
  match disk path with
  | inl f => inl (bufio_Scanner f)
  | inr err => inr err
  end.

(** ** Vocabulary of the statements *)

(** The database answers every statement. *)
Definition healthy (env : Env) : Prop := forall k, env_db_fault env k = None.

(** The rows of one metric type, in primary-key order. *)
Definition alerts_of (t : MetricType) (l : list Alert) : list Alert :=
  List.filter (fun a => bool_decide (Alert_Type a = t)) l.

(** The rows of one metric type with [status = active]. *)
Definition active_of (t : MetricType) (l : list Alert) : list Alert :=
  List.filter (where_type_active t) l.

Definition active_count (t : MetricType) (w : World) : nat :=
  length (active_of t (db_alerts w)).

(** What [CheckThresholds] stores for a reading [v] above threshold [th]. *)
Definition created_from (m : SystemMetrics) (th : MetricThreshold) (v : float)
    (row : Alert) : Prop :=
  Alert_Type row = MetricThreshold_Type th /\
  Alert_Value row = v /\
  Alert_Threshold row = MetricThreshold_Threshold th /\
  Alert_Severity row = calculateSeverity v (MetricThreshold_Threshold th) /\
  Alert_Status row = AlertActive /\
  Alert_TriggeredAt row = SystemMetrics_Timestamp m /\
  Alert_ResolvedAt row = None.

(** The rows of one metric type in the metrics table. *)
Definition metrics_of (t : MetricType) (l : list Metric) : list Metric :=
  List.filter (fun m => bool_decide (Metric_Type m = t)) l.

(** *** The analyzer's contract, in the words of its description *)

(** [lv] is one of the four level words, in any mix of cases. *)
Definition is_level_word (lv : string) : Prop :=
  ToUpper lv = INFO \/ ToUpper lv = WARN \/ ToUpper lv = ERROR \/ ToUpper lv = DEBUG.

(** [[LEVEL]] somewhere in the line; [pre] is the text before the tag. *)
Definition bracketed_tag_at (line pre lv : string) : Prop :=
  is_level_word lv /\ exists post, line = pre +:+ "[" +:+ lv +:+ "]" +:+ post.

Definition has_bracketed_tag (line : string) : Prop :=
  exists pre lv, bracketed_tag_at line pre lv.

(** [LEVEL:] at the head of the line. *)
Definition level_prefix (line lv : string) : Prop :=
  is_level_word lv /\ exists post, line = lv +:+ ":" +:+ post.

Definition has_level_prefix (line : string) : Prop :=
  exists lv, level_prefix line lv.

(** [after] is what follows the first [sep] of [line]. *)
Definition after_first (sep : ascii) (line after : string) : Prop :=
  exists before,
    line = before +:+ String sep after /\
    ~ List.In sep (list_ascii_of_string before).

(** The extracted text, or the whole line when the extraction is empty. *)
Definition message_or_line (extracted line : string) : string :=
  if decide (extracted = "") then line else extracted.

(** The entries of a file: its lines trimmed, the blank ones skipped, those
    without a level tag discarded. *)
Definition parsed_entries (lines : list string) : list LogEntry :=
  omap (fun text => let line := TrimSpace text in
                    if decide (line = "") then None else ParseLine line) lines.

(** The messages of the [ERROR] entries, one per entry. *)
Definition error_messages (lines : list string) : list string :=
  List.map LogEntry_Message
    (List.filter (fun e => bool_decide (LogEntry_Level e = ERROR)) (parsed_entries lines)).

(** How often [msg] occurs in [msgs]. *)
Definition frequency (msg : string) (msgs : list string) : nat :=
  length (List.filter (fun x => bool_decide (x = msg)) msgs).

(** The message a line adds to the frequency counter, if any. *)
Definition error_message_of (text : string) : list string :=
  let line := TrimSpace text in
  if decide (line = "") then [] else
  match ParseLine line with
  | Some entry =>
      if decide (LogEntry_Level entry = ERROR) then [LogEntry_Message entry] else []
  | None => []
  end.

(** [errorMessages[msg]++] for every [msg] of [msgs], in order. *)
Definition count_all (m0 : gmap string Z) (msgs : list string) : gmap string Z :=
  foldl (fun m k => map_incr k m) m0 msgs.

(** How many different messages [msgs] holds. *)
Definition distinct (msgs : list string) : nat :=
  size (list_to_set msgs : gset string).

(** A line of [MaxScanTokenSize] bytes or more: that many bytes in a row,
    none of them a line feed. *)
Definition has_long_line (bytes : list ascii) : Prop :=
  exists i : nat,
    forall j : nat, (Z.of_nat j < MaxScanTokenSize)%Z ->
      exists c, bytes !! (i + j)%nat = Some c /\ c <> line_feed.

(** The contract of the runtime: [range] visits every entry of the map once,
    and [sort.Slice] returns a permutation of its argument in which the
    counts descend. *)
Definition runtime_ok (rt : GoRuntime) : Prop :=
  (forall l, range_map rt l ≡ₚ l) /\
  (forall l, sort_Slice rt l ≡ₚ l /\ StronglySorted by_count_desc (sort_Slice rt l)).

(** ** Concrete inputs *)

(** A database that answers, a sample source that answers, a clock that
    advances with every interaction. *)
Definition env_ok : Env :=
  {| env_now := fun k => Z.of_nat k;
     env_db_fault := fun _ => None;
     env_cpu_Percent := fun _ => ([42.5%float], None);
     env_mem_UsedPercent := fun _ => (61%float, None);
     env_sprintf_2f := fun _ => "?" |}.

(** The same, with [mem.VirtualMemory] failing. *)
Definition env_mem_down : Env :=
  {| env_now := fun k => Z.of_nat k;
     env_db_fault := fun _ => None;
     env_cpu_Percent := fun _ => ([42.5%float], None);
     env_mem_UsedPercent := fun _ => (0%float, Some (ErrExternal "meminfo unavailable"));
     env_sprintf_2f := fun _ => "?" |}.

Definition world_empty : World :=
  {| db_metrics := []; db_metrics_seq := 1%Z; db_metric_thresholds := [];
     db_alerts := []; db_alerts_seq := 1%Z; log_output := []; ticks := 0%nat |}.

Definition threshold_row (id : Z) (t : MetricType) (thr : float) (enabled : bool)
  : MetricThreshold :=
  {| MetricThreshold_ID := id; MetricThreshold_Type := t;
     MetricThreshold_Threshold := thr; MetricThreshold_Enabled := enabled;
     MetricThreshold_CreatedAt := 0%Z; MetricThreshold_UpdatedAt := 0%Z |}.

(** The thresholds of [InitializeThresholds], and no alert yet. *)
Definition world_default : World :=
  {| db_metrics := []; db_metrics_seq := 1%Z;
     db_metric_thresholds :=
       [threshold_row 1%Z CPUUsage 80 true; threshold_row 2%Z MemoryUsage 75 true];
     db_alerts := []; db_alerts_seq := 1%Z; log_output := []; ticks := 0%nat |}.

Definition reading (cpu mem : float) (at_ : Time) : SystemMetrics :=
  {| SystemMetrics_CPUUsage := cpu; SystemMetrics_MemoryUsage := mem;
     SystemMetrics_Timestamp := at_ |}.
Arguments reading cpu%_float mem%_float at_%_Z.

(** An active CPU alert, as a manual [CreateAlert] leaves it. *)
Definition cpu_alert_row : Alert :=
  {| Alert_ID := 1%Z; Alert_Type := CPUUsage; Alert_Message := "High CPU usage detected";
     Alert_Value := 90; Alert_Threshold := 80; Alert_Severity := SeverityMedium;
     Alert_Status := AlertActive; Alert_TriggeredAt := 5%Z; Alert_ResolvedAt := None;
     Alert_CreatedAt := 5%Z; Alert_UpdatedAt := 5%Z |}.

(** The default thresholds while a CPU alert is active. *)
Definition world_cpu_active : World :=
  {| db_metrics := []; db_metrics_seq := 1%Z;
     db_metric_thresholds :=
       [threshold_row 1%Z CPUUsage 80 true; threshold_row 2%Z MemoryUsage 75 true];
     db_alerts := [cpu_alert_row]; db_alerts_seq := 2%Z; log_output := [];
     ticks := 0%nat |}.

(** The CPU threshold disabled while a CPU alert is active. *)
Definition world_cpu_disabled : World :=
  {| db_metrics := []; db_metrics_seq := 1%Z;
     db_metric_thresholds :=
       [threshold_row 1%Z CPUUsage 80 false; threshold_row 2%Z MemoryUsage 75 true];
     db_alerts := [cpu_alert_row]; db_alerts_seq := 2%Z; log_output := []; ticks := 0%nat |}.

(** The file of the description's example. *)
Definition example_lines : list string :=
  ["[INFO] a"; "[ERROR] b"; "[ERROR] b"; "garbage line"; "WARN: c"].

(** A file system with that file under [app.log] and nothing else. *)
Definition example_fs (path : string) : os_Open_result :=
  if decide (path = "app.log")
  then inl {| scanned_lines := example_lines; scanner_Err := None |}
  else inr (ErrExternal "no such file or directory").

(** The bytes of that file, with a line ending in carriage return and line
    feed, a blank line, and no line feed after the last line. *)
Definition example_bytes : list ascii :=
  list_ascii_of_string "[INFO] a" ++ [carriage_return; line_feed]
  ++ list_ascii_of_string "[ERROR] b" ++ [line_feed]
  ++ list_ascii_of_string "[ERROR] b" ++ [line_feed]
  ++ [line_feed]
  ++ list_ascii_of_string "garbage line" ++ [line_feed]
  ++ list_ascii_of_string "WARN: c".

(** A file that opens and is read to its end without a failure: an error
    line, then a line of 65536 letters. *)
Definition long_line_file : OpenedFile :=
  {| file_bytes :=
       list_ascii_of_string "[ERROR] b" ++ [line_feed]
       ++ replicate (Z.to_nat MaxScanTokenSize) "a"%char ++ [line_feed];
     file_read_err := None |}.

Definition long_line_disk (path : string) : OpenedFile + error :=
  if decide (path = "long.log") then inl long_line_file
  else inr (ErrExternal "no such file or directory").

(** ** The rest of the services *)

(** *** Package alerts: [GetAlerts] *)

(** [type AlertStatus string]: the text of the two constants. *)
Definition AlertStatus_string (s : AlertStatus) : string :=
  match s with
  | AlertActive => "active"
  | AlertResolved => "resolved"
  end.

(** [ORDER BY triggered_at DESC] and [ORDER BY timestamp DESC]. *)
Definition newest_alert_first (x y : Alert) : Prop :=
  (Alert_TriggeredAt y <= Alert_TriggeredAt x)%Z.

Definition newest_metric_first (x y : Metric) : Prop :=
  (Metric_Timestamp y <= Metric_Timestamp x)%Z.

(** What [ORDER BY] leaves open: the database returns the rows in some
    order in which the key descends, rows of equal key in any order. *)
Record DBOrder : Type := {
  order_alerts : list Alert -> list Alert;
  order_metrics : list Metric -> list Metric
}.

Definition db_order_ok (o : DBOrder) : Prop :=
  (forall l, order_alerts o l ≡ₚ l /\ StronglySorted newest_alert_first (order_alerts o l)) /\
  (forall l, order_metrics o l ≡ₚ l /\ StronglySorted newest_metric_first (order_metrics o l)).

#[global] Instance newest_alert_first_dec x y : Decision (newest_alert_first x y).
Proof. unfold newest_alert_first. apply _. Defined.

#[global] Instance newest_metric_first_dec x y : Decision (newest_metric_first x y).
Proof. unfold newest_metric_first. apply _. Defined.

(** A database that orders with a merge sort. *)
Definition order_merge_sort : DBOrder :=
  {| order_alerts := merge_sort newest_alert_first;
     order_metrics := merge_sort newest_metric_first |}.

(** The query [GetAlerts] builds: [Order("triggered_at DESC")], then
    [Where("status = ?", status)] and [Limit(limit)] when they apply. *)
Record AlertQuery : Type := {
  query_status : option string;
  query_limit : option Z
}.

(** [query.Find(&alerts)]: WHERE, then ORDER BY, then LIMIT. *)
Definition db_Find_alerts (o : DBOrder) (q : AlertQuery) : M (list Alert * option error) :=
  fun env w =>
  let w' := set_ticks (S (ticks w)) w in
  match env_db_fault env (ticks w) with
  | Some msg => (([], Some (ErrExternal msg)), w')
  | None =>
      let rows :=
        match query_status q with
        | Some status =>
            List.filter
              (fun a => bool_decide (AlertStatus_string (Alert_Status a) = status))
              (db_alerts w)
        | None => db_alerts w
        end in
      let rows := order_alerts o rows in
      let rows :=
        match query_limit q with
        | Some n => take (Z.to_nat n) rows
        | None => rows
        end in
      ((rows, None), w')
  end.

(** [GetAlerts] *)
Definition GetAlerts (o : DBOrder) (status : string) (limit : Z)
  : M (list Alert * option error) :=
  let query := {| query_status := None; query_limit := None |} in
  let query :=
    if decide (status <> "")
    then {| query_status := Some status; query_limit := query_limit query |}
    else query in
  let query :=
    if (0 <? limit)%Z
    then {| query_status := query_status query; query_limit := Some limit |}
    else query in
  found ← db_Find_alerts o query;
  match snd found with
  | Some e => mret ([], Some (ErrorfW "failed to get alerts" e))
  | None => mret (fst found, None)
  end.

(** *** Package alerts: the service as its callers use it *)

(** One call of the service: the evaluation of [main]'s monitor, or one of
    the two requests of the alert routes. *)
Inductive ServiceCall : Type :=
| CallCheckThresholds (currentMetrics : SystemMetrics)
| CallCreateAlert (req : CreateAlertRequest)
| CallResolveAlert (alertID : Z).

Definition run_call (env : Env) (c : ServiceCall) (w : World) : World :=
  match c with
  | CallCheckThresholds m => snd (CheckThresholds m env w)
  | CallCreateAlert req => snd (CreateAlert req env w)
  | CallResolveAlert id => snd (ResolveAlert id env w)
  end.

Fixpoint run_calls (env : Env) (calls : list ServiceCall) (w : World) : World :=
  match calls with
  | [] => w
  | c :: rest => run_calls env rest (run_call env c w)
  end.

(** What a row may become: itself, or, from active, the same alert resolved. *)
Definition alert_step (a a' : Alert) : Prop :=
  a' = a \/
  (Alert_Status a = AlertActive /\
   Alert_Status a' = AlertResolved /\
   is_Some (Alert_ResolvedAt a') /\
   Alert_ID a' = Alert_ID a /\
   Alert_Type a' = Alert_Type a /\
   Alert_Message a' = Alert_Message a /\
   Alert_Value a' = Alert_Value a /\
   Alert_Threshold a' = Alert_Threshold a /\
   Alert_Severity a' = Alert_Severity a /\
   Alert_TriggeredAt a' = Alert_TriggeredAt a /\
   Alert_CreatedAt a' = Alert_CreatedAt a).

(** What a table may become: its rows, each after a step, then new rows. *)
Definition evolves (l l' : list Alert) : Prop :=
  exists olds news, l' = olds ++ news /\ Forall2 alert_step l olds.

(** *** Package metrics: the rest of the [Collector] *)

(** [GetCurrentMetrics]: samples both sources, stores nothing. *)
Definition GetCurrentMetrics : M (option SystemMetrics * option error) :=
  cpu ← cpu_Percent;
  match snd cpu with
  | Some err => mret (None, Some (ErrorfW "failed to get CPU usage" err))
  | None =>
      memInfo ← mem_VirtualMemory;
      match snd memInfo with
      | Some err => mret (None, Some (ErrorfW "failed to get memory usage" err))
      | None =>
          let cpuUsage :=
            match fst cpu with
            | c :: _ => c
            | [] => 0%float
            end in
          now ← time_Now;
          mret (Some {| SystemMetrics_CPUUsage := cpuUsage;
                        SystemMetrics_MemoryUsage := fst memInfo;
                        SystemMetrics_Timestamp := now |}, None)
      end
  end.

(** [db.Where("metric_type = ?", t).Order("timestamp DESC")], with
    [Limit(limit)] when [limit > 0], then [Find(&metrics)]. *)
Definition db_Find_metrics (o : DBOrder) (t : MetricType) (limit : option Z)
  : M (list Metric * option error) :=
  fun env w =>
  let w' := set_ticks (S (ticks w)) w in
  match env_db_fault env (ticks w) with
  | Some msg => (([], Some (ErrExternal msg)), w')
  | None =>
      let rows := order_metrics o (metrics_of t (db_metrics w)) in
      let rows :=
        match limit with
        | Some n => take (Z.to_nat n) rows
        | None => rows
        end in
      ((rows, None), w')
  end.

(** [GetMetricHistory] *)
Definition GetMetricHistory (o : DBOrder) (metricType : MetricType) (limit : Z)
  : M (list Metric * option error) :=
  found ← db_Find_metrics o metricType (if (0 <? limit)%Z then Some limit else None);
  match snd found with
  | Some e => mret ([], Some (ErrorfW "failed to get metric history" e))
  | None => mret (fst found, None)
  end.

(** The lines [InitializeThresholds] and the monitor of [main] print.  They
    go to the same logger as the lines of [log_output]; the functions below
    return them, in the order they are printed. *)
Inductive StartupLog : Type :=
| LogCreatedDefaultThreshold (t : MetricType) (threshold : float)
| LogCurrentMetricsFailed (e : error)
| LogCheckThresholdsFailed (e : error).

Definition set_thresholds (l : list MetricThreshold) (w : World) : World :=
  {| db_metrics := db_metrics w; db_metrics_seq := db_metrics_seq w;
     db_metric_thresholds := l;
     db_alerts := db_alerts w; db_alerts_seq := db_alerts_seq w;
     log_output := log_output w; ticks := ticks w |}.

(** [SELECT COUNT( * ) FROM metric_thresholds WHERE metric_type = ?] *)
Definition db_Count_thresholds (t : MetricType) : M (Z * option error) :=
  fun env w =>
  let w' := set_ticks (S (ticks w)) w in
  match env_db_fault env (ticks w) with
  | Some msg => ((0%Z, Some (ErrExternal msg)), w')
  | None =>
      ((Z.of_nat (length (List.filter
                            (fun th => bool_decide (MetricThreshold_Type th = t))
                            (db_metric_thresholds w))), None), w')
  end.

(** [INSERT INTO metric_thresholds (metric_type, threshold, enabled,
    created_at, updated_at) VALUES (?, ?, ?, NOW(), NOW())].  [serial] is the
    key the sequence of the table hands out. *)
Definition db_Insert_threshold (serial : list MetricThreshold -> Z)
    (t : MetricType) (threshold : float) (enabled : bool) : M (option error) :=
  fun env w =>
  let w' := set_ticks (S (ticks w)) w in
  match env_db_fault env (ticks w) with
  | Some msg => (Some (ErrExternal msg), w')
  | None =>
      (None,
       set_thresholds
         (db_metric_thresholds w
          ++ [ {| MetricThreshold_ID := serial (db_metric_thresholds w);
                  MetricThreshold_Type := t;
                  MetricThreshold_Threshold := threshold;
                  MetricThreshold_Enabled := enabled;
                  MetricThreshold_CreatedAt := env_now env (ticks w);
                  MetricThreshold_UpdatedAt := env_now env (ticks w) |} ])
         w')
  end.

(** The metric types that have a threshold row. *)
Definition types_of (l : list MetricThreshold) : list MetricType :=
  List.map MetricThreshold_Type l.

(** The two rows of [InitializeThresholds]: type and default threshold. *)
Definition default_thresholds : list (MetricType * float) :=
  [(CPUUsage, 80%float); (MemoryUsage, 75%float)].

(** The loop of [InitializeThresholds]; an error returns at once. *)
Fixpoint InitializeThresholds_loop (serial : list MetricThreshold -> Z)
    (thresholds : list (MetricType * float)) : M (list StartupLog * option error) :=
  match thresholds with
  | [] => mret ([], None)
  | (t, thr) :: rest =>
      counted ← db_Count_thresholds t;
      match snd counted with
      | Some err => mret ([], Some (ErrorfW "failed to check existing threshold" err))
      | None =>
          if (fst counted =? 0)%Z then
            inserted ← db_Insert_threshold serial t thr true;
            match inserted with
            | Some err =>
                mret ([], Some (ErrorfW ("failed to create threshold for " +:+ t) err))
            | None =>
                r ← InitializeThresholds_loop serial rest;
                mret (LogCreatedDefaultThreshold t thr :: fst r, snd r)
            end
          else InitializeThresholds_loop serial rest
      end
  end.

(** [InitializeThresholds] *)
Definition InitializeThresholds (serial : list MetricThreshold -> Z)
  : M (list StartupLog * option error) :=
  InitializeThresholds_loop serial default_thresholds.

(** *** Package main: the alert monitor

    The goroutine that evaluates the thresholds on every tick of its ticker
    until the context is cancelled. *)
Inductive MonitorEvent : Type := MonitorCtxDone | MonitorTick.

Fixpoint monitor_loop (events : list MonitorEvent) : M (list StartupLog) :=
  match events with
  | [] => mret []
  | MonitorCtxDone :: _ => mret []
  | MonitorTick :: rest =>
      current ← GetCurrentMetrics;
      match current with
      | (Some currentMetrics, None) =>
          err ← CheckThresholds currentMetrics;
          match err with
          | Some e =>
              logs ← monitor_loop rest;
              mret (LogCheckThresholdsFailed e :: logs)
          | None => monitor_loop rest
          end
      | (_, Some e) =>
          logs ← monitor_loop rest;
          mret (LogCurrentMetricsFailed e :: logs)
      | (None, None) => monitor_loop rest
      end
  end.

(** A computation that neither reads nor writes the metrics table: run on a
    world with another metrics table, it does the same and leaves that table. *)
Definition ignores_metrics {A : Type} (f : M A) : Prop :=
  forall l seq env w,
    f env (set_metrics l seq w)
    = (fst (f env w), set_metrics l seq (snd (f env w))).

(** *** Package config: [Load]

    Viper is read through its getters, with the values they return once
    [setDefaults], the [.env] file and the environment are in place. *)
Inductive ReadInConfig_result : Type :=
| ConfigRead
| ConfigFileNotFoundError
| ConfigReadError (e : error).

Record Viper : Type := {
  viper_ReadInConfig : ReadInConfig_result;
  viper_GetString : string -> string;
  viper_GetDuration : string -> Z;
  viper_GetFloat64 : string -> float
}.

Record Config : Type := {
  Config_Server_Port : string;
  Config_Server_Host : string;
  Config_Server_ReadTimeout : Z;
  Config_Server_WriteTimeout : Z;
  Config_Database_URL : string;
  Config_Auth_JWTSecret : string;
  Config_Auth_SessionDuration : Z;
  Config_Metrics_CollectionInterval : Z;
  Config_Metrics_CPUThreshold : float;
  Config_Metrics_MemoryThreshold : float
}.

(** [getJWTSecret] *)
Definition getJWTSecret (v : Viper) : string :=
  if decide (viper_GetString v "JWT_SECRET" <> "") then viper_GetString v "JWT_SECRET"
  else if decide (viper_GetString v "ACCESS_TOKEN_SECRET" <> "")
       then viper_GetString v "ACCESS_TOKEN_SECRET"
       else "".

(** [Load] *)
Definition Load (v : Viper) : option Config * option error :=
  match viper_ReadInConfig v with
  | ConfigReadError err => (None, Some (ErrorfW "error reading .env file" err))
  | _ =>
      let port := viper_GetString v "PORT" in
      let host := viper_GetString v "HOST" in
      let secret := getJWTSecret v in
      let cpu := viper_GetFloat64 v "CPU_THRESHOLD" in
      let mem := viper_GetFloat64 v "MEMORY_THRESHOLD" in
      (Some {|
         Config_Server_Port := if decide (port = "") then "8080" else port;
         Config_Server_Host := if decide (host = "") then "localhost" else host;
         Config_Server_ReadTimeout := viper_GetDuration v "server.read_timeout";
         Config_Server_WriteTimeout := viper_GetDuration v "server.write_timeout";
         Config_Database_URL := viper_GetString v "DATABASE_URL";
         Config_Auth_JWTSecret := if decide (secret = "") then "your-secret-key" else secret;
         Config_Auth_SessionDuration := viper_GetDuration v "auth.session_duration";
         Config_Metrics_CollectionInterval := viper_GetDuration v "metrics.collection_interval";
         Config_Metrics_CPUThreshold := if (cpu =? 0)%float then 80%float else cpu;
         Config_Metrics_MemoryThreshold := if (mem =? 0)%float then 75%float else mem
       |}, None)
  end.

(** *** More vocabulary *)

(** The levels of the entries of a file, one per entry. *)
Definition entry_levels (lines : list string) : list string :=
  List.map LogEntry_Level (parsed_entries lines).


(** The count a map holds for a key, zero for a missing key. *)
Definition count_of (m : gmap string Z) (k : string) : Z := default 0%Z (m !! k).

Definition sum_counts (l : list ErrorFrequency) : Z :=
  foldr (fun e acc => (ErrorFrequency_Count e + acc)%Z) 0%Z l.

(** More concrete inputs. *)

(** The database refuses every statement; the samples arrive. *)
Definition env_db_down : Env :=
  {| env_now := fun k => Z.of_nat k;
     env_db_fault := fun _ => Some "connection refused";
     env_cpu_Percent := fun _ => ([42.5%float], None);
     env_mem_UsedPercent := fun _ => (61%float, None);
     env_sprintf_2f := fun _ => "?" |}.

(** [cpu.Percent] answers with an empty slice and no error. *)
Definition env_cpu_empty : Env :=
  {| env_now := fun k => Z.of_nat k;
     env_db_fault := fun _ => None;
     env_cpu_Percent := fun _ => ([], None);
     env_mem_UsedPercent := fun _ => (61%float, None);
     env_sprintf_2f := fun _ => "?" |}.


(** * Proofs *)

(** ** Ordering of binary64 floats *)

Lemma SFcompare_antisym (x y : spec_float) (c : comparison) :
  SFcompare x y = Some c -> SFcompare y x = Some (CompOpp c).
Proof.
  destruct x as [sx|sx| |sx mx ex], y as [sy|sy| |sy my ey]; simpl;
    try destruct sx; try destruct sy; simpl; intros H; inversion H; subst; clear H;
    try reflexivity.
  all: rewrite (Z.compare_antisym ex ey); destruct (ex ?= ey)%Z; simpl; try reflexivity.
  all: rewrite !Pos.compare_cont_spec; simpl; rewrite (Pos.compare_antisym mx my);
    destruct (mx ?= my)%positive; reflexivity.
Qed.

Ltac split_compare :=
  repeat match goal with
    | H : context [Pos.compare_cont Eq ?a ?b] |- _ =>
        rewrite Pos.compare_cont_spec in H; simpl in H
    | |- context [Pos.compare_cont Eq ?a ?b] =>
        rewrite Pos.compare_cont_spec; simpl
    end;
  repeat match goal with
    | H : context [(?a ?= ?b)%Z] |- _ => destruct (Z.compare_spec a b)
    | |- context [(?a ?= ?b)%Z] => destruct (Z.compare_spec a b)
    | H : context [(?a ?= ?b)%positive] |- _ => destruct (Pos.compare_spec a b)
    | |- context [(?a ?= ?b)%positive] => destruct (Pos.compare_spec a b)
    end.

Lemma SFcompare_lt_le_trans (x a b : spec_float) (c : comparison) :
  SFcompare x a = Some Lt -> SFcompare a b = Some c -> c <> Gt ->
  SFcompare x b = Some Lt.
Proof.
  destruct x as [sx|sx| |sx mx ex], a as [sa|sa| |sa ma ea], b as [sb|sb| |sb mb eb];
    simpl; try destruct sx; try destruct sa; try destruct sb; simpl;
    intros H1 H2 Hc; inversion H1; inversion H2; subst; clear H1 H2;
    try reflexivity; try congruence.
  all: f_equal; split_compare; simpl in *; try reflexivity; try congruence; try lia.
Qed.

Lemma float_ltb_Lt (x y : float) :
  (x <? y)%float = true <-> SFcompare (Prim2SF x) (Prim2SF y) = Some Lt.
Proof.
  rewrite FloatAxioms.ltb_spec. unfold SFltb.
  destruct (SFcompare (Prim2SF x) (Prim2SF y)) as [[]|]; split; congruence.
Qed.

Lemma float_leb_not_Gt (x y : float) :
  (x <=? y)%float = true <->
  exists c, SFcompare (Prim2SF x) (Prim2SF y) = Some c /\ c <> Gt.
Proof.
  rewrite FloatAxioms.leb_spec. unfold SFleb.
  destruct (SFcompare (Prim2SF x) (Prim2SF y)) as [[]|]; split; intros H;
    try discriminate; try reflexivity;
    try (eexists; split; [reflexivity | discriminate]);
    destruct H as (c & H & Hc); congruence.
Qed.

(** [x < y] excludes [y <= x]. *)
Lemma float_ltb_not_leb (x y : float) :
  (x <? y)%float = true -> (y <=? x)%float = false.
Proof.
  rewrite float_ltb_Lt. intros H. apply SFcompare_antisym in H.
  rewrite FloatAxioms.leb_spec. unfold SFleb. rewrite H. reflexivity.
Qed.

(** [x <= y] excludes [y < x]: a reading at or below the threshold does not
    exceed it. *)
Lemma float_leb_not_ltb (x y : float) :
  (x <=? y)%float = true -> (y <? x)%float = false.
Proof.
  intros H. destruct (y <? x)%float eqn:E; [|reflexivity].
  apply float_ltb_not_leb in E. congruence.
Qed.

(** [x < a <= b] excludes [b <= x]. *)
Lemma float_ltb_leb_trans (x a b : float) :
  (x <? a)%float = true -> (a <=? b)%float = true -> (b <=? x)%float = false.
Proof.
  rewrite float_ltb_Lt, float_leb_not_Gt. intros H1 (c & H2 & Hc).
  apply float_ltb_not_leb. rewrite float_ltb_Lt.
  eapply SFcompare_lt_le_trans; eauto.
Qed.

(** Claim C4.  For every value and threshold, the severity follows
    [exceedPercentage = (value - threshold) / threshold * 100], computed in
    binary64 as the code computes it, with tiers closed below: at 50 or more
    critical, from 25 up to 50 high, from 10 up to 25 medium, under 10 low.
    The four pairs of the description give exactly 25, 50, 10 and 5, hence
    high, critical, medium and low.  (The tiers hold for every threshold,
    positive or not; a NaN percentage, which no tier mentions, is low.) *)
Theorem calculateSeverity_tiers (value threshold : float) :
  let e := exceedPercentage value threshold in
  ((50 <=? e)%float = true ->
     calculateSeverity value threshold = SeverityCritical) /\
  ((e <? 50)%float = true -> (25 <=? e)%float = true ->
     calculateSeverity value threshold = SeverityHigh) /\
  ((e <? 25)%float = true -> (10 <=? e)%float = true ->
     calculateSeverity value threshold = SeverityMedium) /\
  ((e <? 10)%float = true ->
     calculateSeverity value threshold = SeverityLow) /\
  (exceedPercentage 100 80 = 25%float /\ calculateSeverity 100 80 = SeverityHigh) /\
  (exceedPercentage 120 80 = 50%float /\ calculateSeverity 120 80 = SeverityCritical) /\
  (exceedPercentage 88 80 = 10%float /\ calculateSeverity 88 80 = SeverityMedium) /\
  (exceedPercentage 84 80 = 5%float /\ calculateSeverity 84 80 = SeverityLow).
Proof.
  intros e. unfold calculateSeverity. fold e.
  assert (H2510 : (10 <=? 25)%float = true) by reflexivity.
  assert (H5025 : (25 <=? 50)%float = true) by reflexivity.
  assert (H5010 : (10 <=? 50)%float = true) by reflexivity.
  repeat split; try (vm_compute; reflexivity).
  - intros ->. reflexivity.
  - intros Hlt Hge. rewrite (float_ltb_not_leb _ _ Hlt), Hge. reflexivity.
  - intros Hlt Hge.
    rewrite (float_ltb_leb_trans e 25 50 Hlt H5025), (float_ltb_not_leb _ _ Hlt), Hge.
    reflexivity.
  - intros Hlt.
    rewrite (float_ltb_leb_trans e 10 50 Hlt H5010), (float_ltb_leb_trans e 10 25 Hlt H2510),
      (float_ltb_not_leb _ _ Hlt).
    reflexivity.
Qed.

(** ** The alert service *)

Ltac unfold_M :=
  unfold mbind, M_bind, mret, M_ret, time_Now, sprintf_2f, log_Printf in *.

(** *** Lists of alert rows *)

Lemma where_type_active_true (t : MetricType) (a : Alert) :
  where_type_active t a = true <-> Alert_Type a = t /\ Alert_Status a = AlertActive.
Proof.
  unfold where_type_active.
  rewrite andb_true_iff, !bool_decide_eq_true. reflexivity.
Qed.

Lemma resolve_where_type (c : Alert -> bool) (now upd : Time) (a : Alert) :
  Alert_Type (resolve_where c now upd a) = Alert_Type a.
Proof. unfold resolve_where. destruct (c a); reflexivity. Qed.

Lemma resolve_where_other (t t' : MetricType) (now upd : Time) (a : Alert) :
  Alert_Type a = t -> t' <> t ->
  resolve_where (where_type_active t') now upd a = a.
Proof.
  intros Ht Hne. unfold resolve_where.
  destruct (where_type_active t' a) eqn:E; [|reflexivity].
  apply where_type_active_true in E. destruct E. congruence.
Qed.

Lemma alerts_of_app (t : MetricType) (l1 l2 : list Alert) :
  alerts_of t (l1 ++ l2) = alerts_of t l1 ++ alerts_of t l2.
Proof. apply List.filter_app. Qed.

Lemma active_of_app (t : MetricType) (l1 l2 : list Alert) :
  active_of t (l1 ++ l2) = active_of t l1 ++ active_of t l2.
Proof. apply List.filter_app. Qed.

(** Resolving the active rows of [t'] maps over the rows of any [t]. *)
Lemma alerts_of_resolved (t t' : MetricType) (now upd : Time) (l : list Alert) :
  alerts_of t (List.map (resolve_where (where_type_active t') now upd) l)
  = List.map (resolve_where (where_type_active t') now upd) (alerts_of t l).
Proof.
  induction l as [|a l IH]; [reflexivity|].
  unfold alerts_of in *. simpl. rewrite resolve_where_type.
  destruct (bool_decide (Alert_Type a = t)); simpl; rewrite IH; reflexivity.
Qed.

Lemma alerts_of_resolved_other (t t' : MetricType) (now upd : Time) (l : list Alert) :
  t' <> t ->
  alerts_of t (List.map (resolve_where (where_type_active t') now upd) l)
  = alerts_of t l.
Proof.
  intros Hne. rewrite alerts_of_resolved.
  induction l as [|a l IH]; [reflexivity|].
  unfold alerts_of in *. simpl.
  destruct (bool_decide (Alert_Type a = t)) eqn:E; [|exact IH].
  simpl. rewrite IH. apply bool_decide_eq_true in E.
  rewrite (resolve_where_other t t'); auto.
Qed.

(** The active rows of [t] are the active rows among the rows of [t]. *)
Lemma active_of_alerts_of (t : MetricType) (l : list Alert) :
  active_of t (alerts_of t l) = active_of t l.
Proof.
  induction l as [|a l IH]; [reflexivity|].
  unfold active_of, alerts_of, where_type_active in *. simpl.
  destruct (bool_decide (Alert_Type a = t)) eqn:E; simpl; rewrite ?E; simpl;
    rewrite IH; reflexivity.
Qed.

Lemma find_none_active_of (t : MetricType) (l : list Alert) :
  List.find (where_type_active t) l = None <-> active_of t l = [].
Proof.
  unfold active_of. induction l as [|a l IH]; simpl; [tauto|].
  destruct (where_type_active t a); [split; discriminate | exact IH].
Qed.

(** After the update no row of [t] is active. *)
Lemma active_of_resolved (t : MetricType) (now upd : Time) (l : list Alert) :
  active_of t (List.map (resolve_where (where_type_active t) now upd) l) = [].
Proof.
  induction l as [|a l IH]; [reflexivity|].
  unfold active_of in *. simpl. rewrite IH.
  unfold resolve_where. destruct (where_type_active t a) eqn:E; [|rewrite E; reflexivity].
  unfold where_type_active. simpl. rewrite andb_false_r. reflexivity.
Qed.

(** The update never adds an active row, whatever its condition. *)
Lemma active_of_resolve_where_le (t : MetricType) (c : Alert -> bool)
    (now upd : Time) (l : list Alert) :
  (length (active_of t (List.map (resolve_where c now upd) l))
   <= length (active_of t l))%nat.
Proof.
  induction l as [|a l IH]; [reflexivity|].
  unfold active_of in *. simpl. unfold resolve_where at 1.
  destruct (c a).
  - replace (where_type_active t (resolve_row now upd a)) with false
      by (unfold where_type_active; simpl; rewrite andb_false_r; reflexivity).
    destruct (where_type_active t a); simpl; lia.
  - destruct (where_type_active t a); simpl; lia.
Qed.

(** Without a matching row the update is the identity. *)
Lemma resolve_where_none (c : Alert -> bool) (now upd : Time) (l : list Alert) :
  List.filter c l = [] -> List.map (resolve_where c now upd) l = l.
Proof.
  induction l as [|a l IH]; [reflexivity|]. simpl. unfold resolve_where at 1.
  destruct (c a); [discriminate|]. intros H. rewrite IH; auto.
Qed.

(** *** One iteration of the evaluation loop *)

(** The three things an iteration can do to the alerts table, under any
    behaviour of the database. *)
Lemma check_threshold_alerts (env : Env) (m : SystemMetrics) (th : MetricThreshold)
    (w : World) :
  let w' := snd (check_threshold m th env w) in
  let t := MetricThreshold_Type th in
  db_alerts w' = db_alerts w
  \/ (exists row, db_alerts w' = db_alerts w ++ [row] /\ Alert_Type row = t
                  /\ Alert_Status row = AlertActive /\ active_of t (db_alerts w) = [])
  \/ (exists now upd,
        db_alerts w' = List.map (resolve_where (where_type_active t) now upd) (db_alerts w)).
Proof.
  simpl. unfold check_threshold.
  destruct (currentValue_of m (MetricThreshold_Type th)) as [v|]; [|left; reflexivity].
  destruct (MetricThreshold_Threshold th <? v)%float.
  - unfold_M. unfold db_First_alert.
    destruct (env_db_fault env (ticks w)); [left; reflexivity|].
    destruct (List.find _ (db_alerts w)) eqn:Hfind; [left; reflexivity|].
    simpl. unfold generateAlertMessage. unfold_M. 
    repeat case_decide; simpl; unfold db_Create_alert; simpl;
      (destruct (env_db_fault env (S (ticks w))); simpl; [left; reflexivity|]);
      right; left; eexists; (split; [reflexivity|]); simpl;
      (split; [reflexivity|]); (split; [reflexivity|]);
      apply find_none_active_of; exact Hfind.
  - unfold resolveActiveAlerts. unfold_M. unfold db_Updates_resolved. simpl.
    destruct (env_db_fault env (S (ticks w))); simpl; [left; reflexivity|].
    right; right. case_match; simpl; eauto.
Qed.

(** An iteration for another type leaves the rows of [t] alone. *)
Lemma check_threshold_frame (env : Env) (m : SystemMetrics) (th : MetricThreshold)
    (w : World) (t : MetricType) :
  MetricThreshold_Type th <> t ->
  alerts_of t (db_alerts (snd (check_threshold m th env w))) = alerts_of t (db_alerts w).
Proof.
  intros Hne.
  destruct (check_threshold_alerts env m th w) as [H | [(row & H & Ht & _) | (now & upd & H)]];
    rewrite H.
  - reflexivity.
  - rewrite alerts_of_app. unfold alerts_of at 2. simpl.
    rewrite bool_decide_eq_false_2 by congruence. apply app_nil_r.
  - apply alerts_of_resolved_other. exact Hne.
Qed.

(** An iteration keeps "at most one active row" for every type. *)
Lemma check_threshold_at_most_one (env : Env) (m : SystemMetrics) (th : MetricThreshold)
    (w : World) (t : MetricType) :
  (active_count t w <= 1)%nat ->
  (active_count t (snd (check_threshold m th env w)) <= 1)%nat.
Proof.
  unfold active_count. intros Hle.
  destruct (check_threshold_alerts env m th w)
    as [H | [(row & H & Ht & Hs & Hnone) | (now & upd & H)]]; rewrite H.
  - exact Hle.
  - rewrite active_of_app, length_app.
    destruct (decide (MetricThreshold_Type th = t)) as [<- | Hne].
    + rewrite Hnone. unfold active_of. simpl. destruct (where_type_active _ row); simpl; lia.
    + unfold active_of at 2. simpl.
      replace (where_type_active t row) with false; [simpl; lia|].
      symmetry. unfold where_type_active. rewrite bool_decide_eq_false_2 by congruence.
      reflexivity.
  - etransitivity; [apply active_of_resolve_where_le | exact Hle].
Qed.

(** *** The loop *)

Lemma for_range_app {A : Type} (xs ys : list A) (body : A -> M unit) (env : Env)
    (w : World) :
  snd (for_range (xs ++ ys) body env w)
  = snd (for_range ys body env (snd (for_range xs body env w))).
Proof.
  revert w. induction xs as [|x xs IH]; intros w; [reflexivity|].
  simpl. unfold mbind, M_bind. destruct (body x env w) as [[] w1]. apply IH.
Qed.

Lemma for_range_cons {A : Type} (x : A) (xs : list A) (body : A -> M unit) (env : Env)
    (w : World) :
  snd (for_range (x :: xs) body env w)
  = snd (for_range xs body env (snd (body x env w))).
Proof. simpl. unfold mbind, M_bind. destruct (body x env w) as [[] w1]. reflexivity. Qed.

Lemma for_range_preserves {A : Type} (P : World -> Prop) (body : A -> M unit)
    (env : Env) (xs : list A) :
  (forall x w, P w -> P (snd (body x env w))) ->
  forall w, P w -> P (snd (for_range xs body env w)).
Proof.
  intros Hbody. induction xs as [|x xs IH]; intros w Hw; [exact Hw|].
  rewrite for_range_cons. apply IH, Hbody, Hw.
Qed.

Lemma for_range_frame (env : Env) (m : SystemMetrics) (t : MetricType)
    (ths : list MetricThreshold) :
  List.Forall (fun th => MetricThreshold_Type th <> t) ths ->
  forall w, alerts_of t (db_alerts (snd (for_range ths (check_threshold m) env w)))
            = alerts_of t (db_alerts w).
Proof.
  induction 1 as [|th ths Hth _ IH]; intros w; [reflexivity|].
  rewrite for_range_cons, IH. apply check_threshold_frame, Hth.
Qed.

(** [CheckThresholds] is the loop over the enabled rows, after one statement. *)
Lemma CheckThresholds_loop (env : Env) (m : SystemMetrics) (w : World) :
  env_db_fault env (ticks w) = None ->
  snd (CheckThresholds m env w)
  = snd (for_range (List.filter MetricThreshold_Enabled (db_metric_thresholds w))
           (check_threshold m) env (set_ticks (S (ticks w)) w)).
Proof.
  intros H. unfold CheckThresholds, db_Find_enabled_thresholds, mbind, M_bind.
  rewrite H. simpl.
  destruct (for_range _ _ env _) as [[] w1]. reflexivity.
Qed.

Lemma CheckThresholds_fault (env : Env) (m : SystemMetrics) (w : World) (msg : string) :
  env_db_fault env (ticks w) = Some msg ->
  CheckThresholds m env w
  = (Some (ErrorfW "failed to get thresholds" (ErrExternal msg)),
     set_ticks (S (ticks w)) w).
Proof.
  intros H. unfold CheckThresholds, db_Find_enabled_thresholds, mbind, M_bind.
  rewrite H. reflexivity.
Qed.

Lemma CheckThresholds_at_most_one (env : Env) (m : SystemMetrics) (w : World)
    (t : MetricType) :
  (active_count t w <= 1)%nat ->
  (active_count t (snd (CheckThresholds m env w)) <= 1)%nat.
Proof.
  intros Hle. destruct (env_db_fault env (ticks w)) as [msg|] eqn:E.
  - rewrite (CheckThresholds_fault _ _ _ _ E). exact Hle.
  - rewrite (CheckThresholds_loop _ _ _ E).
    apply (for_range_preserves (fun w => active_count t w <= 1)%nat); [|exact Hle].
    intros th w1. apply check_threshold_at_most_one.
Qed.

(** Claim C1.  Whatever the database, the clock and the thresholds do,
    a sequence of automatic evaluations ([CheckThresholds], one per reading)
    that starts with at most one active alert of a metric type (in particular
    with none) ends with at most one: the number of rows with
    [status = active] of a type is 0 or 1, never 2 or more. *)
Theorem at_most_one_active_alert (env : Env) (readings : list SystemMetrics)
    (w : World) (t : MetricType) :
  (active_count t w <= 1)%nat ->
  (active_count t (run_evaluations env readings w) <= 1)%nat.
Proof.
  revert w. induction readings as [|m rest IH]; intros w Hle; [exact Hle|].
  simpl. apply IH, CheckThresholds_at_most_one, Hle.
Qed.

(** The enabled rows around the row of one type, under the unique index on
    [metric_type]. *)
Lemma enabled_split (table : list MetricThreshold) (th : MetricThreshold) :
  List.NoDup (List.map MetricThreshold_Type table) ->
  List.In th table -> MetricThreshold_Enabled th = true ->
  exists pre post,
    List.filter MetricThreshold_Enabled table = pre ++ th :: post /\
    List.Forall (fun x => MetricThreshold_Type x <> MetricThreshold_Type th) pre /\
    List.Forall (fun x => MetricThreshold_Type x <> MetricThreshold_Type th) post.
Proof.
  intros Hnd Hin Hen. induction table as [|x l IH]; [destruct Hin|].
  simpl in Hnd. inversion Hnd as [|? ? Hx Hl]; subst.
  destruct Hin as [-> | Hin].
  - exists [], (List.filter MetricThreshold_Enabled l). simpl. rewrite Hen.
    split; [reflexivity|]. split; [constructor|].
    apply List.Forall_forall. intros y Hy Heq. apply List.filter_In in Hy as [Hy _].
    apply Hx. rewrite <- Heq. apply List.in_map, Hy.
  - destruct (IH Hl Hin) as (pre & post & Heq & Hpre & Hpost).
    simpl. destruct (MetricThreshold_Enabled x).
    + exists (x :: pre), post. rewrite Heq. split; [reflexivity|].
      split; [|exact Hpost]. constructor; [|exact Hpre].
      intros Heq'. apply Hx. rewrite Heq'. apply List.in_map, Hin.
    + exists pre, post. auto.
Qed.

(** *** The iteration, branch by branch *)

(** Breach without an active row: one row is appended. *)
Lemma check_threshold_create (env : Env) (m : SystemMetrics) (th : MetricThreshold)
    (w : World) (v : float) :
  healthy env ->
  currentValue_of m (MetricThreshold_Type th) = Some v ->
  (MetricThreshold_Threshold th <? v)%float = true ->
  active_of (MetricThreshold_Type th) (db_alerts w) = [] ->
  exists row,
    db_alerts (snd (check_threshold m th env w)) = db_alerts w ++ [row] /\
    Alert_ID row = db_alerts_seq w /\ created_from m th v row.
Proof.
  intros Hh Hv Hlt Hnone. unfold check_threshold. rewrite Hv, Hlt.
  apply find_none_active_of in Hnone.
  unfold_M. unfold db_First_alert. rewrite Hh, Hnone. simpl.
  unfold generateAlertMessage. unfold_M.
  repeat case_decide; simpl; unfold db_Create_alert; simpl; rewrite Hh; simpl;
    eexists; (split; [reflexivity|]); (split; [reflexivity|]);
    unfold created_from; simpl; repeat split; reflexivity.
Qed.

(** Breach with an active row: the table stays as it is, whatever the
    database does. *)
Lemma check_threshold_suppressed (env : Env) (m : SystemMetrics) (th : MetricThreshold)
    (w : World) (v : float) :
  currentValue_of m (MetricThreshold_Type th) = Some v ->
  (MetricThreshold_Threshold th <? v)%float = true ->
  active_of (MetricThreshold_Type th) (db_alerts w) <> [] ->
  db_alerts (snd (check_threshold m th env w)) = db_alerts w.
Proof.
  intros Hv Hlt Hsome. unfold check_threshold. rewrite Hv, Hlt.
  unfold_M. unfold db_First_alert.
  destruct (env_db_fault env (ticks w)); [reflexivity|].
  destruct (List.find _ (db_alerts w)) eqn:Hfind; [reflexivity|].
  apply find_none_active_of in Hfind. contradiction.
Qed.

(** No breach: the active rows of the type are resolved. *)
Lemma check_threshold_resolve (env : Env) (m : SystemMetrics) (th : MetricThreshold)
    (w : World) (v : float) :
  healthy env ->
  currentValue_of m (MetricThreshold_Type th) = Some v ->
  (MetricThreshold_Threshold th <? v)%float = false ->
  db_alerts (snd (check_threshold m th env w))
  = List.map (resolve_where (where_type_active (MetricThreshold_Type th))
                (env_now env (ticks w)) (env_now env (S (ticks w))))
             (db_alerts w).
Proof.
  intros Hh Hv Hlt. unfold check_threshold. rewrite Hv, Hlt.
  unfold resolveActiveAlerts. unfold_M. unfold db_Updates_resolved. simpl.
  rewrite Hh. simpl. case_match; reflexivity.
Qed.

(** *** One evaluation, seen from one metric type

    [w1] is the world in which the row [th] of the type is reached: the rows
    of the type are those of the start of the evaluation. *)
Lemma CheckThresholds_at_type (env : Env) (m : SystemMetrics) (w : World)
    (th : MetricThreshold) :
  healthy env ->
  List.NoDup (List.map MetricThreshold_Type (db_metric_thresholds w)) ->
  List.In th (db_metric_thresholds w) ->
  MetricThreshold_Enabled th = true ->
  exists w1,
    alerts_of (MetricThreshold_Type th) (db_alerts w1)
    = alerts_of (MetricThreshold_Type th) (db_alerts w) /\
    alerts_of (MetricThreshold_Type th) (db_alerts (snd (CheckThresholds m env w)))
    = alerts_of (MetricThreshold_Type th)
        (db_alerts (snd (check_threshold m th env w1))).
Proof.
  intros Hh Hnd Hin Hen.
  destruct (enabled_split _ _ Hnd Hin Hen) as (pre & post & Heq & Hpre & Hpost).
  rewrite (CheckThresholds_loop _ _ _ (Hh _)), Heq.
  rewrite for_range_app, for_range_cons.
  eexists. split; [|apply for_range_frame; exact Hpost].
  rewrite for_range_frame by exact Hpre. reflexivity.
Qed.

Lemma active_of_eq_from_alerts_of (t : MetricType) (l1 l2 : list Alert) :
  alerts_of t l1 = alerts_of t l2 -> active_of t l1 = active_of t l2.
Proof.
  intros H. rewrite <- (active_of_alerts_of t l1), <- (active_of_alerts_of t l2), H.
  reflexivity.
Qed.

(** Claim C2.  In one automatic evaluation, with the database answering and
    one threshold row per type, for an enabled threshold [th] whose type has
    the reading [v]: a row of the type is created if and only if [v] strictly
    exceeds the threshold and no row of the type is active; the created row
    has the reading as value, the configured threshold, the computed severity,
    [status = active], the reading's timestamp as [triggered_at] and no
    [resolved_at]; when [v] exceeds the threshold while a row of the type is
    active, the rows of the type stay exactly as they were. *)
Theorem CheckThresholds_creates_iff (env : Env) (m : SystemMetrics) (w : World)
    (th : MetricThreshold) (v : float) :
  healthy env ->
  List.NoDup (List.map MetricThreshold_Type (db_metric_thresholds w)) ->
  List.In th (db_metric_thresholds w) ->
  MetricThreshold_Enabled th = true ->
  currentValue_of m (MetricThreshold_Type th) = Some v ->
  let t := MetricThreshold_Type th in
  let before := alerts_of t (db_alerts w) in
  let after := alerts_of t (db_alerts (snd (CheckThresholds m env w))) in
  ((exists row, after = before ++ [row]) <->
     (MetricThreshold_Threshold th <? v)%float = true /\ active_of t (db_alerts w) = []) /\
  (forall row, after = before ++ [row] -> created_from m th v row) /\
  ((MetricThreshold_Threshold th <? v)%float = true ->
     active_of t (db_alerts w) <> [] -> after = before).
Proof.
  intros Hh Hnd Hin Hen Hv t before after.
  destruct (CheckThresholds_at_type env m w th Hh Hnd Hin Hen) as (w1 & Hw1 & Hafter).
  fold t in Hw1, Hafter. fold after in Hafter. fold before in Hw1.
  pose proof (active_of_eq_from_alerts_of _ _ _ Hw1) as Hact.
  destruct (MetricThreshold_Threshold th <? v)%float eqn:Hlt.
  - destruct (active_of t (db_alerts w)) as [|a0 l0] eqn:Hnone.
    + destruct (check_threshold_create env m th w1 v Hh Hv Hlt Hact)
        as (row & Hrow & _ & Hcreated).
      assert (Hexp : after = before ++ [row]).
      { rewrite Hafter, Hrow, alerts_of_app, Hw1. f_equal.
        unfold alerts_of. simpl. destruct Hcreated as (Ht & _). fold t in Ht.
        rewrite bool_decide_eq_true_2 by exact Ht. reflexivity. }
      split; [split; eauto|]. split; [|congruence].
      intros row' Hrow'. rewrite Hexp in Hrow'.
      apply app_inv_head in Hrow'. congruence.
    + assert (Hsame : after = before).
      { rewrite Hafter, <- Hw1. f_equal.
        apply (check_threshold_suppressed env m th w1 v Hv Hlt).
        fold t. rewrite Hact. discriminate. }
      split; [|split].
      * split; [|intros [_ ?]; discriminate].
        intros (row & Hrow). rewrite Hsame in Hrow.
        apply (f_equal length) in Hrow. rewrite length_app in Hrow. simpl in Hrow. lia.
      * intros row Hrow. rewrite Hsame in Hrow.
        apply (f_equal length) in Hrow. rewrite length_app in Hrow. simpl in Hrow. lia.
      * intros _ _. exact Hsame.
  - assert (Hlen : length after = length before).
    { rewrite Hafter, (check_threshold_resolve env m th w1 v Hh Hv Hlt).
      fold t. rewrite alerts_of_resolved, length_map, Hw1. reflexivity. }
    split; [|split].
    + split; [|intros [? _]; discriminate].
      intros (row & Hrow). rewrite Hrow, length_app in Hlen. simpl in Hlen. lia.
    + intros row Hrow. rewrite Hrow, length_app in Hlen. simpl in Hlen. lia.
    + discriminate.
Qed.

(** *** Resolution by type *)

(** The statement of [resolveActiveAlerts] when no row of the type is active:
    no row affected, no error, the tables as they were. *)
Lemma db_Updates_resolved_none (env : Env) (w : World) (c : Alert -> bool) (now : Time) :
  env_db_fault env (ticks w) = None ->
  List.filter c (db_alerts w) = [] ->
  db_Updates_resolved c now env w = ((0%Z, None), set_ticks (S (ticks w)) w).
Proof.
  intros Hh Hnone. unfold db_Updates_resolved. rewrite Hh, Hnone. simpl.
  rewrite resolve_where_none by exact Hnone.
  destruct w; reflexivity.
Qed.

Lemma resolveActiveAlerts_noop (env : Env) (w : World) (t : MetricType) :
  healthy env ->
  active_of t (db_alerts w) = [] ->
  resolveActiveAlerts t env w = (tt, set_ticks (S (S (ticks w))) w).
Proof.
  intros Hh Hnone. unfold resolveActiveAlerts. unfold_M.
  rewrite db_Updates_resolved_none; [reflexivity | apply Hh | exact Hnone].
Qed.

Lemma resolveActiveAlerts_alerts (env : Env) (w : World) (t : MetricType) :
  healthy env ->
  db_alerts (snd (resolveActiveAlerts t env w))
  = List.map (resolve_where (where_type_active t)
                (env_now env (ticks w)) (env_now env (S (ticks w))))
             (db_alerts w).
Proof.
  intros Hh. unfold resolveActiveAlerts. unfold_M. unfold db_Updates_resolved. simpl.
  rewrite Hh. simpl. case_match; reflexivity.
Qed.

(** Claim C3.  In one automatic evaluation, with the database answering and
    one threshold row per type, a reading [v] at or below an enabled threshold
    resolves every active row of the type: each gets [status = resolved] and
    [resolved_at] set to the time read by [resolveActiveAlerts], no row of the
    type stays active, the other rows of the type are unchanged.  Without an
    active row of the type the update reports [RowsAffected = 0] and no error,
    and [resolveActiveAlerts] changes neither a table nor the log; run a
    second time it is always such a no-op. *)
Theorem CheckThresholds_resolves (env : Env) (m : SystemMetrics) (w : World)
    (th : MetricThreshold) (v : float) :
  healthy env ->
  List.NoDup (List.map MetricThreshold_Type (db_metric_thresholds w)) ->
  List.In th (db_metric_thresholds w) ->
  MetricThreshold_Enabled th = true ->
  currentValue_of m (MetricThreshold_Type th) = Some v ->
  (v <=? MetricThreshold_Threshold th)%float = true ->
  let t := MetricThreshold_Type th in
  let before := alerts_of t (db_alerts w) in
  let w' := snd (CheckThresholds m env w) in
  (exists now updated,
     alerts_of t (db_alerts w')
     = List.map (resolve_where (where_type_active t) now updated) before /\
     forall a, List.In a before -> Alert_Status a = AlertActive ->
       exists a', List.In a' (alerts_of t (db_alerts w')) /\
                  Alert_ID a' = Alert_ID a /\
                  Alert_Status a' = AlertResolved /\
                  Alert_ResolvedAt a' = Some now) /\
  active_of t (db_alerts w') = [] /\
  (active_of t (db_alerts w) = [] -> alerts_of t (db_alerts w') = before) /\
  (forall w0 now,
     active_of t (db_alerts w0) = [] ->
     fst (db_Updates_resolved (where_type_active t) now env w0) = (0%Z, None) /\
     resolveActiveAlerts t env w0 = (tt, set_ticks (S (S (ticks w0))) w0)) /\
  (forall w0,
     let w1 := snd (resolveActiveAlerts t env w0) in
     resolveActiveAlerts t env w1 = (tt, set_ticks (S (S (ticks w1))) w1)).
Proof.
  intros Hh Hnd Hin Hen Hv Hle t before w'.
  apply float_leb_not_ltb in Hle.
  destruct (CheckThresholds_at_type env m w th Hh Hnd Hin Hen) as (w1 & Hw1 & Hafter).
  fold t in Hw1, Hafter. fold w' in Hafter. fold before in Hw1.
  rewrite (check_threshold_resolve env m th w1 v Hh Hv Hle) in Hafter. fold t in Hafter.
  rewrite alerts_of_resolved, Hw1 in Hafter.
  split.
  { eexists _, _. split; [exact Hafter|]. intros a Ha Hst.
    exists (resolve_row (env_now env (ticks w1)) (env_now env (S (ticks w1))) a).
    split; [|simpl; auto].
    rewrite Hafter. apply List.in_map_iff. exists a. split; [|exact Ha].
    unfold resolve_where. apply List.filter_In in Ha as [_ Ht].
    apply bool_decide_eq_true in Ht.
    rewrite (proj2 (where_type_active_true t a)) by auto. reflexivity. }
  split; [|split; [|split]].
  - rewrite <- (active_of_alerts_of t (db_alerts w')), Hafter.
    unfold before. rewrite <- alerts_of_resolved, active_of_alerts_of.
    apply active_of_resolved.
  - intros Hnone. rewrite Hafter. apply resolve_where_none.
    unfold before. fold (active_of t (alerts_of t (db_alerts w))).
    rewrite active_of_alerts_of. exact Hnone.
  - intros w0 now Hnone. split.
    + rewrite db_Updates_resolved_none; [reflexivity | apply Hh | exact Hnone].
    + apply resolveActiveAlerts_noop; assumption.
  - intros w0 w2. apply resolveActiveAlerts_noop; [exact Hh|].
    unfold w2. rewrite resolveActiveAlerts_alerts by exact Hh.
    apply active_of_resolved.
Qed.

(** Claim C5.  When every threshold row of a metric type is disabled, an
    automatic evaluation leaves the alerts of that type exactly as they were,
    whatever the reading and whatever the database does: none is created,
    none is resolved, an active one stays active and unchanged. *)
Theorem disabled_threshold_untouched (env : Env) (m : SystemMetrics) (w : World)
    (t : MetricType) :
  (forall th, List.In th (db_metric_thresholds w) ->
              MetricThreshold_Type th = t -> MetricThreshold_Enabled th = false) ->
  alerts_of t (db_alerts (snd (CheckThresholds m env w))) = alerts_of t (db_alerts w).
Proof.
  intros Hdis. destruct (env_db_fault env (ticks w)) as [msg|] eqn:E.
  - rewrite (CheckThresholds_fault _ _ _ _ E). reflexivity.
  - rewrite (CheckThresholds_loop _ _ _ E), for_range_frame; [reflexivity|].
    apply List.Forall_forall. intros th Hth Heq.
    apply List.filter_In in Hth as [Hin Hen].
    rewrite (Hdis th Hin Heq) in Hen. discriminate.
Qed.

(** *** Resolution by id *)

Lemma where_id_active_resolved (id : Z) (now upd : Time) (l : list Alert) :
  List.filter (where_id_active id) (List.map (resolve_where (where_id_active id) now upd) l)
  = [].
Proof.
  induction l as [|a l IH]; [reflexivity|]. simpl. rewrite IH.
  unfold resolve_where. destruct (where_id_active id a) eqn:E; [|rewrite E; reflexivity].
  unfold where_id_active. simpl. rewrite andb_false_r. reflexivity.
Qed.

Lemma ResolveAlert_none (env : Env) (w : World) (alertID : Z) :
  List.filter (where_id_active alertID) (db_alerts w) = [] ->
  (exists e, fst (ResolveAlert alertID env w) = Some e) /\
  db_alerts (snd (ResolveAlert alertID env w)) = db_alerts w /\
  (healthy env ->
   fst (ResolveAlert alertID env w) = Some (Errorf "alert not found or already resolved")).
Proof.
  intros Hnone. unfold ResolveAlert. unfold_M. unfold db_Updates_resolved. simpl.
  rewrite Hnone. simpl.
  destruct (env_db_fault env (S (ticks w))) eqn:E; simpl.
  - split; [eauto|]. split; [reflexivity|]. intros Hh. rewrite Hh in E. discriminate.
  - rewrite resolve_where_none by exact Hnone. eauto.
Qed.

(** Claim C10.  [ResolveAlert(id)] returns an error whenever no row has that
    id and [status = active], also when the row exists and is resolved
    already, and then changes no row; with the database answering and an
    active row of that id it returns no error and sets that row to
    [status = resolved] with [resolved_at] at the time it read; it is not
    idempotent: a second [ResolveAlert] of the same id returns an error. *)
Theorem ResolveAlert_by_id (env : Env) (w : World) (alertID : Z) :
  (List.filter (where_id_active alertID) (db_alerts w) = [] ->
     (exists e, fst (ResolveAlert alertID env w) = Some e) /\
     db_alerts (snd (ResolveAlert alertID env w)) = db_alerts w) /\
  (forall a, List.In a (db_alerts w) -> Alert_ID a = alertID ->
             Alert_Status a = AlertResolved ->
             List.NoDup (List.map Alert_ID (db_alerts w)) ->
             exists e, fst (ResolveAlert alertID env w) = Some e) /\
  (healthy env ->
   List.filter (where_id_active alertID) (db_alerts w) <> [] ->
     fst (ResolveAlert alertID env w) = None /\
     db_alerts (snd (ResolveAlert alertID env w))
     = List.map (resolve_where (where_id_active alertID)
                   (env_now env (ticks w)) (env_now env (S (ticks w))))
                (db_alerts w) /\
     (forall a, List.In a (db_alerts w) -> where_id_active alertID a = true ->
        exists a', List.In a' (db_alerts (snd (ResolveAlert alertID env w))) /\
                   Alert_ID a' = alertID /\ Alert_Status a' = AlertResolved /\
                   Alert_ResolvedAt a' = Some (env_now env (ticks w))) /\
     forall env', exists e,
       fst (ResolveAlert alertID env' (snd (ResolveAlert alertID env w))) = Some e).
Proof.
  split; [|split].
  - intros Hnone. destruct (ResolveAlert_none env w alertID Hnone) as (H1 & H2 & _). auto.
  - intros a Hin Hid Hst Hnd.
    apply (ResolveAlert_none env w alertID).
    destruct (List.filter _ (db_alerts w)) as [|b l] eqn:Hf; [reflexivity|].
    exfalso.
    assert (Hb : List.In b (List.filter (where_id_active alertID) (db_alerts w)))
      by (rewrite Hf; left; reflexivity).
    apply List.filter_In in Hb as [Hbin Hb].
    unfold where_id_active in Hb. apply andb_true_iff in Hb as [Hb1 Hb2].
    apply bool_decide_eq_true in Hb1, Hb2.
    assert (a = b); [|congruence].
    clear Hf. induction (db_alerts w) as [|x xs IH]; [destruct Hin|].
    simpl in Hnd. inversion Hnd as [|? ? Hx Hxs]; subst.
    destruct Hin as [-> | Hin], Hbin as [-> | Hbin]; auto.
    + exfalso. apply Hx. rewrite <- Hb1. apply List.in_map, Hbin.
    + exfalso. apply Hx. rewrite Hb1. apply (List.in_map Alert_ID) in Hin. exact Hin.
  - intros Hh Hsome.
    assert (Hrun : ResolveAlert alertID env w
                   = (None, set_alerts
                        (List.map (resolve_where (where_id_active alertID)
                           (env_now env (ticks w)) (env_now env (S (ticks w))))
                           (db_alerts w))
                        (db_alerts_seq w) (set_ticks (S (S (ticks w))) w))).
    { unfold ResolveAlert. unfold_M. unfold db_Updates_resolved. simpl.
      rewrite Hh. simpl.
      destruct (List.filter _ (db_alerts w)) eqn:Hf; [contradiction|]. reflexivity. }
    rewrite Hrun. simpl. split; [reflexivity|]. split; [reflexivity|]. split.
    + intros a Hin Ha. exists (resolve_row (env_now env (ticks w)) (env_now env (S (ticks w))) a).
      split.
      * apply List.in_map_iff. exists a. split; [|exact Hin].
        unfold resolve_where. rewrite Ha. reflexivity.
      * simpl. unfold where_id_active in Ha. apply andb_true_iff in Ha as [Ha _].
        apply bool_decide_eq_true in Ha. auto.
    + intros env'. apply ResolveAlert_none. simpl. apply where_id_active_resolved.
Qed.

(** ** The collector *)

(** A cycle whose CPU sample fails stores nothing. *)
Lemma collectMetrics_cpu_fails (env : Env) (w : World) (cs : list float) (e : error) :
  env_cpu_Percent env (S (ticks w)) = (cs, Some e) ->
  collectMetrics env w
  = (Returned (Some (ErrorfW "failed to get CPU usage" e)), set_ticks (S (S (ticks w))) w).
Proof.
  intros H. unfold collectMetrics, cpu_Percent. unfold_M. simpl. rewrite H. reflexivity.
Qed.

(** The loop outlives the failures of its sample source. *)
Lemma Start_loop_cpu_always_fails (env : Env) (n : nat) :
  (forall j, exists e, snd (env_cpu_Percent env j) = Some e) ->
  forall w,
    let w' := snd (Start_loop (List.repeat TickerC n) env w) in
    fst (Start_loop (List.repeat TickerC n) env w) = Returned tt /\
    db_metrics w' = db_metrics w /\
    length (log_output w') = (length (log_output w) + n)%nat.
Proof.
  intros Hfail. induction n as [|n IH]; intros w; simpl.
  - repeat split. lia.
  - destruct (Hfail (S (ticks w))) as (e & He).
    destruct (env_cpu_Percent env (S (ticks w))) as [cs oe] eqn:Hcpu. simpl in He. subst oe.
    unfold mbind, M_bind. rewrite (collectMetrics_cpu_fails env w cs e Hcpu).
    change (log_Printf ?l env ?x) with (tt, add_log l x). cbv beta iota.
    destruct (IH (add_log (LogCollectError (ErrorfW "failed to get CPU usage" e))
                    (set_ticks (S (S (ticks w))) w))) as (H1 & H2 & H3).
    repeat split; [exact H1 | exact H2 |].
    rewrite H3. simpl. rewrite length_app. simpl. lia.
Qed.

(** Claim C9, as amended.  One cycle of [collectMetrics], its interactions
    numbered from [k] (clock, CPU sample, insert, memory sample, insert):
    a failing CPU sample ends the cycle with an error and nothing stored;
    with both samples obtained and the database answering, exactly the CPU
    reading and then the memory reading are appended, both stamped with the
    time of the cycle; a failing memory sample ends the cycle with an error
    after the CPU reading of the cycle was appended.  [Start] logs the error
    of a cycle and goes on with the next tick: after [n] ticks of a sample
    source that always fails, [n] errors are logged and the loop still runs. *)
Theorem collectMetrics_cycle (env : Env) (w : World) :
  let k := ticks w in
  let r := collectMetrics env w in
  (forall cs e,
     env_cpu_Percent env (S k) = (cs, Some e) ->
     fst r = Returned (Some (ErrorfW "failed to get CPU usage" e)) /\
     db_metrics (snd r) = db_metrics w) /\
  (healthy env ->
   forall c cs mv,
     env_cpu_Percent env (S k) = (c :: cs, None) ->
     env_mem_UsedPercent env (S (S (S k))) = (mv, None) ->
     fst r = Returned None /\
     db_metrics (snd r)
     = db_metrics w
       ++ [stamp_metric (db_metrics_seq w) (env_now env (S (S k)))
             (new_Metric CPUUsage c (env_now env k));
           stamp_metric (db_metrics_seq w + 1) (env_now env (S (S (S (S k)))))
             (new_Metric MemoryUsage mv (env_now env k))]) /\
  (healthy env ->
   forall c cs mv e,
     env_cpu_Percent env (S k) = (c :: cs, None) ->
     env_mem_UsedPercent env (S (S (S k))) = (mv, Some e) ->
     fst r = Returned (Some (ErrorfW "failed to get memory usage" e)) /\
     db_metrics (snd r)
     = db_metrics w
       ++ [stamp_metric (db_metrics_seq w) (env_now env (S (S k)))
             (new_Metric CPUUsage c (env_now env k))]) /\
  (forall err w1 rest,
     r = (Returned (Some err), w1) ->
     Start_loop (TickerC :: rest) env w
     = Start_loop rest env (add_log (LogCollectError err) w1)) /\
  (forall n,
     (forall j, exists e, snd (env_cpu_Percent env j) = Some e) ->
     fst (Start_loop (List.repeat TickerC n) env w) = Returned tt /\
     db_metrics (snd (Start_loop (List.repeat TickerC n) env w)) = db_metrics w /\
     length (log_output (snd (Start_loop (List.repeat TickerC n) env w)))
     = (length (log_output w) + n)%nat).
Proof.
  intros k r. subst k r. split; [|split; [|split; [|split]]].
  - intros cs e H. rewrite (collectMetrics_cpu_fails env w cs e H). split; reflexivity.
  - intros Hh c cs mv Hcpu Hmem.
    unfold collectMetrics, cpu_Percent, mem_VirtualMemory, db_Create_metric. unfold_M.
    simpl. rewrite Hcpu. simpl. rewrite Hh. simpl. rewrite Hmem. simpl.
    rewrite ?Hh. simpl.
    split; [reflexivity|]. rewrite <- app_assoc. reflexivity.
  - intros Hh c cs mv e Hcpu Hmem.
    unfold collectMetrics, cpu_Percent, mem_VirtualMemory, db_Create_metric. unfold_M.
    simpl. rewrite Hcpu. simpl. rewrite Hh. simpl. rewrite Hmem. simpl.
    rewrite ?Hh. simpl.
    split; reflexivity.
  - intros err w1 rest Hr. simpl. unfold mbind, M_bind. rewrite Hr. reflexivity.
  - intros n Hfail. apply (Start_loop_cpu_always_fails env n Hfail w).
Qed.

(** Claim C9 as stated fails: the memory sample fails, the cycle returns the
    error, and the CPU reading of that cycle is in the metrics table. *)
Lemma collectMetrics_partial_cycle :
  fst (collectMetrics env_mem_down world_empty)
  = Returned (Some (ErrorfW "failed to get memory usage" (ErrExternal "meminfo unavailable")))
  /\ db_metrics world_empty = []
  /\ db_metrics (snd (collectMetrics env_mem_down world_empty))
     = [ {| Metric_ID := 1%Z; Metric_Type := CPUUsage; Metric_Value := 42.5%float;
            Metric_Unit := "%"; Metric_Timestamp := 0%Z; Metric_CreatedAt := 2%Z |} ].
Proof. vm_compute. repeat split. Qed.

(** ** The log analyzer *)

(** *** Strings *)

Lemma append_cons (c : ascii) (a b : string) : String c a +:+ b = String c (a +:+ b).
Proof. reflexivity. Qed.

Lemma append_nil (a : string) : "" +:+ a = a.
Proof. reflexivity. Qed.

Ltac simpl_append := rewrite ?append_cons, ?append_nil in *.

Lemma ToUpper_length (s : string) : String.length (ToUpper s) = String.length s.
Proof. induction s as [|c s IH]; simpl; [reflexivity | f_equal; exact IH]. Qed.

Lemma append_inv_length (a a' b b' : string) :
  a +:+ b = a' +:+ b' -> String.length a = String.length a' -> a = a' /\ b = b'.
Proof.
  revert a'. induction a as [|x a IH]; intros [|x' a'] H Hlen; simpl in Hlen;
    try discriminate; simpl_append; [auto|].
  injection H as -> H. destruct (IH a' H) as [-> ->]; [lia | auto].
Qed.

(** *** The pattern *)

Lemma match_word_sound (word s m rest : string) :
  match_word word s = Some (m, rest) -> s = m +:+ rest /\ ToUpper m = word.
Proof.
  revert s m. induction word as [|p word IH]; intros s m H; simpl in H.
  - injection H as <- <-. auto.
  - destruct s as [|c s]; [discriminate|].
    destruct (decide (upper_byte c = p)) as [<-|]; [|discriminate].
    destruct (match_word word s) as [[m' rest']|] eqn:E; [|discriminate].
    injection H as <- <-. destruct (IH _ _ E) as [-> <-]. auto.
Qed.

Lemma match_word_complete (word m rest : string) :
  ToUpper m = word -> match_word word (m +:+ rest) = Some (m, rest).
Proof.
  revert word. induction m as [|c m IH]; intros word <-; simpl_append; simpl;
    [reflexivity|].
  rewrite decide_True by reflexivity. rewrite IH; reflexivity.
Qed.

(** A match starts with the first letter of the word. *)
Lemma match_word_head (p c : ascii) (word s : string) :
  upper_byte c <> p -> match_word (String p word) (String c s) = None.
Proof. intros H. simpl. rewrite decide_False by exact H. reflexivity. Qed.

Lemma match_level_sound (s lv rest : string) :
  match_level s = Some (lv, rest) -> s = lv +:+ rest /\ is_level_word lv.
Proof.
  unfold match_level, is_level_word. intros H.
  destruct (match_word "INFO" s) as [[m r]|] eqn:E1.
  { injection H as <- <-. apply match_word_sound in E1 as [-> ?]. auto. }
  destruct (match_word "WARN" s) as [[m r]|] eqn:E2.
  { injection H as <- <-. apply match_word_sound in E2 as [-> ?]. auto. }
  destruct (match_word "ERROR" s) as [[m r]|] eqn:E3.
  { injection H as <- <-. apply match_word_sound in E3 as [-> ?]. auto. }
  apply match_word_sound in H as [-> ?]. auto.
Qed.

Lemma match_level_complete (lv rest : string) :
  is_level_word lv -> match_level (lv +:+ rest) = Some (lv, rest).
Proof.
  unfold is_level_word, match_level, INFO, WARN, ERROR, DEBUG.
  intros [H | [H | [H | H]]].
  - rewrite (match_word_complete _ _ _ H). reflexivity.
  - rewrite (match_word_complete "WARN" _ _ H).
    destruct lv as [|c lv]; [discriminate|]. simpl in H. injection H as Hc _.
    simpl_append. rewrite match_word_head by (rewrite Hc; discriminate). reflexivity.
  - rewrite (match_word_complete "ERROR" _ _ H).
    destruct lv as [|c lv]; [discriminate|]. simpl in H. injection H as Hc _.
    simpl_append. rewrite !match_word_head by (rewrite Hc; discriminate). reflexivity.
  - rewrite (match_word_complete "DEBUG" _ _ H).
    destruct lv as [|c lv]; [discriminate|]. simpl in H. injection H as Hc _.
    simpl_append. rewrite !match_word_head by (rewrite Hc; discriminate). reflexivity.
Qed.

(** A level word is not empty and starts with a letter. *)
Lemma is_level_word_head (lv : string) :
  is_level_word lv ->
  exists c lv', lv = String c lv' /\ c <> "["%char.
Proof.
  unfold is_level_word, INFO, WARN, ERROR, DEBUG.
  intros H. destruct lv as [|c lv]; [simpl in H; intuition discriminate|].
  exists c, lv. split; [reflexivity|]. intros ->.
  change (ToUpper (String "[" lv)) with (String "[" (ToUpper lv)) in H.
  destruct H as [H | [H | [H | H]]]; discriminate H.
Qed.

Lemma is_level_word_length (lv : string) :
  is_level_word lv -> (4 <= String.length lv <= 5)%nat.
Proof.
  unfold is_level_word, INFO, WARN, ERROR, DEBUG. intros H.
  rewrite <- (ToUpper_length lv).
  destruct H as [-> | [-> | [-> | ->]]]; simpl; lia.
Qed.

Lemma match_bracketed_iff (s lv : string) :
  match_bracketed s = Some lv <-> bracketed_tag_at s "" lv.
Proof.
  unfold match_bracketed, bracketed_tag_at. split.
  - intros H. destruct s as [|c s]; [discriminate|].
    destruct (decide (c = "["%char)) as [-> |]; [|discriminate].
    destruct (match_level s) as [[lv' rest]|] eqn:E; [|discriminate].
    destruct rest as [|c' rest]; [discriminate|].
    destruct (decide (c' = "]"%char)) as [-> |]; [|discriminate].
    injection H as <-. apply match_level_sound in E as [-> Hlv].
    split; [exact Hlv|]. exists rest. reflexivity.
  - intros (Hlv & post & ->). simpl_append.
    rewrite decide_True by reflexivity.
    rewrite (match_level_complete lv _ Hlv).
    rewrite decide_True by reflexivity. reflexivity.
Qed.

Lemma match_prefixed_iff (s lv : string) :
  match_prefixed s = Some lv <-> level_prefix s lv.
Proof.
  unfold match_prefixed, level_prefix. split.
  - intros H. destruct (match_level s) as [[lv' rest]|] eqn:E; [|discriminate].
    destruct rest as [|c' rest]; [discriminate|].
    destruct (decide (c' = ":"%char)) as [-> |]; [|discriminate].
    injection H as <-. apply match_level_sound in E as [-> Hlv].
    split; [exact Hlv|]. exists rest. reflexivity.
  - intros (Hlv & post & ->).
    rewrite (match_level_complete lv _ Hlv). simpl_append.
    rewrite decide_True by reflexivity. reflexivity.
Qed.

(** The search returns the tag that starts leftmost. *)
Lemma search_bracketed_sound (s lv : string) :
  search_bracketed s = Some lv ->
  exists pre,
    bracketed_tag_at s pre lv /\
    forall pre' lv', bracketed_tag_at s pre' lv' ->
                     (String.length pre <= String.length pre')%nat.
Proof.
  induction s as [|c s IH]; cbn [search_bracketed].
  - discriminate.
  - destruct (match_bracketed (String c s)) as [lv0|] eqn:E.
    + intros H. injection H as <-. apply match_bracketed_iff in E.
      exists "". split; [exact E|]. intros; simpl; lia.
    + intros H. destruct (IH H) as (pre & (Hlv & post & Hs) & Hleft).
      exists (String c pre). split.
      * split; [exact Hlv|]. exists post. rewrite append_cons, Hs. reflexivity.
      * intros pre' lv' (Hlv' & post' & Hs').
        destruct pre' as [|c' pre'].
        -- exfalso. assert (match_bracketed (String c s) = Some lv'); [|congruence].
           apply match_bracketed_iff. split; [exact Hlv'|]. exists post'. exact Hs'.
        -- rewrite append_cons in Hs'. injection Hs' as <- Hs'.
           simpl. apply le_n_S. apply (Hleft pre' lv').
           split; [exact Hlv'|]. exists post'. exact Hs'.
Qed.

Lemma search_bracketed_complete (s : string) :
  has_bracketed_tag s -> exists lv, search_bracketed s = Some lv.
Proof.
  intros (pre & lv & Hlv & post & ->).
  induction pre as [|c pre IH].
  - exists lv. assert (E : match_bracketed ("" +:+ "[" +:+ lv +:+ "]" +:+ post) = Some lv).
    { apply match_bracketed_iff. split; [exact Hlv|]. exists post. reflexivity. }
    rewrite append_nil in *. rewrite append_cons in *.
    cbn [search_bracketed]. rewrite E. reflexivity.
  - destruct IH as (lv1 & IH). rewrite append_cons.
    cbn [search_bracketed].
    destruct (match_bracketed (String c _)); eauto.
Qed.

Lemma append_assoc (a b c : string) : (a +:+ b) +:+ c = a +:+ (b +:+ c).
Proof.
  induction a as [|x a IH]; simpl_append; [reflexivity | f_equal; exact IH].
Qed.

(** *** The text after the separator *)

Lemma cut_sound (sep : ascii) (s before after : string) :
  cut sep s = Some (before, after) ->
  s = before +:+ String sep after /\ ~ List.In sep (list_ascii_of_string before).
Proof.
  revert before. induction s as [|c s IH]; intros before H; simpl in H; [discriminate|].
  destruct (decide (c = sep)) as [-> | Hne].
  - injection H as <- <-. split; [reflexivity | intros []].
  - destruct (cut sep s) as [[b a]|]; [|discriminate].
    injection H as <- <-. destruct (IH b eq_refl) as [-> Hnot].
    split; [reflexivity|]. simpl. intros [? | ?]; [congruence | contradiction].
Qed.

Lemma cut_contains (sep : ascii) (a b : string) :
  exists before after, cut sep (a +:+ String sep b) = Some (before, after).
Proof.
  induction a as [|c a (before & after & IH)]; simpl_append; simpl.
  - rewrite decide_True by reflexivity. eauto.
  - destruct (decide (c = sep)); [eauto|]. rewrite IH. eauto.
Qed.

(** A line that holds the separator has a text after its first occurrence,
    and [message_after] is that text, trimmed. *)
Lemma message_after_contains (sep : ascii) (a b : string) :
  exists after,
    after_first sep (a +:+ String sep b) after /\
    message_after (a +:+ String sep b) sep = TrimSpace after.
Proof.
  destruct (cut_contains sep a b) as (before & after & Hcut).
  exists after. unfold after_first, message_after, SplitN2. rewrite Hcut.
  apply cut_sound in Hcut. eauto.
Qed.

Lemma after_first_unique (sep : ascii) (line a1 a2 : string) :
  after_first sep line a1 -> after_first sep line a2 -> a1 = a2.
Proof.
  intros (b1 & -> & H1) (b2 & Heq & H2). revert b2 Heq H2.
  induction b1 as [|c b1 IH]; intros [|c2 b2] Heq H2; simpl_append.
  - congruence.
  - injection Heq as <- _. simpl in H2. tauto.
  - injection Heq as -> _. simpl in H1. tauto.
  - injection Heq as <- Heq. simpl in H1, H2. apply (IH ltac:(tauto) b2 Heq). tauto.
Qed.

(** *** [ParseLine] *)

Lemma is_level_word_upper (lv : string) :
  is_level_word lv -> ToUpper lv ∈ [INFO; WARN; ERROR; DEBUG].
Proof. unfold is_level_word. intros [-> | [-> | [-> | ->]]]; set_solver. Qed.

Lemma ParseLine_of_group1 (line lv whole : string) :
  is_level_word lv ->
  FindStringSubmatch line = [whole; lv; ""] ->
  ParseLine line
  = Some {| LogEntry_Level := ToUpper lv;
            LogEntry_Message := message_or_line (message_after line "]") line;
            LogEntry_Time := "" |}.
Proof.
  intros Hlv Hm. unfold ParseLine. rewrite Hm. simpl.
  destruct (is_level_word_head lv Hlv) as (c & lv' & -> & _).
  destruct (decide (String c lv' ≠ "")) as [_ | Hn]; [reflexivity|].
  exfalso. apply Hn. discriminate.
Qed.

Lemma ParseLine_of_group2 (line lv whole : string) :
  is_level_word lv ->
  FindStringSubmatch line = [whole; ""; lv] ->
  ParseLine line
  = Some {| LogEntry_Level := ToUpper lv;
            LogEntry_Message := message_or_line (message_after line ":") line;
            LogEntry_Time := "" |}.
Proof.
  intros Hlv Hm. unfold ParseLine. rewrite Hm. simpl.
  destruct (is_level_word_head lv Hlv) as (c & lv' & -> & _).
  destruct (decide (String c lv' ≠ "")) as [_ | Hn]; [reflexivity|].
  exfalso. apply Hn. discriminate.
Qed.

Lemma level_prefix_not_bracketed (line lv : string) :
  level_prefix line lv -> match_bracketed line = None.
Proof.
  intros (Hlv & post & ->).
  destruct (is_level_word_head lv Hlv) as (c & lv' & -> & Hc).
  simpl_append. simpl. rewrite decide_False by exact Hc. reflexivity.
Qed.

(** The prefixed form. *)
Lemma ParseLine_prefixed (line lv : string) :
  level_prefix line lv ->
  exists after,
    after_first ":" line after /\
    ParseLine line
    = Some {| LogEntry_Level := ToUpper lv;
              LogEntry_Message := message_or_line (TrimSpace after) line;
              LogEntry_Time := "" |}.
Proof.
  intros Hp. pose proof Hp as (Hlv & post & Hline).
  destruct (message_after_contains ":" lv post) as (after & Hafter & Hmsg).
  assert (Hline' : line = lv +:+ String ":" post) by exact Hline.
  rewrite <- Hline' in Hafter, Hmsg.
  exists after. split; [exact Hafter|].
  rewrite <- Hmsg. apply (ParseLine_of_group2 line lv (lv +:+ ":")); [exact Hlv|].
  unfold FindStringSubmatch.
  rewrite (level_prefix_not_bracketed line lv Hp).
  apply match_prefixed_iff in Hp. rewrite Hp. reflexivity.
Qed.

(** The bracketed form: the tag that starts leftmost gives the level. *)
Lemma ParseLine_bracketed (line : string) :
  ~ has_level_prefix line -> has_bracketed_tag line ->
  exists pre lv after,
    bracketed_tag_at line pre lv /\
    (forall pre' lv', bracketed_tag_at line pre' lv' ->
                      (String.length pre <= String.length pre')%nat) /\
    after_first "]" line after /\
    ParseLine line
    = Some {| LogEntry_Level := ToUpper lv;
              LogEntry_Message := message_or_line (TrimSpace after) line;
              LogEntry_Time := "" |}.
Proof.
  intros Hnp Htag.
  assert (Hpre : match_prefixed line = None).
  { destruct (match_prefixed line) as [lv|] eqn:E; [|reflexivity].
    exfalso. apply Hnp. exists lv. apply match_prefixed_iff, E. }
  destruct (search_bracketed_complete line Htag) as (lv & Hsearch).
  destruct (search_bracketed_sound line lv Hsearch) as (pre & Hat & Hleft).
  assert (Hfind : FindStringSubmatch line = ["[" +:+ lv +:+ "]"; lv; ""]).
  { unfold FindStringSubmatch. rewrite Hpre, Hsearch.
    destruct line as [|c line]; [discriminate Hsearch|].
    cbn [search_bracketed] in Hsearch.
    destruct (match_bracketed (String c line)) as [lv0|]; [|reflexivity].
    injection Hsearch as ->. reflexivity. }
  pose proof Hat as (Hlv & post & Hline).
  destruct (message_after_contains "]" (pre +:+ "[" +:+ lv) post) as (after & Hafter & Hmsg).
  assert (Hline' : line = (pre +:+ "[" +:+ lv) +:+ String "]" post).
  { rewrite Hline, !append_assoc. reflexivity. }
  rewrite <- Hline' in Hafter, Hmsg.
  exists pre, lv, after. repeat split; try assumption.
  - exists post. exact Hline.
  - rewrite <- Hmsg. apply (ParseLine_of_group1 line lv _ Hlv Hfind).
Qed.

Lemma ParseLine_None (line : string) :
  ParseLine line = None -> ~ has_bracketed_tag line /\ ~ has_level_prefix line.
Proof.
  intros Hnone. split.
  - intros Htag. destruct (match_prefixed line) as [lv|] eqn:E.
    + apply match_prefixed_iff in E.
      destruct (ParseLine_prefixed line lv E) as (? & _ & H). congruence.
    + destruct (ParseLine_bracketed line) as (? & ? & ? & _ & _ & _ & H);
        [|exact Htag|congruence].
      intros (lv & Hp). apply match_prefixed_iff in Hp. congruence.
  - intros (lv & Hp).
    destruct (ParseLine_prefixed line lv Hp) as (? & _ & H). congruence.
Qed.

Lemma ParseLine_Some (line : string) (entry : LogEntry) :
  ParseLine line = Some entry -> has_bracketed_tag line \/ has_level_prefix line.
Proof.
  intros Hsome. destruct (match_prefixed line) as [lv|] eqn:Ep.
  { right. exists lv. apply match_prefixed_iff, Ep. }
  left. destruct (search_bracketed line) as [lv|] eqn:Es.
  { destruct (search_bracketed_sound line lv Es) as (pre & Hat & _).
    exists pre, lv. exact Hat. }
  exfalso. unfold ParseLine, FindStringSubmatch in Hsome. rewrite Ep, Es in Hsome.
  destruct (match_bracketed line) as [lv|] eqn:Eb; [|discriminate Hsome].
  destruct line as [|c line]; [discriminate Eb|].
  cbn [search_bracketed] in Es. rewrite Eb in Es. discriminate.
Qed.

(** *** The scanning loop *)

Lemma scan_line_skip (st : ScanState) (text : string) :
  TrimSpace text = "" \/ ParseLine (TrimSpace text) = None ->
  scan_line st text = st.
Proof.
  unfold scan_line. intros [H | H].
  - rewrite decide_True by exact H. reflexivity.
  - destruct (decide (TrimSpace text = "")); [reflexivity|]. rewrite H. reflexivity.
Qed.

Lemma scan_line_entry (st : ScanState) (text : string) (entry : LogEntry) :
  TrimSpace text <> "" -> ParseLine (TrimSpace text) = Some entry ->
  scan_line st text
  = {| scan_LevelCounts := map_incr (LogEntry_Level entry) (scan_LevelCounts st);
       scan_TotalEntries := int_add (scan_TotalEntries st) 1;
       scan_errorMessages :=
         if decide (LogEntry_Level entry = ERROR)
         then map_incr (LogEntry_Message entry) (scan_errorMessages st)
         else scan_errorMessages st |}.
Proof.
  intros Hne H. unfold scan_line. rewrite decide_False by exact Hne. rewrite H.
  reflexivity.
Qed.

Lemma example_scan :
  foldl scan_line scan_init example_lines
  = {| scan_LevelCounts := {[ INFO := 1%Z; ERROR := 2%Z; WARN := 1%Z ]};
       scan_TotalEntries := 4;
       scan_errorMessages := {[ "b" := 2%Z ]} |}.
Proof. vm_compute. reflexivity. Qed.

(** Claim C6.  [ParseLine] recognises a line exactly when it holds a
    bracketed [[LEVEL]] somewhere or starts with [LEVEL:], the level word
    being INFO, WARN, ERROR or DEBUG in any mix of cases; the level of the
    entry is that word in upper case.  The message is the text after the
    first [:] (prefixed form) or after the first []] (bracketed form, which
    applies when the line has no prefix), trimmed, or the whole line when
    that text is empty.  A blank line or a line without a tag leaves the
    counters of the scan as they were.  The five lines of the description
    give the level counts INFO 1, ERROR 2, WARN 1, four entries in total and
    the single top error [b] with count 2. *)
Theorem ParseLine_two_forms :
  (forall line,
     is_Some (ParseLine line) <-> has_bracketed_tag line \/ has_level_prefix line) /\
  (forall line entry,
     ParseLine line = Some entry ->
     LogEntry_Level entry ∈ [INFO; WARN; ERROR; DEBUG]) /\
  (forall line lv,
     level_prefix line lv ->
     exists after,
       after_first ":" line after /\
       ParseLine line
       = Some {| LogEntry_Level := ToUpper lv;
                 LogEntry_Message := message_or_line (TrimSpace after) line;
                 LogEntry_Time := "" |}) /\
  (forall line,
     ~ has_level_prefix line -> has_bracketed_tag line ->
     exists pre lv after,
       bracketed_tag_at line pre lv /\
       (forall pre' lv', bracketed_tag_at line pre' lv' ->
                         (String.length pre <= String.length pre')%nat) /\
       after_first "]" line after /\
       ParseLine line
       = Some {| LogEntry_Level := ToUpper lv;
                 LogEntry_Message := message_or_line (TrimSpace after) line;
                 LogEntry_Time := "" |}) /\
  (forall st text,
     TrimSpace text = "" \/ ParseLine (TrimSpace text) = None ->
     scan_line st text = st) /\
  (forall rt fs filePath,
     runtime_ok rt ->
     fs filePath = inl {| scanned_lines := example_lines; scanner_Err := None |} ->
     ParseLogFile rt fs filePath
     = (Some {| LogStats_LevelCounts := {[ INFO := 1%Z; ERROR := 2%Z; WARN := 1%Z ]};
                LogStats_TopErrors :=
                  [ {| ErrorFrequency_Message := "b"; ErrorFrequency_Count := 2 |} ];
                LogStats_TotalEntries := 4 |},
        None)).
Proof.
  split; [|split; [|split; [|split; [|split]]]].
  - intros line. split.
    + intros [entry H]. exact (ParseLine_Some line entry H).
    + intros H. destruct (ParseLine line) eqn:E; [eauto|].
      apply ParseLine_None in E. tauto.
  - intros line entry H.
    destruct (match_prefixed line) as [lv|] eqn:Ep.
    + apply match_prefixed_iff in Ep.
      destruct (ParseLine_prefixed line lv Ep) as (after & _ & H').
      rewrite H' in H. injection H as <-. simpl. apply is_level_word_upper, Ep.
    + destruct (ParseLine_Some line entry H) as [Htag | (lv & Hp)].
      * destruct (ParseLine_bracketed line) as (pre & lv & after & Hat & _ & _ & H');
          [|exact Htag|].
        { intros (lv & Hp). apply match_prefixed_iff in Hp. congruence. }
        rewrite H' in H. injection H as <-. simpl. apply is_level_word_upper, Hat.
      * apply match_prefixed_iff in Hp. congruence.
  - exact ParseLine_prefixed.
  - exact ParseLine_bracketed.
  - exact scan_line_skip.
  - intros rt fs filePath [Hperm Hsort] Hfs. unfold ParseLogFile. rewrite Hfs.
    cbn [scanned_lines scanner_Err]. rewrite example_scan.
    cbn [scan_LevelCounts scan_TotalEntries scan_errorMessages].
    do 2 f_equal. f_equal. unfold getTopErrors.
    replace (map_to_list ({[ "b" := 2%Z ]} : gmap string Z)) with [("b", 2%Z)]
      by (vm_compute; reflexivity).
    pose proof (Hperm [("b", 2%Z)]) as Hp. apply Permutation_singleton_r in Hp.
    rewrite Hp.
    change (List.map entry_of [("b", 2%Z)])
      with [ {| ErrorFrequency_Message := "b"; ErrorFrequency_Count := 2 |} ].
    destruct (Hsort [ {| ErrorFrequency_Message := "b"; ErrorFrequency_Count := 2 |} ])
      as [Hs _].
    apply Permutation_singleton_r in Hs. rewrite Hs. reflexivity.
Qed.

(** *** Counting *)

Lemma int_add_no_overflow (a : Z) :
  (- 2 ^ 63 <= a + 1 < 2 ^ 63)%Z -> int_add a 1 = (a + 1)%Z.
Proof.
  intros H. unfold int_add.
  rewrite Z.mod_small by lia. lia.
Qed.

Lemma error_messages_cons (text : string) (lines : list string) :
  error_messages (text :: lines) = error_message_of text ++ error_messages lines.
Proof.
  unfold error_messages, parsed_entries, error_message_of. simpl.
  destruct (decide (TrimSpace text = "")); [reflexivity|].
  destruct (ParseLine (TrimSpace text)) as [entry|]; [|reflexivity].
  simpl. destruct (decide (LogEntry_Level entry = ERROR)) as [He | He].
  - rewrite bool_decide_eq_true_2 by exact He. reflexivity.
  - rewrite bool_decide_eq_false_2 by exact He. reflexivity.
Qed.

Lemma error_messages_length (lines : list string) :
  (length (error_messages lines) <= length lines)%nat.
Proof.
  induction lines as [|text lines IH]; [reflexivity|].
  rewrite error_messages_cons, length_app. simpl.
  assert (length (error_message_of text) <= 1)%nat; [|lia].
  unfold error_message_of. repeat case_match; simpl; lia.
Qed.

(** The frequency map of the loop is the count of the error messages. *)
Lemma scan_errorMessages_fold (lines : list string) (st : ScanState) :
  scan_errorMessages (foldl scan_line st lines)
  = count_all (scan_errorMessages st) (error_messages lines).
Proof.
  revert st. induction lines as [|text lines IH]; intros st; [reflexivity|].
  simpl. rewrite IH, error_messages_cons. unfold count_all. rewrite foldl_app.
  f_equal. unfold scan_line, error_message_of.
  destruct (decide (TrimSpace text = "")); [reflexivity|].
  destruct (ParseLine (TrimSpace text)) as [entry|]; [|reflexivity].
  simpl. destruct (decide (LogEntry_Level entry = ERROR)); reflexivity.
Qed.

Lemma frequency_cons (k x : string) (msgs : list string) :
  frequency k (x :: msgs)
  = ((if decide (x = k) then 1 else 0) + frequency k msgs)%nat.
Proof.
  unfold frequency. simpl. destruct (decide (x = k)) as [He | He].
  - rewrite bool_decide_eq_true_2 by exact He. reflexivity.
  - rewrite bool_decide_eq_false_2 by exact He. reflexivity.
Qed.

Lemma frequency_pos (k : string) (msgs : list string) :
  (0 < frequency k msgs)%nat <-> k ∈ msgs.
Proof.
  induction msgs as [|x msgs IH].
  - unfold frequency. simpl. split; [lia | intros H; inversion H].
  - rewrite frequency_cons, elem_of_cons. destruct (decide (x = k)) as [-> | Hne].
    + split; [auto | lia].
    + simpl. rewrite IH. split; [auto | intros [? | ?]; [congruence | auto]].
Qed.

Lemma frequency_le_length (k : string) (msgs : list string) :
  (frequency k msgs <= length msgs)%nat.
Proof. unfold frequency. apply List.filter_length_le. Qed.

(** Without overflow a key holds its start value plus its frequency, once it
    was seen. *)
Lemma count_all_lookup (msgs : list string) (m0 : gmap string Z) (k : string) :
  (forall j, 0 <= default 0 (m0 !! j)
             /\ default 0 (m0 !! j) + Z.of_nat (length msgs) < 2 ^ 63)%Z ->
  count_all m0 msgs !! k
  = if decide (frequency k msgs = 0)%nat then m0 !! k
    else Some (default 0 (m0 !! k) + Z.of_nat (frequency k msgs))%Z.
Proof.
  revert m0. induction msgs as [|x msgs IH]; intros m0 Hb.
  - reflexivity.
  - unfold count_all. simpl. fold (count_all (map_incr x m0) msgs).
    assert (Hx : int_add (default 0%Z (m0 !! x)) 1 = (default 0 (m0 !! x) + 1)%Z).
    { apply int_add_no_overflow. specialize (Hb x). simpl length in Hb. lia. }
    rewrite IH.
    + rewrite frequency_cons. unfold map_incr. rewrite Hx.
      destruct (decide (x = k)) as [-> | Hne].
      * rewrite lookup_insert_eq. simpl default.
        destruct (decide (frequency k msgs = 0)%nat) as [-> | ?].
        -- rewrite decide_False by discriminate. f_equal.
        -- rewrite decide_False by (simpl; lia). f_equal. lia.
      * rewrite lookup_insert_ne by exact Hne. reflexivity.
    + intros j. unfold map_incr. rewrite Hx.
      pose proof (Hb x) as Hbx. specialize (Hb j). simpl length in Hb, Hbx.
      destruct (decide (x = j)) as [-> | Hne].
      * rewrite lookup_insert_eq. simpl. lia.
      * rewrite lookup_insert_ne by exact Hne. lia.
Qed.

Lemma count_all_empty_lookup (msgs : list string) (k : string) :
  (Z.of_nat (length msgs) < 2 ^ 63)%Z ->
  count_all ∅ msgs !! k
  = if decide (frequency k msgs = 0)%nat then None
    else Some (Z.of_nat (frequency k msgs)).
Proof.
  intros Hb. rewrite count_all_lookup.
  - rewrite lookup_empty. reflexivity.
  - intros j. rewrite lookup_empty. simpl. lia.
Qed.

Lemma count_all_empty_size (msgs : list string) :
  (Z.of_nat (length msgs) < 2 ^ 63)%Z ->
  size (count_all ∅ msgs) = distinct msgs.
Proof.
  intros Hb. unfold distinct. rewrite <- size_dom. f_equal.
  apply set_eq. intros k. rewrite elem_of_dom, elem_of_list_to_set, <- frequency_pos.
  rewrite count_all_empty_lookup by exact Hb.
  destruct (decide (frequency k msgs = 0)%nat) as [-> | Hne].
  - split; [intros [? ?]; discriminate | lia].
  - split; [lia | eauto].
Qed.

(** *** Ranking *)

#[local] Instance by_count_desc_total : Total by_count_desc.
Proof. intros x y. unfold by_count_desc. lia. Qed.

#[local] Instance by_count_desc_trans : Transitive by_count_desc.
Proof. intros x y z. unfold by_count_desc. lia. Qed.

(** [getTopErrors] is the first [topN] entries of the sorted slice. *)
Lemma getTopErrors_take (rt : GoRuntime) (m : gmap string Z) (topN : nat) :
  getTopErrors rt m topN
  = take topN (sort_Slice rt (List.map entry_of (range_map rt (map_to_list m)))).
Proof.
  unfold getTopErrors.
  destruct (decide (topN < length _)%nat) as [H | H]; [reflexivity|].
  rewrite take_ge by lia. reflexivity.
Qed.

Lemma sort_Slice_entries (rt : GoRuntime) (m : gmap string Z) :
  runtime_ok rt ->
  sort_Slice rt (List.map entry_of (range_map rt (map_to_list m)))
  ≡ₚ entry_of <$> map_to_list m.
Proof.
  intros [Hperm Hsort]. rewrite (proj1 (Hsort _)).
  change (List.map entry_of) with (fmap (M:=list) entry_of). rewrite (Hperm _).
  reflexivity.
Qed.

Lemma elem_of_entries (m : gmap string Z) (ef : ErrorFrequency) :
  ef ∈ entry_of <$> map_to_list m
  <-> m !! ErrorFrequency_Message ef = Some (ErrorFrequency_Count ef).
Proof.
  rewrite list_elem_of_fmap. split.
  - intros ([k v] & -> & H). apply elem_of_map_to_list in H. exact H.
  - intros H. exists (ErrorFrequency_Message ef, ErrorFrequency_Count ef).
    split; [destruct ef; reflexivity | apply elem_of_map_to_list, H].
Qed.

Lemma entries_messages (l : list (string * Z)) :
  ErrorFrequency_Message <$> (entry_of <$> l) = l.*1.
Proof. rewrite <- list_fmap_compose. reflexivity. Qed.

(** Claim C7.  For a file that is read to its end (fewer than 2^63 lines, so
    that no counter wraps), whatever order the map is visited in, the top
    errors are [min 5 d] entries, [d] the number of distinct messages of the
    ERROR entries; each entry holds a message of an ERROR entry and its
    frequency among them; no message occurs twice; the counts descend; and no
    message left out is more frequent than one listed. *)
Theorem top_errors_ranked (rt : GoRuntime)
    (fs : string -> os_Open_result) (filePath : string) (file : ScannedFile) :
  runtime_ok rt ->
  fs filePath = inl file ->
  scanner_Err file = None ->
  (Z.of_nat (length (scanned_lines file)) < 2 ^ 63)%Z ->
  let msgs := error_messages (scanned_lines file) in
  exists stats,
    ParseLogFile rt fs filePath = (Some stats, None) /\
    let top := LogStats_TopErrors stats in
    length top = min 5 (distinct msgs) /\
    (forall ef, ef ∈ top ->
       ErrorFrequency_Message ef ∈ msgs /\
       ErrorFrequency_Count ef = Z.of_nat (frequency (ErrorFrequency_Message ef) msgs)) /\
    NoDup (ErrorFrequency_Message <$> top) /\
    StronglySorted by_count_desc top /\
    (forall msg ef,
       msg ∈ msgs -> msg ∉ ErrorFrequency_Message <$> top -> ef ∈ top ->
       (Z.of_nat (frequency msg msgs) <= ErrorFrequency_Count ef)%Z).
Proof.
  intros Hperm Hfs Herr Hlen msgs.
  unfold ParseLogFile. rewrite Hfs, Herr. eexists. split; [reflexivity|].
  cbn [LogStats_TopErrors].
  rewrite scan_errorMessages_fold. cbn [scan_init scan_errorMessages]. fold msgs.
  assert (Hmsgs : (Z.of_nat (length msgs) < 2 ^ 63)%Z).
  { pose proof (error_messages_length (scanned_lines file)). fold msgs in H. lia. }
  set (cm := count_all ∅ msgs).
  rewrite getTopErrors_take.
  set (sorted := sort_Slice rt (List.map entry_of (range_map rt (map_to_list cm)))).
  assert (Hsorted : sorted ≡ₚ entry_of <$> map_to_list cm)
    by (apply sort_Slice_entries, Hperm).
  assert (Hstrong : StronglySorted by_count_desc sorted)
    by (apply (proj2 Hperm)).
  assert (Hin : forall ef, ef ∈ sorted <->
            (0 < frequency (ErrorFrequency_Message ef) msgs)%nat /\
            ErrorFrequency_Count ef = Z.of_nat (frequency (ErrorFrequency_Message ef) msgs)).
  { intros ef. rewrite Hsorted, elem_of_entries. unfold cm.
    rewrite count_all_empty_lookup by exact Hmsgs.
    destruct (decide (frequency (ErrorFrequency_Message ef) msgs = 0)%nat) as [-> | Hne].
    - split; [discriminate | lia].
    - split; [intros [= <-]; split; [lia | reflexivity] | intros [_ ->]; reflexivity]. }
  assert (Hsplit : sorted = take 5 sorted ++ drop 5 sorted)
    by (symmetry; apply take_drop).
  split; [|split; [|split; [|split]]].
  - rewrite length_take. f_equal. rewrite Hsorted, length_fmap, length_map_to_list.
    apply count_all_empty_size, Hmsgs.
  - intros ef Hef. assert (Hef' : ef ∈ sorted).
    { rewrite Hsplit. apply elem_of_app. left. exact Hef. }
    apply Hin in Hef' as [Hpos Hcount]. split; [|exact Hcount].
    apply frequency_pos, Hpos.
  - assert (Hnd : NoDup (ErrorFrequency_Message <$> sorted)).
    { rewrite Hsorted, entries_messages. apply NoDup_fst_map_to_list. }
    rewrite Hsplit, fmap_app in Hnd. apply NoDup_app in Hnd. tauto.
  - rewrite Hsplit in Hstrong. apply StronglySorted_app_1_l in Hstrong. exact Hstrong.
  - intros msg ef Hmsg Hnot Hef.
    set (e' := {| ErrorFrequency_Message := msg;
                  ErrorFrequency_Count := Z.of_nat (frequency msg msgs) |}).
    assert (He' : e' ∈ sorted).
    { apply Hin. simpl. split; [apply frequency_pos, Hmsg | reflexivity]. }
    rewrite Hsplit in He'. apply elem_of_app in He' as [He' | He'].
    + exfalso. apply Hnot. apply list_elem_of_fmap. exists e'. split; [reflexivity | exact He'].
    + rewrite Hsplit in Hstrong.
      apply (StronglySorted_app_1_elem_of by_count_desc _ _ ef e' Hstrong Hef He').
Qed.

(** *** Errors of [ParseLogFile] *)

Lemma foldl_scan_line_skip (lines : list string) (st : ScanState) :
  (forall text, text ∈ lines ->
     TrimSpace text = "" \/ ParseLine (TrimSpace text) = None) ->
  foldl scan_line st lines = st.
Proof.
  induction lines as [|text lines IH]; intros H; [reflexivity|].
  simpl. rewrite scan_line_skip by (apply H; left). apply IH.
  intros t Ht. apply H. right. exact Ht.
Qed.

(** *** The scanner *)

(** The scanner gives up exactly on a file with a long line.  [line_rev]
    holds the bytes since the last line feed. *)
Lemma bufio_Scan_tooLong (data line_rev : list ascii) (held : Z) :
  held = Z.of_nat (length line_rev) ->
  (held < MaxScanTokenSize)%Z ->
  Forall (fun c => c <> line_feed) line_rev ->
  snd (bufio_Scan data line_rev held) = true
  <-> has_long_line (reverse line_rev ++ data).
Proof.
  revert line_rev held.
  induction data as [|c rest IH]; intros line_rev held Hheld Hlt Hnl.
  - simpl. split; [discriminate|]. intros [i Hrun].
    destruct (Hrun (length line_rev)) as (c & Hc & _); [lia|].
    apply lookup_lt_Some in Hc. rewrite app_nil_r, length_reverse in Hc. lia.
  - cbn [bufio_Scan]. destruct (decide (c = line_feed)) as [-> | Hc].
    + specialize (IH [] 0%Z eq_refl ltac:(reflexivity) (Forall_nil_2 _)).
      destruct (bufio_Scan rest [] 0) as [lines tooLong]. simpl in IH |- *.
      rewrite IH. split; intros [i Hrun].
      * exists (length line_rev + 1 + i)%nat. intros j Hj.
        destruct (Hrun j Hj) as (c & Hc & Hne). exists c. split; [|exact Hne].
        rewrite lookup_app_r by (rewrite length_reverse; lia).
        rewrite length_reverse.
        replace (length line_rev + 1 + i + j - length line_rev)%nat with (S (i + j)) by lia.
        exact Hc.
      * destruct (decide (i <= length line_rev)%nat) as [Hi | Hi].
        { destruct (Hrun (length line_rev - i)%nat) as (c & Hc & Hne); [lia|].
          replace (i + (length line_rev - i))%nat with (length line_rev + 0)%nat in Hc by lia.
          rewrite <- (length_reverse line_rev), lookup_app_r in Hc by lia.
          replace (length (reverse line_rev) + 0 - length (reverse line_rev))%nat
            with 0%nat in Hc by lia.
          simpl in Hc. congruence. }
        exists (i - length line_rev - 1)%nat. intros j Hj.
        destruct (Hrun j Hj) as (c & Hc & Hne). exists c. split; [|exact Hne].
        rewrite lookup_app_r in Hc by (rewrite length_reverse; lia).
        rewrite length_reverse in Hc.
        replace (i + j - length line_rev)%nat
          with (S (i - length line_rev - 1 + j)) in Hc by lia.
        exact Hc.
    + destruct (decide (MaxScanTokenSize <= held + 1)%Z) as [Hfull | Hroom].
      * simpl. split; [intros _ | reflexivity].
        exists 0%nat. intros j Hj. simpl.
        destruct (decide (j < length line_rev)%nat) as [Hin | Hout].
        { destruct (lookup_lt_is_Some_2 (reverse line_rev) j) as [x Hx];
            [rewrite length_reverse; lia|].
          exists x. split; [apply lookup_app_l_Some, Hx|].
          rewrite Forall_forall in Hnl. apply Hnl.
          apply elem_of_reverse. apply (list_elem_of_lookup_2 _ j), Hx. }
        exists c. split; [|exact Hc].
        rewrite lookup_app_r by (rewrite length_reverse; lia).
        rewrite length_reverse.
        replace (j - length line_rev)%nat with 0%nat by lia. reflexivity.
      * rewrite (IH (c :: line_rev) (held + 1)%Z).
        -- rewrite reverse_cons, <- app_assoc. reflexivity.
        -- simpl length. lia.
        -- lia.
        -- constructor; assumption.
Qed.

Lemma has_long_line_dec (bytes : list ascii) :
  has_long_line bytes \/ ~ has_long_line bytes.
Proof.
  pose proof (bufio_Scan_tooLong bytes [] 0%Z eq_refl
                ltac:(reflexivity) (Forall_nil_2 _)) as H.
  simpl in H. destruct (snd (bufio_Scan bytes [] 0)).
  - left. apply H. reflexivity.
  - right. intros Hl. apply H in Hl. discriminate.
Qed.

Lemma bufio_Scanner_Err (f : OpenedFile) :
  (has_long_line (file_bytes f) -> scanner_Err (bufio_Scanner f) = Some ErrTooLong) /\
  (~ has_long_line (file_bytes f) -> scanner_Err (bufio_Scanner f) = file_read_err f).
Proof.
  pose proof (bufio_Scan_tooLong (file_bytes f) [] 0%Z eq_refl
                ltac:(reflexivity) (Forall_nil_2 _)) as H.
  unfold bufio_Scanner. simpl in H.
  destruct (bufio_Scan (file_bytes f) [] 0) as [lines [|]]; simpl in *.
  - split; [reflexivity|]. intros Hn. exfalso. apply Hn, H. reflexivity.
  - split; [|reflexivity]. intros Hl. apply H in Hl. discriminate.
Qed.

(** The bytes of the example file are scanned into its lines: the carriage
    return is dropped, the blank line is a line, the last line needs no line
    feed. *)
Lemma bufio_Scanner_example :
  bufio_Scanner {| file_bytes := example_bytes; file_read_err := None |}
  = {| scanned_lines := ["[INFO] a"; "[ERROR] b"; "[ERROR] b"; ""; "garbage line"; "WARN: c"];
       scanner_Err := None |}.
Proof. vm_compute. reflexivity. Qed.

(** Claim C8, amended.  [ParseLogFile] returns an error exactly when the file
    cannot be opened, a read of it fails, or it holds a line of 65536 bytes or
    more, which the scanner refuses; no statistics come with an error.  The
    error is the cause ([os.Open]'s error, the error of the read, or
    [bufio.ErrTooLong]) wrapped by [fmt.Errorf] under the message of the step
    that failed.  A file that opens, is read to its end and has only shorter
    lines gives statistics and no error; when none of its lines holds a level
    tag these are zero entries, no level count and no top error. *)
Theorem ParseLogFile_errors (rt : GoRuntime)
    (disk : string -> OpenedFile + error) (filePath : string) :
  let r := ParseLogFile rt (open_files disk) filePath in
  ((exists e, snd r = Some e) <->
     (exists cause, disk filePath = inr cause) \/
     (exists file, disk filePath = inl file /\
        ((exists cause, file_read_err file = Some cause) \/
         has_long_line (file_bytes file)))) /\
  (forall e, snd r = Some e -> fst r = None) /\
  (forall cause, disk filePath = inr cause ->
     r = (None, Some (ErrorfW "failed to open log file" cause))) /\
  (forall file, disk filePath = inl file -> has_long_line (file_bytes file) ->
     r = (None, Some (ErrorfW "error reading log file" ErrTooLong))) /\
  (forall file cause, disk filePath = inl file ->
     ~ has_long_line (file_bytes file) -> file_read_err file = Some cause ->
     r = (None, Some (ErrorfW "error reading log file" cause))) /\
  (forall file, disk filePath = inl file ->
     ~ has_long_line (file_bytes file) -> file_read_err file = None ->
     exists stats, r = (Some stats, None)) /\
  (forall file,
     runtime_ok rt ->
     disk filePath = inl file ->
     ~ has_long_line (file_bytes file) -> file_read_err file = None ->
     (forall text, text ∈ scanned_lines (bufio_Scanner file) ->
        TrimSpace text = "" \/ ParseLine (TrimSpace text) = None) ->
     r = (Some {| LogStats_LevelCounts := ∅; LogStats_TopErrors := [];
                  LogStats_TotalEntries := 0 |}, None)).
Proof.
  intros r. subst r. unfold ParseLogFile, open_files.
  destruct (disk filePath) as [file | cause0] eqn:Hdisk.
  - destruct (bufio_Scanner_Err file) as [Hlong Hshort].
    destruct (scanner_Err (bufio_Scanner file)) as [cause0|] eqn:Herr.
    + split; [|split; [|split; [|split; [|split; [|split]]]]].
      * split; [intros _; right | eauto].
        exists file. split; [reflexivity|].
        destruct (file_read_err file) as [c|] eqn:Hread; [left; eauto | right].
        destruct (has_long_line_dec (file_bytes file)) as [Hl | Hl]; [exact Hl|].
        specialize (Hshort Hl). congruence.
      * intros e _. reflexivity.
      * discriminate.
      * intros f [= <-] Hl. pose proof (Hlong Hl). congruence.
      * intros f c [= <-] Hl Hc. pose proof (Hshort Hl). congruence.
      * intros f [= <-] Hl Hc. pose proof (Hshort Hl). congruence.
      * intros f _ [= <-] Hl Hc. pose proof (Hshort Hl). congruence.
    + split; [|split; [|split; [|split; [|split; [|split]]]]].
      * split; [intros [e He]; discriminate|].
        intros [(c & Hc) | (f & [= <-] & [(c & Hc) | Hl])]; [discriminate | |].
        -- destruct (has_long_line_dec (file_bytes file)) as [Hl | Hl].
           ++ pose proof (Hlong Hl). congruence.
           ++ pose proof (Hshort Hl). congruence.
        -- pose proof (Hlong Hl). congruence.
      * discriminate.
      * discriminate.
      * intros f [= <-] Hl. pose proof (Hlong Hl). congruence.
      * intros f c [= <-] Hl Hc. pose proof (Hshort Hl). congruence.
      * eauto.
      * intros f [Hperm Hsort] [= <-] _ _ Hskip.
        rewrite (foldl_scan_line_skip _ _ Hskip). cbn.
        do 2 f_equal. f_equal. rewrite getTopErrors_take.
        rewrite map_to_list_empty.
        pose proof (Hperm []) as Hp. apply Permutation_nil_r in Hp. rewrite Hp.
        destruct (Hsort []) as [Hs _]. apply Permutation_nil_r in Hs.
        cbn [List.map]. rewrite Hs. reflexivity.
  - split; [|split; [|split; [|split; [|split; [|split]]]]].
    + split; [intros _; left; eauto | eauto].
    + intros e _. reflexivity.
    + intros c [= <-]. reflexivity.
    + discriminate.
    + discriminate.
    + discriminate.
    + discriminate.
Qed.

(** Claim C8 as stated fails: the file opens and is read to its end without
    a failure, and [ParseLogFile] returns an error and no statistics.  The
    cause wrapped in the error is the scanner's [ErrTooLong]. *)
Lemma ParseLogFile_long_line :
  long_line_disk "long.log" = inl long_line_file /\
  file_read_err long_line_file = None /\
  ParseLogFile runtime_merge_sort (open_files long_line_disk) "long.log"
  = (None, Some (ErrorfW "error reading log file"
                   (ErrExternal "bufio.Scanner: token too long"))).
Proof.
  split; [reflexivity|]. split; [reflexivity|]. vm_compute. reflexivity.
Qed.

(** ** The theorems at concrete inputs *)

Lemma env_ok_healthy : healthy env_ok.
Proof. intros k. reflexivity. Defined.

Lemma default_thresholds_unique :
  List.NoDup (List.map MetricThreshold_Type (db_metric_thresholds world_default)).
Proof.
  simpl. constructor; [intros [H | []]; discriminate H|].
  constructor; [intros []|]. constructor.
Defined.

(** Three evaluations of a fresh database: breach, breach again, recovery. *)
Lemma at_most_one_active_alert_witness :
  (active_count CPUUsage
     (run_evaluations env_ok
        [reading 90 50 10; reading 95 50 20; reading 70 50 30] world_default)
   <= 1)%nat.
Proof.
  apply (at_most_one_active_alert env_ok
           [reading 90 50 10; reading 95 50 20; reading 70 50 30] world_default CPUUsage).
  vm_compute. apply le_S, le_n.
Defined.

(** A CPU reading of 90 against the threshold 80, no alert yet. *)
Lemma CheckThresholds_creates_iff_witness :
  (exists row,
     alerts_of CPUUsage (db_alerts (snd (CheckThresholds (reading 90 50 10) env_ok
                                           world_default)))
     = alerts_of CPUUsage (db_alerts world_default) ++ [row]) <->
  (80 <? 90)%float = true /\ active_of CPUUsage (db_alerts world_default) = [].
Proof.
  refine (proj1 (CheckThresholds_creates_iff env_ok (reading 90 50 10) world_default
                   (threshold_row 1 CPUUsage 80 true) 90 _ _ _ _ _)).
  - exact env_ok_healthy.
  - exact default_thresholds_unique.
  - left. reflexivity.
  - reflexivity.
  - reflexivity.
Defined.

(** A CPU reading of 70 against the threshold 80, one alert active. *)
Lemma CheckThresholds_resolves_witness :
  active_of CPUUsage
    (db_alerts (snd (CheckThresholds (reading 70 50 20) env_ok world_cpu_active))) = [].
Proof.
  refine (proj1 (proj2 (CheckThresholds_resolves env_ok (reading 70 50 20)
                          world_cpu_active (threshold_row 1 CPUUsage 80 true) 70
                          _ _ _ _ _ _))).
  - exact env_ok_healthy.
  - exact default_thresholds_unique.
  - left. reflexivity.
  - reflexivity.
  - reflexivity.
  - reflexivity.
Defined.

(** The CPU threshold disabled, a CPU alert active, a CPU reading of 70. *)
Lemma disabled_threshold_untouched_witness :
  alerts_of CPUUsage
    (db_alerts (snd (CheckThresholds (reading 70 50 20) env_ok world_cpu_disabled)))
  = alerts_of CPUUsage (db_alerts world_cpu_disabled).
Proof.
  apply (disabled_threshold_untouched env_ok (reading 70 50 20) world_cpu_disabled CPUUsage).
  intros th [<- | [<- | []]] H; [reflexivity | discriminate H].
Defined.

Lemma runtime_merge_sort_ok : runtime_ok runtime_merge_sort.
Proof.
  split; [intros l; reflexivity|]. intros l. split.
  - apply merge_sort_Permutation.
  - apply StronglySorted_merge_sort; apply _.
Defined.

(** The example file, under the merge-sort runtime. *)
Lemma top_errors_ranked_witness :
  exists stats,
    ParseLogFile runtime_merge_sort example_fs "app.log" = (Some stats, None) /\
    length (LogStats_TopErrors stats) = min 5 (distinct (error_messages example_lines)) /\
    (forall ef, ef ∈ LogStats_TopErrors stats ->
       ErrorFrequency_Message ef ∈ error_messages example_lines /\
       ErrorFrequency_Count ef
       = Z.of_nat (frequency (ErrorFrequency_Message ef) (error_messages example_lines))) /\
    NoDup (ErrorFrequency_Message <$> LogStats_TopErrors stats) /\
    StronglySorted by_count_desc (LogStats_TopErrors stats) /\
    (forall msg ef,
       msg ∈ error_messages example_lines ->
       msg ∉ ErrorFrequency_Message <$> LogStats_TopErrors stats ->
       ef ∈ LogStats_TopErrors stats ->
       (Z.of_nat (frequency msg (error_messages example_lines))
        <= ErrorFrequency_Count ef)%Z).
Proof.
  refine (top_errors_ranked runtime_merge_sort example_fs "app.log"
            {| scanned_lines := example_lines; scanner_Err := None |} _ _ _ _).
  - exact runtime_merge_sort_ok.
  - reflexivity.
  - reflexivity.
  - vm_compute. reflexivity.
Defined.

(** * More properties of the code *)

(** ** Package alerts *)

Lemma generateAlertMessage_pure (t : MetricType) (v thr : float) (env : Env) (w : World) :
  exists message, generateAlertMessage t v thr env w = (message, w).
Proof.
  unfold generateAlertMessage. unfold_M. repeat case_decide; eauto.
Qed.

(** X1.  [CreateAlert] has no guard: when the insert succeeds it appends one
    active row built from the request (computed severity, [triggered_at] at
    the time it read), whatever the table holds, so the type has one more
    active alert than before; when the insert fails it returns the wrapped
    error and the table is as it was. *)
Theorem CreateAlert_bypasses_guard (env : Env) (w : World) (req : CreateAlertRequest) :
  let r := CreateAlert req env w in
  (forall msg,
     env_db_fault env (S (ticks w)) = Some msg ->
     fst r = (None, Some (ErrorfW "failed to create alert" (ErrExternal msg))) /\
     db_alerts (snd r) = db_alerts w) /\
  (env_db_fault env (S (ticks w)) = None ->
   exists row,
     fst r = (Some row, None) /\
     db_alerts (snd r) = db_alerts w ++ [row] /\
     Alert_ID row = db_alerts_seq w /\
     Alert_Type row = CreateAlertRequest_Type req /\
     Alert_Value row = CreateAlertRequest_Value req /\
     Alert_Threshold row = CreateAlertRequest_Threshold req /\
     Alert_Severity row
     = calculateSeverity (CreateAlertRequest_Value req) (CreateAlertRequest_Threshold req) /\
     Alert_Status row = AlertActive /\
     Alert_TriggeredAt row = env_now env (ticks w) /\
     Alert_ResolvedAt row = None /\
     active_count (CreateAlertRequest_Type req) (snd r)
     = S (active_count (CreateAlertRequest_Type req) w)).
Proof.
  intros r. subst r. unfold CreateAlert.
  destruct (generateAlertMessage_pure (CreateAlertRequest_Type req)
              (CreateAlertRequest_Value req) (CreateAlertRequest_Threshold req) env w)
    as (message & Hp).
  unfold_M. rewrite Hp. unfold db_Create_alert. simpl. split.
  - intros msg Hf. rewrite Hf. split; reflexivity.
  - intros Hf. rewrite Hf. eexists. split; [reflexivity|]. simpl.
    repeat (split; [reflexivity|]).
    unfold active_count. simpl. rewrite active_of_app, length_app.
    unfold active_of at 2. simpl. unfold where_type_active. simpl.
    rewrite !bool_decide_eq_true_2 by reflexivity. simpl. lia.
Qed.

Lemma check_threshold_never_adds (env : Env) (m : SystemMetrics) (th : MetricThreshold)
    (w : World) (t : MetricType) :
  (active_count t (snd (check_threshold m th env w)) <= max 1 (active_count t w))%nat.
Proof.
  unfold active_count.
  destruct (check_threshold_alerts env m th w)
    as [H | [(row & H & Ht & Hs & Hnone) | (now & upd & H)]]; rewrite H.
  - lia.
  - rewrite active_of_app, length_app.
    assert (length (active_of t [row]) <= 1)%nat
      by (unfold active_of; simpl; destruct (where_type_active t row); simpl; lia).
    destruct (decide (MetricThreshold_Type th = t)) as [<- | Hne].
    + rewrite Hnone. change (length (@nil Alert)) with 0%nat. lia.
    + replace (active_of t [row]) with (@nil Alert);
        [change (length (@nil Alert)) with 0%nat; lia|].
      unfold active_of. simpl. unfold where_type_active.
      rewrite bool_decide_eq_false_2 by congruence. reflexivity.
  - pose proof (active_of_resolve_where_le t (where_type_active (MetricThreshold_Type th))
                  now upd (db_alerts w)). lia.
Qed.

Lemma CheckThresholds_never_adds (env : Env) (m : SystemMetrics) (w : World)
    (t : MetricType) (n : nat) :
  (active_count t w <= max 1 n)%nat ->
  (active_count t (snd (CheckThresholds m env w)) <= max 1 n)%nat.
Proof.
  intros Hle. destruct (env_db_fault env (ticks w)) as [msg|] eqn:E.
  - rewrite (CheckThresholds_fault _ _ _ _ E). exact Hle.
  - rewrite (CheckThresholds_loop _ _ _ E).
    apply (for_range_preserves (fun w => active_count t w <= max 1 n)%nat); [|exact Hle].
    intros th w1 H1. pose proof (check_threshold_never_adds env m th w1 t). lia.
Qed.

(** X2.  Whatever the table holds at the start (also several active alerts
    of one type, as manual creation can leave them), a sequence of automatic
    evaluations never ends with more active alerts of a type than it started
    with, unless it started with none: then with at most one. *)
Theorem evaluations_never_add_to_active (env : Env) (readings : list SystemMetrics)
    (w : World) (t : MetricType) :
  (active_count t (run_evaluations env readings w) <= max 1 (active_count t w))%nat.
Proof.
  assert (H : forall n, (active_count t w <= max 1 n)%nat ->
                        (active_count t (run_evaluations env readings w) <= max 1 n)%nat).
  { intros n. revert w. induction readings as [|m rest IH]; intros w Hle; [exact Hle|].
    simpl. apply IH, CheckThresholds_never_adds, Hle. }
  apply H. lia.
Qed.

(** *** The life of a row *)

Lemma alert_step_refl (a : Alert) : alert_step a a.
Proof. left. reflexivity. Qed.

Lemma alert_step_trans (a b c : Alert) : alert_step a b -> alert_step b c -> alert_step a c.
Proof.
  intros [Hab | Hab] [Hbc | Hbc].
  - left. congruence.
  - subst b. right. exact Hbc.
  - subst c. right. exact Hab.
  - destruct Hab as (_ & Hb & _), Hbc as (Hb' & _). congruence.
Qed.

Lemma evolves_refl (l : list Alert) : evolves l l.
Proof.
  exists l, []. split; [symmetry; apply app_nil_r|].
  apply Forall2_same_length_lookup_2; [reflexivity|].
  intros i x y Hx Hy. rewrite Hx in Hy. injection Hy as <-. apply alert_step_refl.
Qed.

Lemma evolves_trans (l1 l2 l3 : list Alert) : evolves l1 l2 -> evolves l2 l3 -> evolves l1 l3.
Proof.
  intros (o1 & n1 & -> & H1) (o2 & n2 & -> & H2).
  apply Forall2_app_inv_l in H2 as (o2a & o2b & Ha & Hb & ->).
  exists o2a, (o2b ++ n2). split; [symmetry; apply app_assoc|].
  revert o2a Ha. induction H1 as [|a b l o Hab _ IH]; intros o2a Ha.
  - inversion Ha. constructor.
  - inversion Ha as [|? c ? o' Hbc Hrest]; subst. constructor.
    + eapply alert_step_trans; eauto.
    + apply IH, Hrest.
Qed.

Lemma evolves_app (l news : list Alert) : evolves l (l ++ news).
Proof.
  exists l, news. split; [reflexivity|].
  apply Forall2_same_length_lookup_2; [reflexivity|].
  intros i x y Hx Hy. rewrite Hx in Hy. injection Hy as <-. apply alert_step_refl.
Qed.

Lemma evolves_resolved (c : Alert -> bool) (now upd : Time) (l : list Alert) :
  (forall a, c a = true -> Alert_Status a = AlertActive) ->
  evolves l (List.map (resolve_where c now upd) l).
Proof.
  intros Hc. exists (List.map (resolve_where c now upd) l), [].
  split; [symmetry; apply app_nil_r|].
  induction l as [|a l IH]; simpl; constructor; [|exact IH].
  unfold resolve_where. destruct (c a) eqn:E; [|apply alert_step_refl].
  right. simpl. repeat split; eauto.
Qed.

Lemma where_type_active_status (t : MetricType) (a : Alert) :
  where_type_active t a = true -> Alert_Status a = AlertActive.
Proof. intros H. apply where_type_active_true in H. tauto. Qed.

Lemma where_id_active_status (id : Z) (a : Alert) :
  where_id_active id a = true -> Alert_Status a = AlertActive.
Proof.
  unfold where_id_active. rewrite andb_true_iff, !bool_decide_eq_true. tauto.
Qed.

Lemma run_call_evolves (env : Env) (c : ServiceCall) (w : World) :
  evolves (db_alerts w) (db_alerts (run_call env c w)).
Proof.
  destruct c as [m | req | id]; simpl.
  - destruct (env_db_fault env (ticks w)) as [msg|] eqn:E.
    + rewrite (CheckThresholds_fault _ _ _ _ E). apply evolves_refl.
    + rewrite (CheckThresholds_loop _ _ _ E).
      apply (for_range_preserves (fun w' => evolves (db_alerts w) (db_alerts w')));
        [|apply evolves_refl].
      intros th w1 H1. eapply evolves_trans; [exact H1|].
      destruct (check_threshold_alerts env m th w1)
        as [H | [(row & H & _) | (now & upd & H)]]; rewrite H.
      * apply evolves_refl.
      * apply evolves_app.
      * apply evolves_resolved, where_type_active_status.
  - unfold CreateAlert.
    destruct (generateAlertMessage_pure (CreateAlertRequest_Type req)
                (CreateAlertRequest_Value req) (CreateAlertRequest_Threshold req) env w)
      as (message & Hp).
    unfold_M. rewrite Hp. unfold db_Create_alert. simpl.
    destruct (env_db_fault env (S (ticks w))); simpl;
      [apply evolves_refl | apply evolves_app].
  - unfold ResolveAlert. unfold_M. unfold db_Updates_resolved. simpl.
    destruct (env_db_fault env (S (ticks w))); simpl; [apply evolves_refl|].
    case_match; simpl; apply evolves_resolved, where_id_active_status.
Qed.

Lemma run_calls_evolves (env : Env) (calls : list ServiceCall) (w : World) :
  evolves (db_alerts w) (db_alerts (run_calls env calls w)).
Proof.
  revert w. induction calls as [|c rest IH]; intros w; [apply evolves_refl|].
  simpl. eapply evolves_trans; [apply run_call_evolves | apply IH].
Qed.

(** X3.  Under any sequence of evaluations, manual creations and manual
    resolutions, and whatever the database does, the alerts table only grows
    at its end, and a row already there either stays as it is or goes from
    active to resolved with [resolved_at] set, keeping id, type, message,
    value, threshold, severity and [triggered_at].  No row is deleted, and a
    resolved row is never touched again. *)
Theorem alert_rows_only_evolve (env : Env) (calls : list ServiceCall) (w : World) :
  let w' := run_calls env calls w in
  (exists olds news,
     db_alerts w' = olds ++ news /\ Forall2 alert_step (db_alerts w) olds) /\
  (length (db_alerts w) <= length (db_alerts w'))%nat /\
  (forall i a,
     db_alerts w !! i = Some a -> Alert_Status a = AlertResolved ->
     db_alerts w' !! i = Some a).
Proof.
  intros w'. pose proof (run_calls_evolves env calls w) as (olds & news & Heq & Hstep).
  fold w' in Heq. split; [eauto|]. split.
  - rewrite Heq, length_app, <- (Forall2_length _ _ _ Hstep). lia.
  - intros i a Hi Hres.
    destruct (Forall2_lookup_l _ _ _ _ _ Hstep Hi) as (a' & Hi' & [-> | Hact]).
    + rewrite Heq. apply lookup_app_l_Some, Hi'.
    + destruct Hact as (Hact & _). congruence.
Qed.

(** *** Ordered queries *)

(** The first [n] rows of a sorted permutation of [l]. *)
Lemma take_of_sorted {A : Type} (R : relation A) (l s : list A) (n : nat) :
  s ≡ₚ l -> StronglySorted R s ->
  length (take n s) = min n (length l) /\
  (forall x, x ∈ take n s -> x ∈ l) /\
  StronglySorted R (take n s) /\
  (forall x y, x ∈ l -> x ∉ take n s -> y ∈ take n s -> R y x).
Proof.
  intros Hperm Hsorted.
  assert (Hsplit : s = take n s ++ drop n s) by (symmetry; apply take_drop).
  split; [|split; [|split]].
  - rewrite length_take, (Permutation_length Hperm). reflexivity.
  - intros x Hx. rewrite <- Hperm, Hsplit. apply elem_of_app. left. exact Hx.
  - rewrite Hsplit in Hsorted. apply StronglySorted_app_1_l in Hsorted. exact Hsorted.
  - intros x y Hx Hnot Hy. rewrite <- Hperm, Hsplit in Hx.
    apply elem_of_app in Hx as [Hx | Hx]; [contradiction|].
    rewrite Hsplit in Hsorted.
    apply (StronglySorted_app_1_elem_of R _ _ y x Hsorted Hy Hx).
Qed.

(** The whole of a sorted permutation of [l]. *)
Lemma all_of_sorted {A : Type} (R : relation A) (l s : list A) :
  s ≡ₚ l -> StronglySorted R s ->
  length s = length l /\
  (forall x, x ∈ s -> x ∈ l) /\
  StronglySorted R s /\
  (forall x y, x ∈ l -> x ∉ s -> y ∈ s -> R y x).
Proof.
  intros Hperm Hsorted. split; [apply (Permutation_length Hperm)|].
  split; [intros x Hx; rewrite <- Hperm; exact Hx|]. split; [exact Hsorted|].
  intros x y Hx Hnot. rewrite <- Hperm in Hx. contradiction.
Qed.

Lemma filter_all {A : Type} (l : list A) : List.filter (fun _ => true) l = l.
Proof. induction l as [|x l IH]; simpl; [reflexivity | rewrite IH; reflexivity]. Qed.

(** X4.  [GetAlerts] changes no table.  When the query fails it returns no
    row and the wrapped error.  Otherwise it returns alerts of the table with
    the requested status (all alerts for the empty status), newest
    [triggered_at] first; with [limit > 0] at most [limit] of them, and then
    no alert left out is newer than one returned; with [limit <= 0] all of
    them. *)
Theorem GetAlerts_newest_first (o : DBOrder) (env : Env) (w : World)
    (status : string) (limit : Z) :
  db_order_ok o ->
  let matching :=
    List.filter
      (fun a => bool_decide (status = "" \/ AlertStatus_string (Alert_Status a) = status))
      (db_alerts w) in
  let r := GetAlerts o status limit env w in
  snd r = set_ticks (S (ticks w)) w /\
  (forall msg,
     env_db_fault env (ticks w) = Some msg ->
     fst r = ([], Some (ErrorfW "failed to get alerts" (ErrExternal msg)))) /\
  (env_db_fault env (ticks w) = None ->
   exists rows,
     fst r = (rows, None) /\
     length rows
     = (if (0 <? limit)%Z then min (Z.to_nat limit) (length matching)
        else length matching) /\
     (forall a, a ∈ rows -> a ∈ matching) /\
     StronglySorted newest_alert_first rows /\
     (forall a b, a ∈ matching -> a ∉ rows -> b ∈ rows ->
                  (Alert_TriggeredAt a <= Alert_TriggeredAt b)%Z)).
Proof.
  intros [Hord _] matching r. subst r.
  unfold GetAlerts, db_Find_alerts. unfold_M. simpl.
  destruct (env_db_fault env (ticks w)) as [msg|] eqn:E; simpl.
  { split; [reflexivity|]. split; [intros ? [= <-]; reflexivity | discriminate]. }
  assert (Hrows :
    match (if decide (status <> "")
           then {| query_status := Some status; query_limit := None |}
           else {| query_status := None; query_limit := None |})
    with {| query_status := qs |} =>
      match qs with
      | Some status0 =>
          List.filter
            (fun a => bool_decide (AlertStatus_string (Alert_Status a) = status0))
            (db_alerts w)
      | None => db_alerts w
      end
    end = matching).
  { unfold matching. destruct (decide (status <> "")) as [Hne | Heq]; simpl.
    - apply List.filter_ext. intros a. apply bool_decide_ext. tauto.
    - assert (status = "") as -> by (destruct (decide (status = "")); tauto).
      rewrite <- (filter_all (db_alerts w)) at 1.
      apply List.filter_ext. intros a. symmetry. apply bool_decide_eq_true_2. auto. }
  destruct (Hord matching) as [Hperm Hsorted].
  split; [destruct (0 <? limit)%Z, (decide (status <> "")); reflexivity|].
  split; [discriminate|]. intros _.
  destruct (0 <? limit)%Z; destruct (decide (status <> "")); simpl in *;
    rewrite Hrows; eexists; (split; [reflexivity|]);
    first [ exact (take_of_sorted newest_alert_first matching _ (Z.to_nat limit)
                     Hperm Hsorted)
          | exact (all_of_sorted newest_alert_first matching _ Hperm Hsorted) ].
Qed.

(** X5.  [GetMetricHistory] changes no table.  When the query fails it
    returns no row and the wrapped error.  Otherwise it returns readings of
    the requested type, newest timestamp first; with [limit > 0] at most
    [limit] of them, and then no reading left out is newer than one returned;
    with [limit <= 0] all of them. *)
Theorem GetMetricHistory_newest_first (o : DBOrder) (env : Env) (w : World)
    (t : MetricType) (limit : Z) :
  db_order_ok o ->
  let matching := metrics_of t (db_metrics w) in
  let r := GetMetricHistory o t limit env w in
  snd r = set_ticks (S (ticks w)) w /\
  (forall msg,
     env_db_fault env (ticks w) = Some msg ->
     fst r = ([], Some (ErrorfW "failed to get metric history" (ErrExternal msg)))) /\
  (env_db_fault env (ticks w) = None ->
   exists rows,
     fst r = (rows, None) /\
     length rows
     = (if (0 <? limit)%Z then min (Z.to_nat limit) (length matching)
        else length matching) /\
     (forall x, x ∈ rows -> x ∈ matching) /\
     StronglySorted newest_metric_first rows /\
     (forall x y, x ∈ matching -> x ∉ rows -> y ∈ rows ->
                  (Metric_Timestamp x <= Metric_Timestamp y)%Z)).
Proof.
  intros [_ Hord] matching r. subst r.
  unfold GetMetricHistory, db_Find_metrics. unfold_M. simpl.
  destruct (env_db_fault env (ticks w)) as [msg|] eqn:E; simpl.
  { split; [reflexivity|]. split; [intros ? [= <-]; reflexivity | discriminate]. }
  destruct (Hord matching) as [Hperm Hsorted]. fold matching.
  split; [reflexivity|]. split; [discriminate|]. intros _.
  destruct (0 <? limit)%Z; eexists; (split; [reflexivity|]).
  - exact (take_of_sorted newest_metric_first matching _ (Z.to_nat limit) Hperm Hsorted).
  - exact (all_of_sorted newest_metric_first matching _ Hperm Hsorted).
Qed.

(** ** Package metrics *)

(** X6.  When [cpu.Percent] returns an empty slice without an error and the
    memory sample arrives, [collectMetrics] skips the CPU reading, stores the
    memory reading (the database answering) and then panics on
    [cpuPercent[0]] in its last log line, whatever the database does; the
    panic ends the loop of [Start], so no later tick runs a cycle. *)
Theorem collectMetrics_empty_cpu_sample (env : Env) (w : World) (mv : float) :
  env_cpu_Percent env (S (ticks w)) = ([], None) ->
  env_mem_UsedPercent env (S (S (ticks w))) = (mv, None) ->
  let r := collectMetrics env w in
  fst r = Panicked "index out of range [0] with length 0" /\
  (env_db_fault env (S (S (S (ticks w)))) = None ->
   db_metrics (snd r)
   = db_metrics w
     ++ [stamp_metric (db_metrics_seq w) (env_now env (S (S (S (ticks w)))))
           (new_Metric MemoryUsage mv (env_now env (ticks w)))]) /\
  (forall rest,
     Start_loop (TickerC :: rest) env w
     = (Panicked "index out of range [0] with length 0", snd r)).
Proof.
  intros Hcpu Hmem r.
  assert (Hfst : fst r = Panicked "index out of range [0] with length 0").
  { subst r. unfold collectMetrics, cpu_Percent, mem_VirtualMemory, db_Create_metric.
    unfold_M. simpl. rewrite Hcpu. simpl. rewrite Hmem. simpl.
    destruct (env_db_fault env (S (S (S (ticks w))))); reflexivity. }
  split; [exact Hfst|]. split.
  - intros Hdb. subst r.
    unfold collectMetrics, cpu_Percent, mem_VirtualMemory, db_Create_metric.
    unfold_M. simpl. rewrite Hcpu. simpl. rewrite Hmem. simpl. rewrite Hdb. reflexivity.
  - intros rest. cbn [Start_loop]. unfold mbind, M_bind. fold r.
    destruct r as [o w1]. simpl in Hfst. subst o. reflexivity.
Qed.

(** X7.  When both samples arrive, [collectMetrics] returns no error whatever
    the database does: a failed insert is only logged.  With both inserts
    refused the metrics table is unchanged, and the log holds the two
    failures and then the line of the collected values. *)
Theorem collectMetrics_hides_store_failures (env : Env) (w : World)
    (c : float) (cs : list float) (mv : float) :
  env_cpu_Percent env (S (ticks w)) = (c :: cs, None) ->
  env_mem_UsedPercent env (S (S (S (ticks w)))) = (mv, None) ->
  let r := collectMetrics env w in
  fst r = Returned None /\
  (forall m1 m2,
     env_db_fault env (S (S (ticks w))) = Some m1 ->
     env_db_fault env (S (S (S (S (ticks w))))) = Some m2 ->
     db_metrics (snd r) = db_metrics w /\
     log_output (snd r)
     = log_output w
       ++ [LogSaveCPUFailed (ErrExternal m1); LogSaveMemoryFailed (ErrExternal m2);
           LogCollected c mv]).
Proof.
  intros Hcpu Hmem r. subst r.
  unfold collectMetrics, cpu_Percent, mem_VirtualMemory, db_Create_metric.
  unfold_M. simpl. rewrite Hcpu. simpl. split.
  - destruct (env_db_fault env (S (S (ticks w)))); simpl; rewrite Hmem; simpl;
      destruct (env_db_fault env (S (S (S (S (ticks w)))))); reflexivity.
  - intros m1 m2 H1 H2. rewrite H1. simpl. rewrite Hmem. simpl. rewrite H2. simpl.
    split; [reflexivity|]. rewrite <- !app_assoc. reflexivity.
Qed.

Lemma Start_loop_after_stop (stop : Event) (pre post : list Event) (env : Env) (w : World) :
  stop <> TickerC ->
  Start_loop (pre ++ stop :: post) env w = Start_loop (pre ++ [stop]) env w.
Proof.
  intros Hstop. revert w. induction pre as [|e pre IH]; intros w.
  - destruct stop; [reflexivity | reflexivity | contradiction].
  - destruct e; [reflexivity | reflexivity |].
    simpl. unfold mbind, M_bind.
    destruct (collectMetrics env w) as [[[err|]|msg] w1]; [| apply IH | reflexivity].
    change (log_Printf ?l env ?x) with (tt, add_log l x). cbv beta iota. apply IH.
Qed.

(** X8.  [Start] returns at the first cancellation or stop signal it
    receives: what arrives after it, ticks included, has no effect on the
    result, the tables or the log. *)
Theorem Start_ignores_events_after_stop (pre post : list Event) (env : Env) (w : World) :
  Start (pre ++ StopCh :: post) env w = Start (pre ++ [StopCh]) env w /\
  Start (pre ++ CtxDone :: post) env w = Start (pre ++ [CtxDone]) env w.
Proof.
  unfold Start, mbind, M_bind, log_Printf.
  split; apply Start_loop_after_stop; discriminate.
Qed.

Lemma collectMetrics_empty_cpu_sample_witness :
  fst (collectMetrics env_cpu_empty world_empty)
  = Panicked "index out of range [0] with length 0".
Proof.
  refine (proj1 (collectMetrics_empty_cpu_sample env_cpu_empty world_empty 61 _ _)).
  - reflexivity.
  - reflexivity.
Defined.

Lemma collectMetrics_hides_store_failures_witness :
  fst (collectMetrics env_db_down world_empty) = Returned None.
Proof.
  refine (proj1 (collectMetrics_hides_store_failures env_db_down world_empty
                   42.5 [] 61 _ _)).
  - reflexivity.
  - reflexivity.
Defined.

(** *** [InitializeThresholds] *)

Lemma count_zero_absent (t : MetricType) (l : list MetricThreshold) :
  (Z.of_nat (length (List.filter (fun th => bool_decide (MetricThreshold_Type th = t)) l))
   =? 0)%Z = true
  <-> ~ List.In t (types_of l).
Proof.
  rewrite Z.eqb_eq. unfold types_of. induction l as [|x l IH]; simpl.
  - split; [tauto | reflexivity].
  - destruct (decide (MetricThreshold_Type x = t)) as [He | Hne].
    + rewrite bool_decide_eq_true_2 by exact He. simpl. split; [lia | tauto].
    + rewrite bool_decide_eq_false_2 by exact Hne. rewrite IH. tauto.
Qed.

(** What the loop does to the world, whatever the database does. *)
Lemma InitializeThresholds_loop_adds (serial : list MetricThreshold -> Z)
    (ds : list (MetricType * float)) (env : Env) (w : World) :
  let w' := snd (InitializeThresholds_loop serial ds env w) in
  (exists added,
     db_metric_thresholds w' = db_metric_thresholds w ++ added /\
     List.Forall
       (fun th => MetricThreshold_Enabled th = true /\
                  List.In (MetricThreshold_Type th, MetricThreshold_Threshold th) ds /\
                  ~ List.In (MetricThreshold_Type th) (types_of (db_metric_thresholds w)))
       added) /\
  (List.NoDup (types_of (db_metric_thresholds w)) ->
   List.NoDup (types_of (db_metric_thresholds w'))) /\
  db_alerts w' = db_alerts w /\ db_metrics w' = db_metrics w.
Proof.
  revert w. induction ds as [|[t thr] ds IH]; intros w; simpl.
  { split; [exists []; split; [symmetry; apply app_nil_r | constructor]|]. auto. }
  unfold mbind, M_bind, db_Count_thresholds.
  destruct (env_db_fault env (ticks w)) as [msg|]; simpl.
  { split; [exists []; split; [symmetry; apply app_nil_r | constructor]|]. auto. }
  destruct (Z.of_nat _ =? 0)%Z eqn:Hcount.
  - apply count_zero_absent in Hcount.
    unfold db_Insert_threshold. simpl.
    destruct (env_db_fault env (S (ticks w))) as [msg|]; simpl.
    { split; [exists []; split; [symmetry; apply app_nil_r | constructor]|]. auto. }
    match goal with
    | |- context [InitializeThresholds_loop serial ds env ?w1] =>
        specialize (IH w1); destruct (InitializeThresholds_loop serial ds env w1)
          as [[logs err] w2]
    end.
    simpl in *. destruct IH as ((added & Heq & Hall) & Hnd & Ha & Hm).
    split; [|split; [|auto]].
    + eexists (_ :: added). rewrite Heq, <- app_assoc. split; [reflexivity|].
      constructor; [simpl; auto|].
      eapply List.Forall_impl; [|exact Hall]. simpl.
      intros th (He & Hin & Hnot). split; [exact He|]. split; [auto|].
      intros Hin'. apply Hnot. unfold types_of. rewrite List.map_app.
      apply List.in_or_app. left. exact Hin'.
    + intros Hw. apply Hnd. unfold types_of. rewrite List.map_app. simpl.
      apply NoDup_ListNoDup, NoDup_app. repeat split.
      * apply NoDup_ListNoDup. exact Hw.
      * intros x Hx Hx'. apply list_elem_of_In in Hx.
        apply list_elem_of_singleton in Hx'. subst x. contradiction.
      * apply NoDup_singleton.
  - match goal with
    | |- context [InitializeThresholds_loop serial ds env ?w1] =>
        specialize (IH w1); destruct (InitializeThresholds_loop serial ds env w1)
          as [[logs err] w2]
    end.
    simpl in *. destruct IH as ((added & Heq & Hall) & Hnd & Ha & Hm).
    split; [|auto]. exists added. split; [exact Heq|].
    eapply List.Forall_impl; [|exact Hall]. simpl. intros th (He & Hin & Hnot). auto.
Qed.

(** X9.  Whatever the database does, [InitializeThresholds] only appends to
    the thresholds table: the rows it adds are enabled, carry a default (80
    for CPU, 75 for memory) and have a type that had no row before, so an
    existing threshold is never overwritten, re-enabled or duplicated; a
    table with one row per type keeps that property.  Alerts and readings
    are not touched. *)
Theorem InitializeThresholds_only_adds_missing (serial : list MetricThreshold -> Z)
    (env : Env) (w : World) :
  let w' := snd (InitializeThresholds serial env w) in
  (exists added,
     db_metric_thresholds w' = db_metric_thresholds w ++ added /\
     List.Forall
       (fun th =>
          MetricThreshold_Enabled th = true /\
          ((MetricThreshold_Type th = CPUUsage /\ MetricThreshold_Threshold th = 80%float) \/
           (MetricThreshold_Type th = MemoryUsage /\ MetricThreshold_Threshold th = 75%float)) /\
          ~ List.In (MetricThreshold_Type th)
              (List.map MetricThreshold_Type (db_metric_thresholds w)))
       added) /\
  (List.NoDup (List.map MetricThreshold_Type (db_metric_thresholds w)) ->
   List.NoDup (List.map MetricThreshold_Type (db_metric_thresholds w'))) /\
  db_alerts w' = db_alerts w /\ db_metrics w' = db_metrics w.
Proof.
  intros w'. subst w'. unfold InitializeThresholds.
  destruct (InitializeThresholds_loop_adds serial default_thresholds env w)
    as ((added & Heq & Hall) & Hnd & Ha & Hm).
  split; [|auto]. exists added. split; [exact Heq|].
  eapply List.Forall_impl; [|exact Hall]. simpl.
  intros th (He & Hin & Hnot). split; [exact He|]. split; [|exact Hnot].
  destruct Hin as [Hin | [Hin | []]]; injection Hin as <- <-; auto.
Qed.

(** With every type present and the database answering, the loop does nothing. *)
Lemma InitializeThresholds_loop_present (serial : list MetricThreshold -> Z)
    (ds : list (MetricType * float)) (env : Env) (w : World) :
  healthy env ->
  (forall d, List.In d ds -> List.In (fst d) (types_of (db_metric_thresholds w))) ->
  fst (InitializeThresholds_loop serial ds env w) = ([], None) /\
  db_metric_thresholds (snd (InitializeThresholds_loop serial ds env w))
  = db_metric_thresholds w.
Proof.
  intros Hh. revert w. induction ds as [|[t thr] ds IH]; intros w Hall; simpl; [auto|].
  unfold mbind, M_bind, db_Count_thresholds. rewrite Hh. simpl.
  destruct (Z.of_nat _ =? 0)%Z eqn:Hcount.
  - apply count_zero_absent in Hcount. exfalso. apply Hcount.
    apply (Hall (t, thr)). left. reflexivity.
  - apply (IH (set_ticks (S (ticks w)) w)). intros d Hd. apply Hall. right. exact Hd.
Qed.

(** With the database answering, every default type has a row afterwards. *)
Lemma InitializeThresholds_loop_establishes (serial : list MetricThreshold -> Z)
    (ds : list (MetricType * float)) (env : Env) (w : World) :
  healthy env ->
  snd (fst (InitializeThresholds_loop serial ds env w)) = None /\
  forall d, List.In d ds ->
    List.In (fst d)
      (types_of (db_metric_thresholds (snd (InitializeThresholds_loop serial ds env w)))).
Proof.
  intros Hh. revert w. induction ds as [|[t thr] ds IH]; intros w; simpl.
  { split; [reflexivity | intros d []]. }
  unfold mbind, M_bind, db_Count_thresholds. rewrite Hh. simpl.
  destruct (Z.of_nat _ =? 0)%Z eqn:Hcount.
  - unfold db_Insert_threshold. simpl. rewrite Hh. simpl.
    match goal with
    | |- context [InitializeThresholds_loop serial ds env ?w1] =>
        pose proof (IH w1) as [He Hin];
        pose proof (InitializeThresholds_loop_adds serial ds env w1) as ((added & Heq & _) & _);
        destruct (InitializeThresholds_loop serial ds env w1) as [[logs err] w2]
    end.
    simpl in *. split; [exact He|]. intros d [<- | Hd]; [|apply Hin, Hd].
    rewrite Heq. unfold types_of. rewrite !List.map_app. simpl.
    apply List.in_or_app. left. apply List.in_or_app. right. left. reflexivity.
  - match goal with
    | |- context [InitializeThresholds_loop serial ds env ?w1] =>
        pose proof (IH w1) as [He Hin];
        pose proof (InitializeThresholds_loop_adds serial ds env w1) as ((added & Heq & _) & _);
        destruct (InitializeThresholds_loop serial ds env w1) as [[logs err] w2]
    end.
    simpl in *. split; [exact He|]. intros d [<- | Hd]; [|apply Hin, Hd].
    rewrite Heq. unfold types_of. rewrite List.map_app.
    apply List.in_or_app. left.
    destruct (Z.of_nat _ =? 0)%Z eqn:Hc in Hcount; [discriminate|].
    destruct (List.in_dec string_dec t (List.map MetricThreshold_Type (db_metric_thresholds w)))
      as [Hin' | Hnot]; [exact Hin'|].
    apply count_zero_absent in Hnot. simpl in Hnot. congruence.
Qed.

(** X10.  With the database answering, [InitializeThresholds] returns no
    error and leaves a threshold row for CPU and one for memory; run again, it
    returns no error, prints nothing and leaves the table as the first run
    left it. *)
Theorem InitializeThresholds_idempotent (serial : list MetricThreshold -> Z)
    (env : Env) (w : World) :
  healthy env ->
  let r1 := InitializeThresholds serial env w in
  let r2 := InitializeThresholds serial env (snd r1) in
  snd (fst r1) = None /\
  List.In CPUUsage (List.map MetricThreshold_Type (db_metric_thresholds (snd r1))) /\
  List.In MemoryUsage (List.map MetricThreshold_Type (db_metric_thresholds (snd r1))) /\
  fst r2 = ([], None) /\
  db_metric_thresholds (snd r2) = db_metric_thresholds (snd r1).
Proof.
  intros Hh r1 r2. subst r1 r2. unfold InitializeThresholds.
  destruct (InitializeThresholds_loop_establishes serial default_thresholds env w Hh)
    as [He Hin].
  split; [exact He|].
  split; [apply (Hin (CPUUsage, 80%float)); left; reflexivity|].
  split; [apply (Hin (MemoryUsage, 75%float)); right; left; reflexivity|].
  apply InitializeThresholds_loop_present; [exact Hh | exact Hin].
Qed.

Lemma InitializeThresholds_idempotent_witness :
  fst (InitializeThresholds (fun l => Z.of_nat (length l) + 1)%Z env_ok
         (snd (InitializeThresholds (fun l => Z.of_nat (length l) + 1)%Z env_ok
                 world_empty)))
  = ([], None).
Proof.
  refine (proj1 (proj2 (proj2 (proj2
            (InitializeThresholds_idempotent (fun l => Z.of_nat (length l) + 1)%Z
               env_ok world_empty _))))).
  exact env_ok_healthy.
Defined.

(** ** Package main: the alert monitor *)

Lemma ignores_metrics_ret {A : Type} (a : A) : ignores_metrics (mret a).
Proof. intros l seq env w. reflexivity. Qed.

Lemma ignores_metrics_bind {A B : Type} (f : M A) (g : A -> M B) :
  ignores_metrics f -> (forall a, ignores_metrics (g a)) -> ignores_metrics (f ≫= g).
Proof.
  intros Hf Hg l seq env w. unfold mbind, M_bind. rewrite Hf.
  destruct (f env w) as [a w1]. simpl. rewrite Hg.
  destruct (g a env w1) as [b w2]. reflexivity.
Qed.

Ltac ignores_prim :=
  let l := fresh "l" in let seq := fresh "seq" in
  let env := fresh "env" in let w := fresh "w" in
  intros l seq env w; cbv beta delta [time_Now sprintf_2f log_Printf cpu_Percent
    mem_VirtualMemory db_Find_enabled_thresholds db_First_alert db_Create_alert
    db_Updates_resolved]; simpl;
  repeat case_match; reflexivity.

Lemma ignores_metrics_time_Now : ignores_metrics time_Now.
Proof. ignores_prim. Qed.

Lemma ignores_metrics_sprintf (x : float) : ignores_metrics (sprintf_2f x).
Proof. ignores_prim. Qed.

Lemma ignores_metrics_log (l : LogLine) : ignores_metrics (log_Printf l).
Proof. ignores_prim. Qed.

Lemma ignores_metrics_cpu : ignores_metrics cpu_Percent.
Proof. ignores_prim. Qed.

Lemma ignores_metrics_mem : ignores_metrics mem_VirtualMemory.
Proof. ignores_prim. Qed.

Lemma ignores_metrics_Find_thresholds : ignores_metrics db_Find_enabled_thresholds.
Proof. ignores_prim. Qed.

Lemma ignores_metrics_First (c : Alert -> bool) : ignores_metrics (db_First_alert c).
Proof. ignores_prim. Qed.

Lemma ignores_metrics_Create (a : Alert) : ignores_metrics (db_Create_alert a).
Proof. ignores_prim. Qed.

Lemma ignores_metrics_Updates (c : Alert -> bool) (now : Time) :
  ignores_metrics (db_Updates_resolved c now).
Proof. ignores_prim. Qed.

Ltac ignores_step :=
  repeat first
    [ apply ignores_metrics_ret
    | apply ignores_metrics_time_Now
    | apply ignores_metrics_sprintf
    | apply ignores_metrics_log
    | apply ignores_metrics_cpu
    | apply ignores_metrics_mem
    | apply ignores_metrics_Find_thresholds
    | apply ignores_metrics_First
    | apply ignores_metrics_Create
    | apply ignores_metrics_Updates
    | apply ignores_metrics_bind; [|intros ?]
    | case_match
    | case_decide ].

Lemma ignores_metrics_resolveActiveAlerts (t : MetricType) :
  ignores_metrics (resolveActiveAlerts t).
Proof. unfold resolveActiveAlerts. ignores_step. Qed.

Lemma ignores_metrics_generateAlertMessage (t : MetricType) (v thr : float) :
  ignores_metrics (generateAlertMessage t v thr).
Proof. unfold generateAlertMessage. ignores_step. Qed.

Lemma ignores_metrics_check_threshold (m : SystemMetrics) (th : MetricThreshold) :
  ignores_metrics (check_threshold m th).
Proof.
  unfold check_threshold.
  destruct (currentValue_of m (MetricThreshold_Type th)); [|apply ignores_metrics_ret].
  destruct (_ <? _)%float; [|apply ignores_metrics_resolveActiveAlerts].
  apply ignores_metrics_bind; [apply ignores_metrics_First|]. intros found.
  destruct (snd found) as [[]|]; try apply ignores_metrics_ret.
  apply ignores_metrics_bind; [apply ignores_metrics_generateAlertMessage|]. intros msg.
  ignores_step.
Qed.

Lemma ignores_metrics_for_range {A : Type} (xs : list A) (body : A -> M unit) :
  (forall x, ignores_metrics (body x)) -> ignores_metrics (for_range xs body).
Proof.
  intros Hbody. induction xs as [|x xs IH]; simpl; [apply ignores_metrics_ret|].
  apply ignores_metrics_bind; [apply Hbody | intros _; exact IH].
Qed.

Lemma ignores_metrics_CheckThresholds (m : SystemMetrics) :
  ignores_metrics (CheckThresholds m).
Proof.
  unfold CheckThresholds.
  apply ignores_metrics_bind; [apply ignores_metrics_Find_thresholds|]. intros found.
  destruct (snd found); [apply ignores_metrics_ret|].
  apply ignores_metrics_bind; [|intros _; apply ignores_metrics_ret].
  apply ignores_metrics_for_range. intros th. apply ignores_metrics_check_threshold.
Qed.

Lemma ignores_metrics_GetCurrentMetrics : ignores_metrics GetCurrentMetrics.
Proof. unfold GetCurrentMetrics. ignores_step. Qed.

Lemma ignores_metrics_monitor_loop (events : list MonitorEvent) :
  ignores_metrics (monitor_loop events).
Proof.
  induction events as [|e events IH]; simpl; [apply ignores_metrics_ret|].
  destruct e; [apply ignores_metrics_ret|].
  apply ignores_metrics_bind; [apply ignores_metrics_GetCurrentMetrics|].
  intros [[m|] [e|]].
  - apply ignores_metrics_bind; [exact IH | intros ?; apply ignores_metrics_ret].
  - apply ignores_metrics_bind; [apply ignores_metrics_CheckThresholds|]. intros [e|].
    + apply ignores_metrics_bind; [exact IH | intros ?; apply ignores_metrics_ret].
    + exact IH.
  - apply ignores_metrics_bind; [exact IH | intros ?; apply ignores_metrics_ret].
  - exact IH.
Qed.

Lemma GetCurrentMetrics_tables (env : Env) (w : World) :
  db_alerts (snd (GetCurrentMetrics env w)) = db_alerts w /\
  db_metrics (snd (GetCurrentMetrics env w)) = db_metrics w /\
  db_metric_thresholds (snd (GetCurrentMetrics env w)) = db_metric_thresholds w.
Proof.
  unfold GetCurrentMetrics, cpu_Percent, mem_VirtualMemory. unfold_M. simpl.
  repeat case_match; simpl; auto.
Qed.

Lemma monitor_loop_at_most_one (env : Env) (events : list MonitorEvent) (t : MetricType) :
  forall w,
    (active_count t w <= 1)%nat ->
    (active_count t (snd (monitor_loop events env w)) <= 1)%nat.
Proof.
  induction events as [|e events IH]; intros w Hle; [exact Hle|].
  destruct e; [exact Hle|]. simpl. unfold mbind, M_bind.
  pose proof (GetCurrentMetrics_tables env w) as (Ha & _).
  destruct (GetCurrentMetrics env w) as [[[m|] [e|]] w1]; simpl in Ha.
  - assert (H1 : (active_count t w1 <= 1)%nat) by (unfold active_count; rewrite Ha; exact Hle).
    specialize (IH w1 H1). destruct (monitor_loop events env w1). exact IH.
  - assert (H1 : (active_count t w1 <= 1)%nat) by (unfold active_count; rewrite Ha; exact Hle).
    pose proof (CheckThresholds_at_most_one env m w1 t H1) as H2.
    destruct (CheckThresholds m env w1) as [[e|] w2]; simpl in H2.
    + specialize (IH w2 H2). destruct (monitor_loop events env w2). exact IH.
    + apply IH, H2.
  - assert (H1 : (active_count t w1 <= 1)%nat) by (unfold active_count; rewrite Ha; exact Hle).
    specialize (IH w1 H1). destruct (monitor_loop events env w1). exact IH.
  - apply IH. unfold active_count. rewrite Ha. exact Hle.
Qed.

(** X11.  The alert monitor of [main] evaluates the thresholds on a fresh
    sample: it neither reads nor writes the metrics table, so the alerts it
    leaves do not depend on the stored readings.  Over any run of ticks, with
    samples or the database failing at any point, a metric type that starts
    with at most one active alert ends with at most one. *)
Theorem monitor_uses_fresh_samples (env : Env) (events : list MonitorEvent) (w : World) :
  (forall t, (active_count t w <= 1)%nat ->
             (active_count t (snd (monitor_loop events env w)) <= 1)%nat) /\
  db_metrics (snd (monitor_loop events env w)) = db_metrics w /\
  (forall l seq,
     db_alerts (snd (monitor_loop events env (set_metrics l seq w)))
     = db_alerts (snd (monitor_loop events env w)) /\
     fst (monitor_loop events env (set_metrics l seq w))
     = fst (monitor_loop events env w)).
Proof.
  split; [intros t; apply monitor_loop_at_most_one|].
  pose proof (ignores_metrics_monitor_loop events) as Hign. split.
  - specialize (Hign (db_metrics w) (db_metrics_seq w) env w).
    assert (Hw : set_metrics (db_metrics w) (db_metrics_seq w) w = w) by (destruct w; reflexivity).
    rewrite Hw in Hign. apply (f_equal snd) in Hign. simpl in Hign.
    rewrite Hign at 1. reflexivity.
  - intros l seq. rewrite (Hign l seq env w). split; reflexivity.
Qed.

(** ** Package logs *)

Lemma ParseLine_level (line : string) (entry : LogEntry) :
  ParseLine line = Some entry -> LogEntry_Level entry ∈ [INFO; WARN; ERROR; DEBUG].
Proof.
  intros H. destruct (match_prefixed line) as [lv|] eqn:Ep.
  - apply match_prefixed_iff in Ep.
    destruct (ParseLine_prefixed line lv Ep) as (after & _ & H').
    rewrite H' in H. injection H as <-. simpl. apply is_level_word_upper, Ep.
  - destruct (ParseLine_Some line entry H) as [Htag | (lv & Hp)].
    + destruct (ParseLine_bracketed line) as (pre & lv & after & Hat & _ & _ & H');
        [|exact Htag|].
      { intros (lv & Hp). apply match_prefixed_iff in Hp. congruence. }
      rewrite H' in H. injection H as <-. simpl. apply is_level_word_upper, Hat.
    + apply match_prefixed_iff in Hp. congruence.
Qed.

(** The level a line adds to the level counters, if any. *)
Lemma parsed_entries_cons (text : string) (lines : list string) :
  parsed_entries (text :: lines)
  = match (if decide (TrimSpace text = "") then None else ParseLine (TrimSpace text)) with
    | Some e => e :: parsed_entries lines
    | None => parsed_entries lines
    end.
Proof. reflexivity. Qed.

Lemma parsed_entries_length (lines : list string) :
  (length (parsed_entries lines) <= length lines)%nat.
Proof.
  induction lines as [|text lines IH]; [reflexivity|].
  rewrite parsed_entries_cons. repeat case_match; simpl; lia.
Qed.

Lemma entry_levels_four (lines : list string) :
  Forall (fun lv => lv ∈ [INFO; WARN; ERROR; DEBUG]) (entry_levels lines).
Proof.
  unfold entry_levels. induction lines as [|text lines IH]; [constructor|].
  rewrite parsed_entries_cons.
  destruct (decide (TrimSpace text = "")); [exact IH|].
  destruct (ParseLine (TrimSpace text)) as [e|] eqn:E; [|exact IH].
  simpl. constructor; [apply (ParseLine_level _ _ E) | exact IH].
Qed.

Lemma scan_LevelCounts_fold (lines : list string) (st : ScanState) :
  scan_LevelCounts (foldl scan_line st lines)
  = count_all (scan_LevelCounts st) (entry_levels lines).
Proof.
  revert st. unfold entry_levels.
  induction lines as [|text lines IH]; intros st; [reflexivity|].
  simpl foldl. rewrite IH, parsed_entries_cons. unfold scan_line.
  destruct (decide (TrimSpace text = "")); [reflexivity|].
  destruct (ParseLine (TrimSpace text)) as [e|]; reflexivity.
Qed.

Lemma scan_TotalEntries_fold (lines : list string) (st : ScanState) :
  (0 <= scan_TotalEntries st)%Z ->
  (scan_TotalEntries st + Z.of_nat (length lines) < 2 ^ 63)%Z ->
  scan_TotalEntries (foldl scan_line st lines)
  = (scan_TotalEntries st + Z.of_nat (length (parsed_entries lines)))%Z.
Proof.
  revert st. induction lines as [|text lines IH]; intros st H0 Hb.
  - simpl. lia.
  - simpl foldl. simpl length in Hb. rewrite parsed_entries_cons. unfold scan_line.
    destruct (decide (TrimSpace text = "")); [apply IH; lia|].
    destruct (ParseLine (TrimSpace text)) as [e|]; [|apply IH; lia].
    rewrite IH; simpl scan_TotalEntries; rewrite int_add_no_overflow by lia;
      simpl length; lia.
Qed.

Lemma frequency_four (levels : list string) :
  Forall (fun lv => lv ∈ [INFO; WARN; ERROR; DEBUG]) levels ->
  length levels
  = (frequency INFO levels + frequency WARN levels
     + frequency ERROR levels + frequency DEBUG levels)%nat.
Proof.
  induction 1 as [|lv levels Hlv _ IH]; [reflexivity|].
  rewrite !frequency_cons. simpl length. rewrite IH.
  unfold INFO, WARN, ERROR, DEBUG in *.
  repeat (apply elem_of_cons in Hlv as [-> | Hlv]); [| | | | inversion Hlv];
    repeat (destruct (decide _); try congruence); lia.
Qed.

Lemma error_messages_frequency (lines : list string) :
  length (error_messages lines) = frequency ERROR (entry_levels lines).
Proof.
  unfold error_messages, frequency, entry_levels. rewrite length_map.
  induction (parsed_entries lines) as [|e es IH]; [reflexivity|].
  simpl. destruct (decide (LogEntry_Level e = ERROR)) as [He | He].
  - rewrite !bool_decide_eq_true_2 by exact He. simpl. rewrite IH. reflexivity.
  - rewrite !bool_decide_eq_false_2 by exact He. exact IH.
Qed.

(** X12.  For a file read to its end (fewer than 2^63 lines), whatever the
    runtime: [total_entries] is the number of lines that were parsed into an
    entry; the count of a level is the number of entries of that level; only
    INFO, WARN, ERROR and DEBUG occur as keys; the four counts add up to
    [total_entries]; and the ERROR count is the number of messages that went
    into the error frequencies. *)
Theorem level_counts_add_up (rt : GoRuntime) (fs : string -> os_Open_result)
    (filePath : string) (file : ScannedFile) :
  fs filePath = inl file ->
  scanner_Err file = None ->
  (Z.of_nat (length (scanned_lines file)) < 2 ^ 63)%Z ->
  exists stats,
    ParseLogFile rt fs filePath = (Some stats, None) /\
    let levels := entry_levels (scanned_lines file) in
    let count := count_of (LogStats_LevelCounts stats) in
    LogStats_TotalEntries stats = Z.of_nat (length levels) /\
    (forall lv, count lv = Z.of_nat (frequency lv levels)) /\
    (forall lv, is_Some (LogStats_LevelCounts stats !! lv) ->
                lv ∈ [INFO; WARN; ERROR; DEBUG]) /\
    LogStats_TotalEntries stats = (count INFO + count WARN + count ERROR + count DEBUG)%Z /\
    count ERROR = Z.of_nat (length (error_messages (scanned_lines file))).
Proof.
  intros Hfs Herr Hlen. unfold ParseLogFile. rewrite Hfs, Herr.
  eexists. split; [reflexivity|]. cbn [LogStats_LevelCounts LogStats_TotalEntries].
  rewrite scan_LevelCounts_fold, scan_TotalEntries_fold by (simpl; lia).
  cbn [scan_init scan_LevelCounts scan_TotalEntries].
  set (levels := entry_levels (scanned_lines file)).
  assert (Hl : length levels = length (parsed_entries (scanned_lines file)))
    by (unfold levels, entry_levels; apply length_map).
  assert (Hb : (Z.of_nat (length levels) < 2 ^ 63)%Z).
  { pose proof (parsed_entries_length (scanned_lines file)). lia. }
  assert (Hcount : forall lv,
            count_of (count_all ∅ levels) lv = Z.of_nat (frequency lv levels)).
  { intros lv. unfold count_of. rewrite count_all_empty_lookup by exact Hb.
    destruct (decide (frequency lv levels = 0)%nat) as [-> | ?]; reflexivity. }
  split; [lia|]. split; [exact Hcount|]. split; [|split].
  - intros lv [n Hn]. rewrite count_all_empty_lookup in Hn by exact Hb.
    destruct (decide (frequency lv levels = 0)%nat) as [|Hne]; [discriminate|].
    assert (Hin : lv ∈ levels) by (apply frequency_pos; lia).
    pose proof (entry_levels_four (scanned_lines file)) as Hfour.
    rewrite Forall_forall in Hfour. apply Hfour, Hin.
  - rewrite !Hcount, <- Hl.
    rewrite (frequency_four levels (entry_levels_four (scanned_lines file))) at 1. lia.
  - rewrite Hcount, error_messages_frequency. reflexivity.
Qed.


(** X14.  An entry never has an empty message: when nothing follows the
    level tag, the message is the whole line, and a line with a tag is not
    empty. *)
Theorem ParseLine_message_not_empty (line : string) :
  match ParseLine line with
  | Some entry => LogEntry_Message entry <> ""
  | None => True
  end.
Proof.
  destruct (ParseLine line) as [entry|] eqn:E; [|exact I].
  unfold ParseLine in E.
  destruct (decide (length (FindStringSubmatch line) = 0%nat)) as [|Hlen]; [discriminate|].
  destruct (if decide (nth 1 (FindStringSubmatch line) "" <> "") then _ else _)
    as [level message].
  injection E as <-. simpl.
  destruct (decide (message = "")) as [_ | Hm]; [|exact Hm].
  intros ->. apply Hlen. reflexivity.
Qed.

Lemma level_counts_add_up_witness :
  exists stats,
    ParseLogFile runtime_merge_sort example_fs "app.log" = (Some stats, None) /\
    LogStats_TotalEntries stats = Z.of_nat (length (entry_levels example_lines)).
Proof.
  destruct (level_counts_add_up runtime_merge_sort example_fs "app.log"
              {| scanned_lines := example_lines; scanner_Err := None |}
              eq_refl eq_refl) as (stats & H1 & H2 & _).
  - vm_compute. reflexivity.
  - exists stats. split; [exact H1 | exact H2].
Defined.


#[local] Instance newest_alert_first_total : Total newest_alert_first.
Proof. intros x y. unfold newest_alert_first. lia. Qed.

#[local] Instance newest_alert_first_trans : Transitive newest_alert_first.
Proof. intros x y z. unfold newest_alert_first. lia. Qed.

#[local] Instance newest_metric_first_total : Total newest_metric_first.
Proof. intros x y. unfold newest_metric_first. lia. Qed.

#[local] Instance newest_metric_first_trans : Transitive newest_metric_first.
Proof. intros x y z. unfold newest_metric_first. lia. Qed.

Lemma order_merge_sort_ok : db_order_ok order_merge_sort.
Proof.
  split; intros l; (split; [apply merge_sort_Permutation|]);
    apply StronglySorted_merge_sort; apply _.
Defined.

(** The active alerts of a table with one active CPU alert, at most ten. *)
Lemma GetAlerts_newest_first_witness :
  snd (GetAlerts order_merge_sort "active" 10 env_ok world_cpu_active)
  = set_ticks 1 world_cpu_active.
Proof.
  exact (proj1 (GetAlerts_newest_first order_merge_sort env_ok world_cpu_active
                  "active" 10 order_merge_sort_ok)).
Defined.

(** The CPU history of an empty table, without a limit. *)
Lemma GetMetricHistory_newest_first_witness :
  snd (GetMetricHistory order_merge_sort CPUUsage 0 env_ok world_empty)
  = set_ticks 1 world_empty.
Proof.
  exact (proj1 (GetMetricHistory_newest_first order_merge_sort env_ok world_empty
                  CPUUsage 0 order_merge_sort_ok)).
Defined.

(** ** The error frequencies and the ERROR count *)

Lemma sum_counts_Permutation (l l' : list ErrorFrequency) :
  l ≡ₚ l' -> sum_counts l = sum_counts l'.
Proof.
  induction 1 as [|x l l' _ IH|x y l|l l' l'' _ IH1 _ IH2]; simpl.
  - reflexivity.
  - rewrite IH. reflexivity.
  - lia.
  - congruence.
Qed.

Lemma sum_counts_app (l l' : list ErrorFrequency) :
  sum_counts (l ++ l') = (sum_counts l + sum_counts l')%Z.
Proof. induction l as [|x l IH]; simpl; [reflexivity | rewrite IH; lia]. Qed.

Lemma sum_counts_insert_fresh (m : gmap string Z) (k : string) (v : Z) :
  m !! k = None ->
  sum_counts (entry_of <$> map_to_list (<[k := v]> m))
  = (v + sum_counts (entry_of <$> map_to_list m))%Z.
Proof.
  intros H. rewrite (sum_counts_Permutation _ (entry_of <$> ((k, v) :: map_to_list m))).
  - reflexivity.
  - apply fmap_Permutation, map_to_list_insert, H.
Qed.

Lemma sum_counts_insert (m : gmap string Z) (k : string) (v : Z) :
  sum_counts (entry_of <$> map_to_list (<[k := v]> m))
  = (v - default 0 (m !! k) + sum_counts (entry_of <$> map_to_list m))%Z.
Proof.
  destruct (m !! k) as [v0|] eqn:E.
  - rewrite <- (insert_delete_eq m k v).
    rewrite <- (insert_delete_id m k v0 E) at 2.
    rewrite !sum_counts_insert_fresh by apply lookup_delete_eq. simpl. lia.
  - rewrite sum_counts_insert_fresh by exact E. simpl. lia.
Qed.

Lemma sum_counts_count_all (msgs : list string) (m0 : gmap string Z) :
  (forall j, 0 <= default 0 (m0 !! j)
             /\ default 0 (m0 !! j) + Z.of_nat (length msgs) < 2 ^ 63)%Z ->
  sum_counts (entry_of <$> map_to_list (count_all m0 msgs))
  = (sum_counts (entry_of <$> map_to_list m0) + Z.of_nat (length msgs))%Z.
Proof.
  revert m0. induction msgs as [|x msgs IH]; intros m0 Hb.
  - simpl. lia.
  - change (count_all m0 (x :: msgs)) with (count_all (map_incr x m0) msgs).
    simpl length in *. rewrite IH.
    + unfold map_incr. rewrite sum_counts_insert.
      rewrite int_add_no_overflow by (specialize (Hb x); lia). lia.
    + intros j. unfold map_incr. destruct (decide (j = x)) as [-> | Hne].
      * rewrite lookup_insert_eq. simpl.
        rewrite int_add_no_overflow by (specialize (Hb x); lia).
        specialize (Hb x). lia.
      * rewrite lookup_insert_ne by congruence. specialize (Hb j). lia.
Qed.

Lemma sum_counts_pos (l : list ErrorFrequency) :
  (forall ef, ef ∈ l -> 0 < ErrorFrequency_Count ef)%Z ->
  l <> [] -> (0 < sum_counts l)%Z.
Proof.
  induction l as [|x l IH]; intros Hpos Hne; [congruence|].
  simpl. assert (0 < ErrorFrequency_Count x)%Z by (apply Hpos; left).
  destruct l as [|y l]; [simpl; lia|].
  assert (0 < sum_counts (y :: l))%Z; [|lia].
  apply IH; [intros ef Hef; apply Hpos; right; exact Hef | discriminate].
Qed.

(** X15.  For a file read to its end (fewer than 2^63 lines): the counts of
    [top_errors] never add up to more than the ERROR count of the level
    counters; they add up to it when the file has at most five distinct error
    messages, and to less when it has more. *)
Theorem top_errors_within_error_count (rt : GoRuntime) (fs : string -> os_Open_result)
    (filePath : string) (file : ScannedFile) :
  runtime_ok rt ->
  fs filePath = inl file ->
  scanner_Err file = None ->
  (Z.of_nat (length (scanned_lines file)) < 2 ^ 63)%Z ->
  exists stats,
    ParseLogFile rt fs filePath = (Some stats, None) /\
    let errors := count_of (LogStats_LevelCounts stats) ERROR in
    let listed := sum_counts (LogStats_TopErrors stats) in
    let messages := distinct (error_messages (scanned_lines file)) in
    (listed <= errors)%Z /\
    ((messages <= 5)%nat -> listed = errors) /\
    ((5 < messages)%nat -> (listed < errors)%Z).
Proof.
  intros Hrt Hfs Herr Hlen. unfold ParseLogFile. rewrite Hfs, Herr.
  eexists. split; [reflexivity|]. cbn [LogStats_LevelCounts LogStats_TopErrors].
  rewrite scan_LevelCounts_fold, scan_errorMessages_fold, getTopErrors_take.
  cbn [scan_init scan_LevelCounts scan_errorMessages].
  set (msgs := error_messages (scanned_lines file)).
  set (levels := entry_levels (scanned_lines file)).
  set (sorted := sort_Slice rt _).
  assert (Hm : (Z.of_nat (length msgs) < 2 ^ 63)%Z).
  { pose proof (error_messages_length (scanned_lines file)). unfold msgs. lia. }
  assert (Hl : (Z.of_nat (length levels) < 2 ^ 63)%Z).
  { pose proof (parsed_entries_length (scanned_lines file)).
    unfold levels, entry_levels. rewrite length_map. lia. }
  assert (Herrors : forall m, m = count_all ∅ levels ->
                              count_of m ERROR = Z.of_nat (length msgs)).
  { intros m ->. unfold count_of. rewrite count_all_empty_lookup by exact Hl.
    unfold msgs, levels. rewrite error_messages_frequency.
    destruct (decide (frequency ERROR _ = 0)%nat) as [-> | ?]; reflexivity. }
  assert (Hperm : sorted ≡ₚ entry_of <$> map_to_list (count_all ∅ msgs))
    by apply (sort_Slice_entries rt _ Hrt).
  assert (Hsum : sum_counts sorted = Z.of_nat (length msgs)).
  { rewrite (sum_counts_Permutation _ _ Hperm), sum_counts_count_all.
    - rewrite map_to_list_empty. simpl. lia.
    - intros j. rewrite lookup_empty. simpl. lia. }
  assert (Hlen_sorted : length sorted = distinct msgs).
  { rewrite Hperm, length_fmap, length_map_to_list.
    apply count_all_empty_size, Hm. }
  assert (Hpos : forall ef, ef ∈ sorted -> (0 < ErrorFrequency_Count ef)%Z).
  { intros ef Hef. rewrite Hperm in Hef. apply elem_of_entries in Hef.
    rewrite count_all_empty_lookup in Hef by exact Hm.
    destruct (decide (frequency _ msgs = 0)%nat) as [|Hne]; [discriminate|].
    injection Hef as <-. lia. }
  assert (Hsplit : (sum_counts (take 5 sorted) + sum_counts (drop 5 sorted)
                    = Z.of_nat (length msgs))%Z).
  { rewrite <- sum_counts_app, take_drop. exact Hsum. }
  cbv zeta.
  match goal with |- context [count_of ?m ERROR] => rewrite (Herrors m eq_refl) end.
  assert (Hcases : (distinct msgs <= 5)%nat \/ (5 < distinct msgs)%nat) by lia.
  destruct Hcases as [Hle | Hgt].
  - rewrite drop_ge in Hsplit by lia. simpl in Hsplit.
    split; [lia|]. split; [lia|]. lia.
  - assert (0 < sum_counts (drop 5 sorted))%Z.
    { apply sum_counts_pos.
      - intros ef Hef. apply Hpos. apply (subseteq_drop 5 sorted), Hef.
      - intros Hnil. apply (f_equal length) in Hnil.
        rewrite length_drop in Hnil. simpl in Hnil. lia. }
    split; [lia|]. split; [lia|]. lia.
Qed.

(** The example file: two occurrences of one error message. *)
Lemma top_errors_within_error_count_witness :
  exists stats,
    ParseLogFile runtime_merge_sort example_fs "app.log" = (Some stats, None) /\
    (sum_counts (LogStats_TopErrors stats)
     <= count_of (LogStats_LevelCounts stats) ERROR)%Z.
Proof.
  destruct (top_errors_within_error_count runtime_merge_sort example_fs "app.log"
              {| scanned_lines := example_lines; scanner_Err := None |}
              runtime_merge_sort_ok eq_refl eq_refl) as (stats & H1 & H2 & _).
  - vm_compute. reflexivity.
  - exists stats. split; [exact H1 | exact H2].
Defined.

(** ** Package config *)

(** X16.  [Load] fails only when the [.env] file exists and cannot be read;
    a missing file is no error.  The configuration it returns has a port, a
    host and a JWT secret that are not empty and thresholds that are not zero:
    the port 8080, the host localhost, the secret your-secret-key and the
    thresholds 80 and 75 stand in for empty or zero values.  The secret is
    [JWT_SECRET] when that is set, else [ACCESS_TOKEN_SECRET]. *)
Theorem Load_fills_defaults (v : Viper) :
  (forall err, viper_ReadInConfig v = ConfigReadError err ->
               Load v = (None, Some (ErrorfW "error reading .env file" err))) /\
  ((forall err, viper_ReadInConfig v <> ConfigReadError err) ->
   exists config,
     Load v = (Some config, None) /\
     Config_Server_Port config <> "" /\
     Config_Server_Host config <> "" /\
     Config_Auth_JWTSecret config <> "" /\
     (Config_Metrics_CPUThreshold config =? 0)%float = false /\
     (Config_Metrics_MemoryThreshold config =? 0)%float = false /\
     (viper_GetString v "PORT" <> "" -> Config_Server_Port config = viper_GetString v "PORT") /\
     (viper_GetString v "JWT_SECRET" <> "" ->
      Config_Auth_JWTSecret config = viper_GetString v "JWT_SECRET") /\
     (viper_GetString v "JWT_SECRET" = "" ->
      viper_GetString v "ACCESS_TOKEN_SECRET" <> "" ->
      Config_Auth_JWTSecret config = viper_GetString v "ACCESS_TOKEN_SECRET") /\
     ((viper_GetFloat64 v "CPU_THRESHOLD" =? 0)%float = false ->
      Config_Metrics_CPUThreshold config = viper_GetFloat64 v "CPU_THRESHOLD")).
Proof.
  split.
  - intros err H. unfold Load. rewrite H. reflexivity.
  - intros Hread.
    assert (exists c, Load v = (Some c, None) /\
              Load v = (Some c, None) /\
              c = {|
         Config_Server_Port :=
           if decide (viper_GetString v "PORT" = "") then "8080" else viper_GetString v "PORT";
         Config_Server_Host :=
           if decide (viper_GetString v "HOST" = "") then "localhost"
           else viper_GetString v "HOST";
         Config_Server_ReadTimeout := viper_GetDuration v "server.read_timeout";
         Config_Server_WriteTimeout := viper_GetDuration v "server.write_timeout";
         Config_Database_URL := viper_GetString v "DATABASE_URL";
         Config_Auth_JWTSecret :=
           if decide (getJWTSecret v = "") then "your-secret-key" else getJWTSecret v;
         Config_Auth_SessionDuration := viper_GetDuration v "auth.session_duration";
         Config_Metrics_CollectionInterval := viper_GetDuration v "metrics.collection_interval";
         Config_Metrics_CPUThreshold :=
           if (viper_GetFloat64 v "CPU_THRESHOLD" =? 0)%float then 80%float
           else viper_GetFloat64 v "CPU_THRESHOLD";
         Config_Metrics_MemoryThreshold :=
           if (viper_GetFloat64 v "MEMORY_THRESHOLD" =? 0)%float then 75%float
           else viper_GetFloat64 v "MEMORY_THRESHOLD" |}) as (c & Hc & _ & ->).
    { unfold Load. destruct (viper_ReadInConfig v) as [| |err] eqn:E;
        [| |exfalso; apply (Hread err); reflexivity];
        eexists; split; try split; reflexivity. }
    eexists. split; [exact Hc|].
    cbn [Config_Server_Port Config_Server_Host Config_Auth_JWTSecret
         Config_Metrics_CPUThreshold Config_Metrics_MemoryThreshold].
    assert (Hsecret : (if decide (getJWTSecret v = "") then "your-secret-key"
                       else getJWTSecret v) <> "").
    { destruct (decide (getJWTSecret v = "")); [discriminate | assumption]. }
    repeat split.
    + destruct (decide (viper_GetString v "PORT" = "")); [discriminate | assumption].
    + destruct (decide (viper_GetString v "HOST" = "")); [discriminate | assumption].
    + exact Hsecret.
    + destruct (viper_GetFloat64 v "CPU_THRESHOLD" =? 0)%float eqn:E;
        [reflexivity | exact E].
    + destruct (viper_GetFloat64 v "MEMORY_THRESHOLD" =? 0)%float eqn:E;
        [reflexivity | exact E].
    + intros Hp. rewrite decide_False by exact Hp. reflexivity.
    + intros Hj.
      assert (Hg : getJWTSecret v = viper_GetString v "JWT_SECRET").
      { unfold getJWTSecret.
        destruct (decide (viper_GetString v "JWT_SECRET" <> "")); [reflexivity | contradiction]. }
      rewrite Hg. destruct (decide (viper_GetString v "JWT_SECRET" = ""));
        [contradiction | reflexivity].
    + intros Hj Ha.
      assert (Hg : getJWTSecret v = viper_GetString v "ACCESS_TOKEN_SECRET").
      { unfold getJWTSecret.
        destruct (decide (viper_GetString v "JWT_SECRET" <> "")); [contradiction|].
        destruct (decide (viper_GetString v "ACCESS_TOKEN_SECRET" <> ""));
          [reflexivity | contradiction]. }
      rewrite Hg. destruct (decide (viper_GetString v "ACCESS_TOKEN_SECRET" = ""));
        [contradiction | reflexivity].
    + intros ->. reflexivity.
Qed.

(** ** The monitor on an empty CPU sample *)

Lemma GetCurrentMetrics_empty_sample (env : Env) (w : World) (mem : float) :
  env_cpu_Percent env (ticks w) = ([], None) ->
  env_mem_UsedPercent env (S (ticks w)) = (mem, None) ->
  GetCurrentMetrics env w
  = ((Some {| SystemMetrics_CPUUsage := 0;
              SystemMetrics_MemoryUsage := mem;
              SystemMetrics_Timestamp := env_now env (S (S (ticks w))) |}, None),
     set_ticks (S (S (S (ticks w)))) w).
Proof.
  intros Hcpu Hmem.
  unfold GetCurrentMetrics, cpu_Percent, mem_VirtualMemory, time_Now. unfold_M. simpl.
  rewrite Hcpu. simpl. rewrite Hmem. reflexivity.
Qed.

(** X17.  [cpu.Percent] answering with an empty slice and no error is taken
    by [GetCurrentMetrics] as a CPU usage of 0: on such a tick the monitor,
    with the database answering and an enabled CPU threshold that is not
    negative, resolves every active CPU alert. *)
Theorem monitor_empty_cpu_sample_resolves (env : Env) (w : World)
    (th : MetricThreshold) (mem : float) :
  healthy env ->
  List.NoDup (List.map MetricThreshold_Type (db_metric_thresholds w)) ->
  List.In th (db_metric_thresholds w) ->
  MetricThreshold_Enabled th = true ->
  MetricThreshold_Type th = CPUUsage ->
  (MetricThreshold_Threshold th <? 0)%float = false ->
  env_cpu_Percent env (ticks w) = ([], None) ->
  env_mem_UsedPercent env (S (ticks w)) = (mem, None) ->
  active_of CPUUsage (db_alerts (snd (monitor_loop [MonitorTick] env w))) = [].
Proof.
  intros Hh Hnd Hin Hen Ht Hthr Hcpu Hmem.
  set (m := {| SystemMetrics_CPUUsage := 0%float;
               SystemMetrics_MemoryUsage := mem;
               SystemMetrics_Timestamp := env_now env (S (S (ticks w))) |}).
  set (w2 := set_ticks (S (S (S (ticks w)))) w).
  assert (Hloop : db_alerts (snd (monitor_loop [MonitorTick] env w))
                  = db_alerts (snd (CheckThresholds m env w2))).
  { cbn [monitor_loop]. unfold_M.
    rewrite (GetCurrentMetrics_empty_sample env w mem Hcpu Hmem). fold m w2.
    cbv beta iota. destruct (CheckThresholds m env w2) as [[e|] w3]; reflexivity. }
  rewrite Hloop.
  destruct (CheckThresholds_at_type env m w2 th Hh Hnd Hin Hen) as (w1 & Hw1 & Hafter).
  rewrite Ht in Hw1, Hafter.
  rewrite <- active_of_alerts_of, Hafter, active_of_alerts_of.
  rewrite (check_threshold_resolve env m th w1 0 Hh); [| rewrite Ht; reflexivity | exact Hthr].
  rewrite Ht. apply active_of_resolved.
Qed.

(** The default thresholds, a CPU alert active, an empty CPU sample. *)
Lemma monitor_empty_cpu_sample_resolves_witness :
  active_of CPUUsage (db_alerts world_cpu_active) <> [] /\
  active_of CPUUsage
    (db_alerts (snd (monitor_loop [MonitorTick] env_cpu_empty world_cpu_active))) = [].
Proof.
  split; [discriminate|].
  refine (monitor_empty_cpu_sample_resolves env_cpu_empty world_cpu_active
            (threshold_row 1 CPUUsage 80 true) 61 _ _ _ _ _ _ _ _).
  - intros k. reflexivity.
  - exact default_thresholds_unique.
  - left. reflexivity.
  - reflexivity.
  - reflexivity.
  - reflexivity.
  - reflexivity.
  - reflexivity.
Defined.
